(** * gaussian-vrm: binding, calibration and archive invariants

    A shallow embedding of the parts of [apps/preprocess/preprocess.js] and
    [gvrm-format/gvrm.js] that decide the properties stated in the
    specification: the splat classifier and binder, the GVRM archive
    (save, load, bone grouping), the height calibration retry loop, the
    foreground/background split and the shader arithmetic of the deformer;
    and of the code around them: the centroids and the search for the
    facing direction of [preprocess.js], the clean-up at the end of
    [GVRM.load], the point cloud files of [gvrm-format/ply.js], the
    capsules, the pose operations and the texture channels of
    [gvrm-format/utils.js] and the splat arrays of [gvrm-format/gs.js].

    JavaScript numbers are IEEE binary64 values and are modelled by Rocq's
    primitive floats, whose comparisons and arithmetic are the same
    operations.  A JavaScript array whose cells may hold [undefined] (or
    [null] once it went through JSON) is a [list (option A)]: [None] is the
    missing value.  Objects used as dictionaries are [gmap]s. *)

From Stdlib Require Import ZArith List Bool Lia Permutation.
From Stdlib Require Import PrimFloat SpecFloat FloatOps FloatAxioms.
From Stdlib Require Uint63.
From Stdlib Require Import Reals Lra.
From Stdlib Require Ascii.
From Stdlib Require String.
From stdpp Require Import gmap list sorting strings pretty.

(** ** Part I: the embedding *)

(** *** JavaScript values *)

Module Js.

(** The outcome of a call: a value, or a thrown exception. *)
Inductive error :=
| TypeError
| NoValidVertices          (* 'No valid vertices found for height calculation' *)
| MaxDifferenceInfinity    (* 'calculateHeights: maxDifference is -Infinity' *)
| ErrorID6 (distXZ : float)(* 'calculateHeights: could not find target ... [ErrorID 6]' *)
| ErrorID5.                (* 'calculateCentroid: no vertices found [ErrorID 5]' *)

Inductive result (A : Type) :=
| Ok (a : A)
| Throw (e : error).
Arguments Ok {A} a.
Arguments Throw {A} e.

Definition bind {A B} (r : result A) (k : A → result B) : result B :=
  match r with
  | Ok a => k a
  | Throw e => Throw e
  end.

(** A loop whose body may throw: the state is threaded through the
    iterations and the first exception ends the loop. *)
Fixpoint foldM {A S} (body : S → A → result S) (s : S) (l : list A) : result S :=
  match l with
  | [] => Ok s
  | a :: rest => bind (body s a) (λ s', foldM body s' rest)
  end.

(** [arr.filter (p)] with a predicate that may throw. *)
Fixpoint filterM {A} (p : A → result bool) (l : list A) : result (list A) :=
  match l with
  | [] => Ok []
  | a :: rest =>
      bind (p a) (λ keep,
      bind (filterM p rest) (λ kept, Ok (if keep then a :: kept else kept)))
  end.

(** [Math.round (f)] for a finite [f]: the integer nearest to [f], a tie
    going up.  (On [NaN] and the infinities [Math.round] returns its
    argument; the sources round only numbers that passed a comparison
    with a finite bound, and the value here is 0 for the others.) *)
Definition Math_round (f : float) : Z :=
  match Prim2SF f with
  | S754_finite s m e =>
      let n := if s then Z.neg m else Z.pos m in
      if (0 <=? e)%Z then (n * 2 ^ e)%Z
      else let d := (2 ^ (- e))%Z in ((2 * n + d) / (2 * d))%Z
  | _ => 0%Z
  end.

(** An integer as a number. *)
Definition number (n : Z) : float :=
  if (n <? 0)%Z then (- of_uint63 (Uint63.of_Z (- n)))%float
  else of_uint63 (Uint63.of_Z n).

(** [Object.keys]-like ascending enumeration of integer keys. *)
Definition sortedKeys {V} (o : gmap Z V) : list Z :=
  merge_sort Z.le (elements (dom o)).

(** [arr[i]]: reading past the end of an array yields [undefined]. *)
Definition index {A} (arr : list (option A)) (i : nat) : option A :=
  mjoin (arr !! i).

(** [Object.keys(o)] for an object whose keys are array indices: the keys
    in ascending numeric order. *)
Definition keys {V} (o : gmap nat V) : list nat :=
  merge_sort (≤) (elements (dom o)).

End Js.

#[global] Instance result_bind : MBind Js.result := λ A B k r, Js.bind r k.
#[global] Instance result_ret : MRet Js.result := λ A a, Js.Ok a.

(** *** The archive: [GVRM.save], [GVRM.load], [GVRM.sortSplatsByBones] *)

Module Archive.

(** The binding arrays of [data.json], parallel to the splat index.
    Offsets are stored flat, three numbers per splat. *)
Record ExtraData := {
  splatVertexIndices : list (option nat);
  splatBoneIndices : list (option Z);
  splatRelativePoses : list (option float)
}.

(** State of the loop of [sortSplatsByBones]. *)
Record SortState := {
  sceneSplatIndices : gmap nat (list nat);
  sceneCount : nat;
  boneSceneMap : gmap (option Z) nat
}.

Definition sortInit : SortState :=
  {| sceneSplatIndices := ∅; sceneCount := 0; boneSceneMap := ∅ |}.

(** One iteration of the loop at splat [i] whose bone is [boneIndex]:
    a bone not seen before gets the next scene number and an empty group,
    then [i] is pushed on the group of its bone.
    [alter] leaves the map unchanged when the key is missing; the key was
    set by the branch just before, so that case is not reached. *)
Definition sortStep (st : SortState) (i : nat) (boneIndex : option Z) : SortState :=
  let st1 :=
    match boneSceneMap st !! boneIndex with
    | None =>
        {| boneSceneMap := <[boneIndex := sceneCount st]> (boneSceneMap st);
           sceneCount := S (sceneCount st);
           sceneSplatIndices := <[sceneCount st := []]> (sceneSplatIndices st) |}
    | Some _ => st
    end in
  match boneSceneMap st1 !! boneIndex with
  | Some k =>
      {| boneSceneMap := boneSceneMap st1;
         sceneCount := sceneCount st1;
         sceneSplatIndices := alter (λ group, group ++ [i]) k (sceneSplatIndices st1) |}
  | None => st1
  end.

(** [for (let i = 0; i < extraData.splatBoneIndices.length; i++)], entered
    at index [i] with the bones still to visit. *)
Fixpoint sortLoop (i : nat) (bones : list (option Z)) (st : SortState) : SortState :=
  match bones with
  | [] => st
  | boneIndex :: rest => sortLoop (S i) rest (sortStep st i boneIndex)
  end.

(** The order in which [updateExtraData] visits the splats: scene after
    scene in the order of [Object.keys], each scene's list front to back. *)
Definition sceneOrder (groups : gmap nat (list nat)) : list nat :=
  Js.keys groups ≫= λ sceneIndex, default [] (groups !! sceneIndex).

(** [updateExtraData]: rebuilds the three arrays in scene order.  (The
    function first concatenates the groups into a local [splatIndices]
    that it never reads; that loop has no effect and is left out.) *)
Definition updateExtraData (extraData : ExtraData) (groups : gmap nat (list nat))
  : ExtraData :=
  let order := sceneOrder groups in
  {| splatVertexIndices := map (Js.index (splatVertexIndices extraData)) order;
     splatBoneIndices := map (Js.index (splatBoneIndices extraData)) order;
     splatRelativePoses :=
       order ≫= λ splatIndex,
         [ Js.index (splatRelativePoses extraData) (splatIndex * 3);
           Js.index (splatRelativePoses extraData) (splatIndex * 3 + 1);
           Js.index (splatRelativePoses extraData) (splatIndex * 3 + 2) ] |}.

(** [sortSplatsByBones]: returns the groups and the bone-to-scene map, and
    replaces the arrays of [extraData] (third component: the object after
    the call). *)
Definition sortSplatsByBones (extraData : ExtraData)
  : gmap nat (list nat) * gmap (option Z) nat * ExtraData :=
  let st := sortLoop 0 (splatBoneIndices extraData) sortInit in
  (sceneSplatIndices st, boneSceneMap st,
   updateExtraData extraData (sceneSplatIndices st)).

(** What [JSON.parse (JSON.stringify x)] returns for a number: [NaN] and
    the infinities are written as [null], negative zero is written as
    [0], every other number is read back unchanged. *)
Definition jsonNumber (x : float) : option float :=
  if is_nan x || is_infinity x then None
  else if is_zero x then Some zero
  else Some x.

(** [JSON.stringify (extraData)] as the document read back at load time.
    Integers are written in full; [undefined] cells become [null]. *)
Definition stringify (extraData : ExtraData) : ExtraData :=
  {| splatVertexIndices := splatVertexIndices extraData;
     splatBoneIndices := splatBoneIndices extraData;
     splatRelativePoses := map (λ cell, cell ≫= jsonNumber) (splatRelativePoses extraData) |}.

Section Container.
(** A vertex record of the point cloud file and the mesh blob are
    carried through unchanged. *)
Context {PlyVertex Vrm : Type}.

(** What the archive keeps of a [GVRM]: the three named entries. *)
Record Gvrm := {
  gsSplatCount : nat;
  gsCloud : list PlyVertex;
  gsBinding : ExtraData;
  gvrmBoneSceneMap : gmap (option Z) nat
}.

Record Zip := {
  model_vrm : Vrm;
  model_ply : list PlyVertex;
  data_json : ExtraData
}.

(** [GVRM.save]: the point cloud at [gsPath] and the arrays of [gvrm.gs]. *)
Definition save (vrm : Vrm) (ply : list PlyVertex) (binding : ExtraData) : Zip :=
  {| model_vrm := vrm; model_ply := ply; data_json := stringify binding |}.

(** [PLYParser.splitPLY]: one point cloud per scene; [createPLYFile]
    reads [vertex.rawData], which throws on a missing vertex. *)
Definition splitPLY (ply : list PlyVertex) (groups : gmap nat (list nat))
  : Js.result (list (list PlyVertex)) :=
  match mapM (λ sceneIndex,
                mapM (λ index, ply !! index) (default [] (groups !! sceneIndex)))
             (Js.keys groups) with
  | Some scenes => Js.Ok scenes
  | None => Js.Throw Js.TypeError
  end.

(** [GVRM.load], as far as the binding is concerned: parse, group by
    bone, split the cloud in the same order, load every scene. *)
Definition load (zip : Zip) : Js.result Gvrm :=
  let '(groups, boneMap, extraData) := sortSplatsByBones (data_json zip) in
  scenes ← splitPLY (model_ply zip) groups;
  Js.Ok {| gsSplatCount := length (mjoin scenes);
           gsCloud := mjoin scenes;
           gsBinding := extraData;
           gvrmBoneSceneMap := boneMap |}.
End Container.

Arguments Gvrm : clear implicits.
Arguments Zip : clear implicits.

(** A small archive: three splats, the middle one on another bone. *)
Definition exampleBinding : ExtraData :=
  {| splatVertexIndices := [Some 10; Some 20; Some 30];
     splatBoneIndices := [Some 1%Z; Some 2%Z; Some 1%Z];
     splatRelativePoses :=
       [Some 1; Some 1; Some 1; Some 2; Some 2; Some 2; Some 3; Some 3; Some 3]%float |}.

Definition exampleCloud : list nat := [100; 200; 300].

(** Specification vocabulary for the grouping. *)

(** The distinct values of a list in the order of their first occurrence. *)
Definition firstSeen (bones : list (option Z)) : list (option Z) :=
  foldl (λ seen b, if decide (b ∈ seen) then seen else seen ++ [b]) [] bones.

(** The indices at which [b] occurs, in increasing order. *)
Definition positions (b : option Z) (bones : list (option Z)) : list nat :=
  filter (λ i, bones !! i = Some b) (seq 0 (length bones)).

(** The splat indices regrouped by bone: the groups in the order in which
    their bones first occur, each group in increasing order. *)
Definition regroup (bones : list (option Z)) : list nat :=
  firstSeen bones ≫= λ b, positions b bones.

(** The loop invariant of [sortSplatsByBones] after the prefix [p]. *)
Definition sortInv (p : list (option Z)) (st : SortState) : Prop :=
  sceneCount st = length (firstSeen p) ∧
  (∀ b k, boneSceneMap st !! b = Some k ↔ firstSeen p !! k = Some b) ∧
  (∀ k, sceneSplatIndices st !! k = (λ b, positions b p) <$> firstSeen p !! k).

(** The archive of [exampleBinding] after loading. *)
Definition exampleLoaded : Gvrm nat :=
  {| gsSplatCount := 3;
     gsCloud := [100; 300; 200];
     gsBinding :=
       {| splatVertexIndices := [Some 10; Some 30; Some 20];
          splatBoneIndices := [Some 1%Z; Some 1%Z; Some 2%Z];
          splatRelativePoses :=
            [Some 1; Some 1; Some 1; Some 3; Some 3; Some 3; Some 2; Some 2; Some 2]%float |};
     gvrmBoneSceneMap := <[Some 2%Z := 1]> (<[Some 1%Z := 0]> ∅) |}.

End Archive.


(** *** three.js: the vector operations written out in the sources *)

Module THREE.

Record Vector3 := V3 { x : float; y : float; z : float }.

(** [a.distanceTo (b)] *)
Definition distanceTo (a b : Vector3) : float :=
  let dx := (x a - x b)%float in
  let dy := (y a - y b)%float in
  let dz := (z a - z b)%float in
  PrimFloat.sqrt (dx * dx + dy * dy + dz * dz)%float.

(** [new THREE.Vector3().subVectors (a, b)] *)
Definition subVectors (a b : Vector3) : Vector3 :=
  V3 (x a - x b) (y a - y b) (z a - z b).

(** The services of three.js that the binder calls and that are not part
    of this repository.  [Matrix4] is the library's matrix type and
    [Capsule] a mesh of the capsule group. *)
Class Services (Matrix4 Capsule : Type) := {
  (** [v.applyMatrix4 (m)] *)
  applyMatrix4 : Matrix4 → Vector3 → Vector3;
  (** [new THREE.Matrix4().copy (m).invert ()] *)
  invert : Matrix4 → Matrix4;
  (** [capsule.geometry.index]: [None] when the geometry has no index,
      otherwise [index.count]. *)
  indexCount : Capsule → option nat;
  (** The distance from a point to the closest point of the triangle whose
      corners are the index entries [ii], [ii + 1], [ii + 2] of the capsule,
      moved by [capsule.matrixWorld] ([Triangle.closestPointToPoint]
      followed by [distanceTo]). *)
  triangleDistance : Capsule → nat → Vector3 → float;
  (** [skinnedMesh.applyBoneTransform (index, vertex)]; the index is
      [None] when the caller passes [undefined]. *)
  applyBoneTransform : option nat → Vector3 → Js.result Vector3
}.

End THREE.

(** *** The classifier and the binder: [assignSplatsToBones],
    [assignSplatsToPoints]

    The progress display and the yields to the event loop
    ([document.getElementById], [updateDataTexturesFromBaseData],
    [setTimeout]) do not touch the arrays and are left out. *)

Module GVRMUtils.
(** The palette [colors] of [utils.js]: 14 colours. *)
Definition colors : list (float * float * float) :=
  [ (255, 222, 62); (138, 119, 199); (243, 82, 82); (16, 157, 123); (43, 247, 242);
    (120, 84, 254); (157, 238, 149); (80, 105, 17); (39, 121, 232); (88, 149, 76);
    (22, 60, 188); (243, 67, 171); (94, 62, 2); (162, 192, 4) ]%float.
End GVRMUtils.

Module Binding.
Import THREE.

Section Binder.
Context {Matrix4 Capsule : Type} `{!Services Matrix4 Capsule}.

(** The fields of the [GaussianSplatting] object that the two stages
    read and write. *)
Record GaussianSplatting := {
  splatCount : nat;
  centers0 : list float;               (* Float32Array, three per splat *)
  colors : list float;                 (* four per splat *)
  sceneMatrixWorld : Matrix4;          (* gs.viewer.splatMesh.scenes[0].matrixWorld *)
  matrixWorld : Matrix4;               (* gs.matrixWorld *)
  splatBoneIndices : list (option Z);
  splatVertexIndices : list (option nat);
  splatRelativePoses : list (option float)
}.

(** The skinned mesh of the character: its [position] attribute and the
    world matrix of [character.currentVrm.scene]. *)
Record Character := {
  position : list Vector3;
  vrmMatrixWorld : Matrix4
}.

(** Reading a typed array past its end gives [undefined], which the
    constructor of [Vector3] keeps and arithmetic turns into [NaN]. *)
Definition read (arr : list float) (i : nat) : float := default nan (arr !! i).

(** [new THREE.Vector3 (gs.centers0[i * 3 + 0], ...)] *)
Definition center0 (gs : GaussianSplatting) (i : nat) : Vector3 :=
  V3 (read (centers0 gs) (i * 3 + 0))
     (read (centers0 gs) (i * 3 + 1))
     (read (centers0 gs) (i * 3 + 2)).

(** [new THREE.Vector3().fromBufferAttribute (position, index)] *)
Definition fromBufferAttribute (position : list Vector3) (index : option nat)
  : Vector3 :=
  default (V3 nan nan nan) (index ≫= λ i, position !! i).

(** [gs.colors[i * 4 + c] = GVRMUtils.colors[ci][c]] for c = 0, 1, 2.
    A write past the end of the buffer is ignored; a palette entry that
    does not exist makes the read of its component throw. *)
Definition paint (buffer : list float) (i : nat) (ci : option nat)
  : Js.result (list float) :=
  match ci ≫= λ ci, GVRMUtils.colors !! ci with
  | Some (r, g, b) =>
      Js.Ok (<[i * 4 + 2 := b]> (<[i * 4 + 1 := g]> (<[i * 4 + 0 := r]> buffer)))
  | None => Js.Throw Js.TypeError
  end.

(** The running minimum of a nearest-capsule scan, with the number of
    distances computed so far. *)
Record Scan := {
  minDistance : float;
  bestCi : option nat;
  distanceCalls : nat
}.

(** [for (let ii = 0; ii < index.count; ii += 3)] *)
Definition triangleStarts (count : nat) : list nat :=
  map (λ t, 3 * t) (seq 0 ((count + 2) / 3)).

Definition scanTriangle (capsule : Capsule) (ci : nat) (target : Vector3)
    (scan : Scan) (ii : nat) : Scan :=
  let distance := triangleDistance capsule ii target in
  if (distance <? minDistance scan)%float
  then {| minDistance := distance; bestCi := Some ci;
          distanceCalls := S (distanceCalls scan) |}
  else {| minDistance := minDistance scan; bestCi := bestCi scan;
          distanceCalls := S (distanceCalls scan) |}.

(** The body of [for (let ci = 0; ci < capsules.children.length; ci++)]:
    a capsule without index is skipped. *)
Definition scanCapsule (target : Vector3) (scan : Scan) (entry : nat * Capsule)
  : Scan :=
  match indexCount entry.2 with
  | None => scan
  | Some count =>
      foldl (scanTriangle entry.2 entry.1 target) scan (triangleStarts count)
  end.

(** The nearest-capsule scan shared by both stages; [initial] is the
    value [bestCi] has when the scan starts ([0] for splats,
    [undefined] for mesh vertices). *)
Definition scanCapsules (capsules : list Capsule) (target : Vector3)
    (initial : option nat) (calls : nat) : Scan :=
  foldl (scanCapsule target)
        {| minDistance := infinity; bestCi := initial; distanceCalls := calls |}
        (imap pair capsules).

(** State of the splat loop of [assignSplatsToBones]. *)
Record BoneLoop := {
  boneIndices : list (option Z);
  boneColors : list float;
  boneBestCi : option nat;
  boneCalls : nat
}.

(** The loop of the skeleton-only branch: bone 0 and the first colour. *)
Definition defaultBoneStep (st : BoneLoop) (i : nat) : Js.result BoneLoop :=
  buffer ← paint (boneColors st) i (Some 0);
  Js.Ok {| boneIndices := boneIndices st ++ [Some 0%Z];
           boneColors := buffer;
           boneBestCi := boneBestCi st;
           boneCalls := boneCalls st |}.

(** The body of the main loop of [assignSplatsToBones]. *)
Definition boneStep (gs : GaussianSplatting) (capsules : list Capsule)
    (capsuleBoneIndex : list Z) (fast : bool) (st : BoneLoop) (i : nat)
  : Js.result BoneLoop :=
  if fast && negb (i mod 10 =? 0) then
    buffer ← paint (boneColors st) i (boneBestCi st);
    Js.Ok {| boneIndices :=
               boneIndices st ++ [boneBestCi st ≫= λ ci, capsuleBoneIndex !! ci];
             boneColors := buffer;
             boneBestCi := boneBestCi st;
             boneCalls := boneCalls st |}
  else
    let targetPoint := applyMatrix4 (sceneMatrixWorld gs) (center0 gs i) in
    let scan := scanCapsules capsules targetPoint (Some 0) (boneCalls st) in
    buffer ← paint (boneColors st) i (bestCi scan);
    Js.Ok {| boneIndices :=
               boneIndices st ++ [bestCi scan ≫= λ ci, capsuleBoneIndex !! ci];
             boneColors := buffer;
             boneBestCi := bestCi scan;
             boneCalls := distanceCalls scan |}.

(** [assignSplatsToBones (gs, capsules, capsuleBoneIndex, fast)]: the
    object after the call and the number of point-to-triangle distances
    computed. *)
Definition assignSplatsToBones (gs : GaussianSplatting) (capsules : list Capsule)
    (capsuleBoneIndex : list Z) (fast : bool)
  : Js.result (GaussianSplatting * nat) :=
  let start := {| boneIndices := []; boneColors := colors gs;
                  boneBestCi := Some 0; boneCalls := 0 |} in
  let isCliMode := bool_decide (length capsules = 0) in
  st ← Js.foldM (if isCliMode then defaultBoneStep
                 else boneStep gs capsules capsuleBoneIndex fast)
                start (seq 0 (splatCount gs));
  Js.Ok ({| splatCount := splatCount gs;
            centers0 := centers0 gs;
            colors := boneColors st;
            sceneMatrixWorld := sceneMatrixWorld gs;
            matrixWorld := matrixWorld gs;
            splatBoneIndices := boneIndices st;
            splatVertexIndices := splatVertexIndices gs;
            splatRelativePoses := splatRelativePoses gs |},
         boneCalls st).

(** The posed position of mesh vertex [index] in world space:
    [fromBufferAttribute], [applyBoneTransform], then the world matrix
    of the character's scene. *)
Definition skinnedVertex (character : Character) (index : option nat)
  : Js.result Vector3 :=
  skinned ← applyBoneTransform index
              (fromBufferAttribute (position character) index);
  Js.Ok (applyMatrix4 (vrmMatrixWorld character) skinned).

(** The first loop of [assignSplatsToPoints]: every mesh vertex is
    pushed on the pool of the bone of its nearest capsule.  Looking up
    the pool of [undefined], or a pool that was never created, throws. *)
Definition vertexStep (character : Character) (capsules : list Capsule)
    (capsuleBoneIndex : list Z) (boneVertexIndices : gmap Z (list nat)) (i : nat)
  : Js.result (gmap Z (list nat)) :=
  vertex ← skinnedVertex character (Some i);
  let scan := scanCapsules capsules vertex None 0 in
  match bestCi scan ≫= λ ci, capsuleBoneIndex !! ci with
  | Some bone =>
      match boneVertexIndices !! bone with
      | Some pool => Js.Ok (<[bone := pool ++ [i]]> boneVertexIndices)
      | None => Js.Throw Js.TypeError
      end
  | None => Js.Throw Js.TypeError
  end.

Definition classifyVertices (character : Character) (capsules : list Capsule)
    (capsuleBoneIndex : list Z) : Js.result (gmap Z (list nat)) :=
  Js.foldM (vertexStep character capsules capsuleBoneIndex)
           (foldl (λ pools value, <[value := []]> pools) ∅ capsuleBoneIndex)
           (seq 0 (length (position character))).

(** [for (let vi = 0; vi < vertexIndices.length; vi += skip)] *)
Definition candidates (length skip : nat) : list nat :=
  map (λ t, skip * t) (seq 0 ((length + skip - 1) / skip)).

(** The inner loop of the second stage: the running minimum and
    [bestVi]. *)
Definition nearestStep (character : Character) (targetPoint : Vector3)
    (vertexIndices : list nat) (st : float * nat) (vi : nat)
  : Js.result (float * nat) :=
  vertex ← skinnedVertex character (vertexIndices !! vi);
  let distance := distanceTo vertex targetPoint in
  Js.Ok (if (distance <? st.1)%float then (distance, vi) else st).

(** The body of the splat loop: the pool of the splat's bone is
    searched and [vertexIndices[bestVi]] is pushed. *)
Definition bindStep (character : Character) (gs : GaussianSplatting)
    (boneVertexIndices : gmap Z (list nat)) (fast : bool)
    (bound : list (option nat)) (i : nat) : Js.result (list (option nat)) :=
  let targetPoint := applyMatrix4 (sceneMatrixWorld gs) (center0 gs i) in
  match Js.index (splatBoneIndices gs) i ≫= λ bone, boneVertexIndices !! bone with
  | Some vertexIndices =>
      let skip := if fast then 3 else 1 in
      best ← Js.foldM (nearestStep character targetPoint vertexIndices)
                      (infinity, 0) (candidates (length vertexIndices) skip);
      Js.Ok (bound ++ [vertexIndices !! best.2])
  | None => Js.Throw Js.TypeError
  end.

(** The splat centre moved into the local space of the mesh. *)
Definition centerInMeshSpace (character : Character) (gs : GaussianSplatting)
    (i : nat) : Vector3 :=
  applyMatrix4 (invert (vrmMatrixWorld character))
    (applyMatrix4 (matrixWorld gs)
       (applyMatrix4 (sceneMatrixWorld gs) (center0 gs i))).

(** The body of the last loop: the offset of splat [i] from its vertex. *)
Definition poseStep (character : Character) (gs : GaussianSplatting)
    (bound : list (option nat)) (poses : list (option float)) (i : nat)
  : Js.result (list (option float)) :=
  let vertexIndex := Js.index bound i in
  vertex ← applyBoneTransform vertexIndex
             (fromBufferAttribute (position character) vertexIndex);
  let relativePos := subVectors (centerInMeshSpace character gs i) vertex in
  Js.Ok (poses ++ [Some (x relativePos); Some (y relativePos); Some (z relativePos)]).

Definition withBinding (gs : GaussianSplatting) (bound : list (option nat))
    (poses : list (option float)) : GaussianSplatting :=
  {| splatCount := splatCount gs;
     centers0 := centers0 gs;
     colors := colors gs;
     sceneMatrixWorld := sceneMatrixWorld gs;
     matrixWorld := matrixWorld gs;
     splatBoneIndices := splatBoneIndices gs;
     splatVertexIndices := bound;
     splatRelativePoses := poses |}.

(** [assignSplatsToPoints (character, gs, capsules, capsuleBoneIndex, fast)] *)
Definition assignSplatsToPoints (character : Character) (gs : GaussianSplatting)
    (capsules : list Capsule) (capsuleBoneIndex : list Z) (fast : bool)
  : Js.result GaussianSplatting :=
  let isCliMode := bool_decide (length (position character) ≤ 3) in
  if isCliMode then
    Js.Ok (withBinding gs (replicate (splatCount gs) (Some 0))
                          (replicate (splatCount gs * 3) (Some zero)))
  else
    boneVertexIndices ← classifyVertices character capsules capsuleBoneIndex;
    bound ← Js.foldM (bindStep character gs boneVertexIndices fast) []
                     (seq 0 (splatCount gs));
    poses ← Js.foldM (poseStep character gs bound) [] (seq 0 (splatCount gs));
    Js.Ok (withBinding gs bound poses).

(** The arrays that [GVRM.save] writes for this object. *)
Definition extraData (gs : GaussianSplatting) : Archive.ExtraData :=
  {| Archive.splatVertexIndices := splatVertexIndices gs;
     Archive.splatBoneIndices := splatBoneIndices gs;
     Archive.splatRelativePoses := splatRelativePoses gs |}.

(** What the splat loop records for splat [i]: an entry of the pool of
    the splat's bone, or [undefined] when nothing was found there. *)
Definition boundInPool (gs : GaussianSplatting) (boneVertexIndices : gmap Z (list nat))
    (i : nat) (cell : option nat) : Prop :=
  ∃ bone pool,
    Js.index (splatBoneIndices gs) i = Some bone ∧
    boneVertexIndices !! bone = Some pool ∧
    (cell = None ∨ ∃ v, cell = Some v ∧ v ∈ pool).

(** What the last loop stores for splat [i]: the centre in mesh space
    minus the vertex as [applyBoneTransform] returned it. *)
Definition offsetStored (character : Character) (gs : GaussianSplatting)
    (bound : list (option nat)) (poses : list (option float)) (i : nat) : Prop :=
  ∃ skinned,
    applyBoneTransform (Js.index bound i)
      (fromBufferAttribute (position character) (Js.index bound i)) = Js.Ok skinned ∧
    Js.index poses (i * 3) =
      Some (x (subVectors (centerInMeshSpace character gs i) skinned)) ∧
    Js.index poses (i * 3 + 1) =
      Some (y (subVectors (centerInMeshSpace character gs i) skinned)) ∧
    Js.index poses (i * 3 + 2) =
      Some (z (subVectors (centerInMeshSpace character gs i) skinned)).

End Binder.

Arguments GaussianSplatting : clear implicits.
Arguments Character : clear implicits.

(** An example scene.  Every world matrix is the identity, so the matrix
    type has a single value.  A capsule is shrunk to one point (all its
    triangles are that point), and the character's single bone was moved
    by one unit along x when the pose was set, so that
    [applyBoneTransform] moves every vertex by one unit. *)
Definition exampleServices : Services unit Vector3 :=
  let shift := 1%float in
  {| applyMatrix4 := λ _ v, v;
     invert := λ m, m;
     indexCount := λ _, Some 3;
     triangleDistance := λ capsule _ point, distanceTo point capsule;
     applyBoneTransform := λ index vertex,
       match index with
       | Some _ => Js.Ok (V3 (x vertex + shift) (y vertex) (z vertex))
       | None => Js.Throw Js.TypeError
       end |}.

(** Four mesh vertices, two capsules for the bones 5 and 7, two splats. *)
Definition exampleCharacter : Character unit :=
  {| position := [V3 0 0 0; V3 0 1 0; V3 1 0 0; V3 1 1 0]%float;
     vrmMatrixWorld := tt |}.

Definition exampleCapsules : list Vector3 := [V3 1 0 0; V3 2 0 0]%float.

Definition exampleCapsuleBoneIndex : list Z := [5; 7]%Z.

Definition exampleSplats : GaussianSplatting unit :=
  {| splatCount := 2;
     centers0 := [1; 0.5; 0; 2; 0.75; 0]%float;
     colors := [0; 0; 0; 1; 0; 0; 0; 1]%float;
     sceneMatrixWorld := tt;
     matrixWorld := tt;
     splatBoneIndices := [];
     splatVertexIndices := [];
     splatRelativePoses := [] |}.

(** The example after [assignSplatsToBones] (four distances computed)... *)
Definition exampleClassified : GaussianSplatting unit :=
  {| splatCount := 2;
     centers0 := [1; 0.5; 0; 2; 0.75; 0]%float;
     colors := [255; 222; 62; 1; 138; 119; 199; 1]%float;
     sceneMatrixWorld := tt;
     matrixWorld := tt;
     splatBoneIndices := [Some 5%Z; Some 7%Z];
     splatVertexIndices := [];
     splatRelativePoses := [] |}.

(** ... and after [assignSplatsToPoints]. *)
Definition exampleBound : GaussianSplatting unit :=
  {| splatCount := 2;
     centers0 := [1; 0.5; 0; 2; 0.75; 0]%float;
     colors := [255; 222; 62; 1; 138; 119; 199; 1]%float;
     sceneMatrixWorld := tt;
     matrixWorld := tt;
     splatBoneIndices := [Some 5%Z; Some 7%Z];
     splatVertexIndices := [Some 0; Some 3];
     splatRelativePoses :=
       [Some 0; Some 0.5; Some 0; Some 0; Some (-0.25); Some 0]%float |}.

End Binding.


(** *** Calibration: [calculateHeights] and the foreground/background split
    of [cleanSplats]

    The search circle that the functions draw ([getSearchAreaCircle],
    [scene.add], [renderer.render]) and the log lines are left out. *)

Module Calibration.

(** A vertex of the point cloud file: the three coordinates that the
    calibration reads and the bytes that [createPLYFile] copies. *)
Record Vertex := { x : float; y : float; z : float; rawData : list Byte.byte }.

Record Heights := { min : float; max : float }.

Record Centroid := { cx : float; cz : float }.     (* centroid.x, centroid.z *)

(** The calibration hint carried across a retry of [preprocess]. *)
Record Hints := { kneeHeight : option float; retry : option Z }.

(** [distY], a parameter of [cleanSplats] left at its default. *)
Definition distY : float := 2.0.

(** [Math.sqrt ((vertex.x - centroid.x) ** 2 + (vertex.z - centroid.z) ** 2)] *)
Definition distanceXZ (centroid : Centroid) (vertex : Vertex) : float :=
  PrimFloat.sqrt ((x vertex - cx centroid) * (x vertex - cx centroid)
        + (z vertex - cz centroid) * (z vertex - cz centroid))%float.

(** [Math.sqrt (vertex.x * vertex.x + vertex.z * vertex.z)] *)
Definition axisDistance (vertex : Vertex) : float :=
  PrimFloat.sqrt (x vertex * x vertex + z vertex * z vertex)%float.

(** The number of elements of an array as a number. *)
Definition size {A} (l : list A) : float := Js.number (Z.of_nat (length l)).

(** JavaScript truthiness of a number that may be missing. *)
Definition truthy (value : option float) : bool :=
  match value with
  | Some v => negb (is_nan v || is_zero v)
  | None => false
  end.

Definition N : Z := 5.

(** State of the sliding window over the histogram: [floorY] and
    [maxDifference], [None] standing for [-Infinity]. *)
Definition windowStep (hints : option Hints) (sortedYCoords : list (Z * Z))
    (st : Z * option Z) (i : nat) : Z * option Z :=
  let currentY := default 0%Z (fst <$> sortedYCoords !! i) in
  if match hints with
     | Some h => truthy (kneeHeight h) &&
                 match kneeHeight h with
                 | Some knee => (knee <? Js.number currentY / 100.0)%float
                 | None => false
                 end
     | None => false
     end
  then st
  else
    let bin (j : nat) := default 0%Z (snd <$> sortedYCoords !! j) in
    let lowerSum := foldl (λ acc j, (acc + bin (i - 5 + j)%nat)%Z) 0%Z (seq 0 5) in
    let upperSum := foldl (λ acc j, (acc + bin (i + j)%nat)%Z) 0%Z (seq 0 5) in
    let difference := (upperSum - lowerSum)%Z in
    if match st.2 with Some maxDifference => (maxDifference <? difference)%Z | None => true end
    then (default 0%Z (fst <$> sortedYCoords !! (i + 1)), Some difference)
    else st.

(** The measurement of [calculateHeights] (up to the assignment of
    [heights]): the floor and the head top from the histogram of the
    heights of the vertices inside the search radius. *)
Definition measureHeights (hints : option Hints) (vertices : list Vertex)
    (centroid : Centroid) (distXZ thresh : float) : Js.result Heights :=
  let inRadius :=
    List.filter (λ vertex, (abs (y vertex) <? distY)%float &&
                           (distanceXZ centroid vertex <? distXZ * thresh)%float)
                vertices in
  let radiusFilteredVertices :=
    if bool_decide (length inRadius = 0)
    then List.filter (λ v, (abs (y v) <? distY)%float) vertices
    else inRadius in
  let yCoords := map (λ vertex, Js.Math_round (- y vertex * 100)%float)
                     radiusFilteredVertices in
  match yCoords with
  | [] => Js.Throw Js.NoValidVertices
  | first :: _ =>
      let minY := (foldl Z.min first yCoords - N)%Z in
      let maxY := (foldl Z.max first yCoords + N)%Z in
      let empty : gmap Z Z :=
        foldl (λ m key, <[key := 0%Z]> m) ∅ (seqZ minY (maxY - minY + 1)) in
      let frequencyMap :=
        foldl (λ m binKey, <[binKey := (default 0 (m !! binKey) + 1)%Z]> m)
              empty yCoords in
      let sortedYCoords :=
        map (λ key, (key, default 0%Z (frequencyMap !! key)))
            (Js.sortedKeys frequencyMap) in
      let window :=
        foldl (windowStep hints sortedYCoords) ((minY + N)%Z, None)
              (seq 5 (length sortedYCoords - 5 + 1 - 5)) in
      match window.2 with
      | None => Js.Throw Js.MaxDifferenceInfinity
      | Some _ =>
          let floorY := window.1 in
          let emptySpaceY :=
            default (maxY - N)%Z
              (fst <$> List.find
                 (λ entry,
                    (Js.number floorY / 100 + 0.3 <? Js.number entry.1 / 100)%float &&
                    (Js.number entry.2 <? size radiusFilteredVertices * 0.00025)%float)
                 sortedYCoords) in
          Js.Ok {| min := (Js.number floorY / 100)%float;
                   max := (Js.number emptySpaceY / 100)%float |}
      end
  end.

(** The vertices of the validation: inside the radius and between 5% of
    the height and the top. *)
Definition testFilteredVertices (vertices : list Vertex) (centroid : Centroid)
    (distXZ : float) (heights : Heights) : list Vertex :=
  let ymin := ((max heights - min heights) * 0.05 + min heights)%float in
  List.filter (λ vertex, (distanceXZ centroid vertex <? distXZ)%float &&
                         (ymin <? - y vertex)%float &&
                         (- y vertex <? max heights)%float)
              vertices.

Definition outerRingVertices (tested : list Vertex) (centroid : Centroid)
    (distXZ : float) : list Vertex :=
  let outerRingWidth := 0.02%float in
  List.filter (λ vertex,
                 let distance := distanceXZ centroid vertex in
                 (distXZ - outerRingWidth <? distance)%float &&
                 (distance <=? distXZ)%float)
              tested.

(** The condition under which [calculateHeights] does not accept a
    measurement: fewer than 10,000 vertices in the band, a height
    difference of at most 0.3, or more than 10 vertices and more than
    0.025% of the band in the outer ring. *)
Definition rejected (vertices : list Vertex) (centroid : Centroid)
    (distXZ : float) (heights : Heights) : bool :=
  let tested := testFilteredVertices vertices centroid distXZ heights in
  let heightDifference := (max heights - min heights)%float in
  let outer := outerRingVertices tested centroid distXZ in
  let outerRingRatio := (size outer / size tested)%float in
  (Z.of_nat (length tested) <? 10000)%Z ||
  (heightDifference <=? 0.3)%float ||
  ((10 <? Z.of_nat (length outer))%Z && (0.00025 <? outerRingRatio)%float).

(** [calculateHeights (vertices, heights, centroid, distXZ, thresh, phase)].
    The recursion of the source is bounded by [fuel]; [None] is returned
    when the fuel runs out.  The [heights] argument is only used to draw
    the search circle. *)
Fixpoint calculateHeights (fuel : nat) (hints : option Hints) (vertices : list Vertex)
    (heights : option Heights) (centroid : option Centroid) (distXZ thresh : float)
  : option (Js.result (Heights * float)) :=
  match fuel with
  | 0 => None
  | S fuel =>
      let centroid' := default {| cx := 0; cz := 0 |} centroid in
      match measureHeights hints vertices centroid' distXZ thresh with
      | Js.Throw e => Some (Js.Throw e)
      | Js.Ok heights' =>
          if rejected vertices centroid' distXZ heights' then
            if (distXZ <? 3.0)%float then
              calculateHeights fuel hints vertices (Some heights') (Some centroid')
                               (distXZ + 0.1)%float thresh
            else Some (Js.Throw (Js.ErrorID6 distXZ))
          else Some (Js.Ok (heights', distXZ))
      end
  end.

(** The search radius at the [k]-th retry of a calibration started at
    0.3, as [cleanSplats] starts it. *)
Fixpoint radiusAfter (k : nat) : float :=
  match k with
  | 0 => 0.3%float
  | S k => (radiusAfter k + 0.1)%float
  end.


(** The predicate of [filteredVertices6]: inside the radius and no more
    than half a metre below the floor or above the head top. *)
Definition inBand (centroid : Centroid) (distXZ : float) (heights : Heights)
    (vertex : Vertex) : bool :=
  (distanceXZ centroid vertex <=? distXZ)%float &&
  (min heights - 0.5 <=? - y vertex)%float &&
  (- y vertex <=? max heights + 0.5)%float.

(** The predicate of [filteredVertices7]: outside the radius, or more than
    half a metre below the floor or above the head top. *)
Definition outOfBand (centroid : Centroid) (distXZ : float) (heights : Heights)
    (vertex : Vertex) : bool :=
  (distXZ <? distanceXZ centroid vertex)%float ||
  (- y vertex <? min heights - 0.5)%float ||
  (max heights + 0.5 <? - y vertex)%float.

(** [filteredVertices6] of [cleanSplats]. *)
Definition filteredVertices6 (vertices : list Vertex) (centroid : Centroid)
    (distXZ : float) (heights : Heights) : list Vertex :=
  List.filter (inBand centroid distXZ heights) vertices.

(** [filteredVertices7] of [cleanSplats]. *)
Definition filteredVertices7 (vertices : list Vertex) (centroid : Centroid)
    (distXZ : float) (heights : Heights) : list Vertex :=
  List.filter (outOfBand centroid distXZ heights) vertices.

(** A cell of the one-centimetre grid of [detectShoes]. *)
Record Bin := { sum : float; count : nat; mean : float; keep : bool }.

(** The keys of the grid, in the order of the two nested loops. *)
Definition grid : list (Z * Z) :=
  gx ← seqZ (-51) 103; gz ← seqZ (-51) 103; [(gx, gz)].

(** [`${Math.round (vertex.x * 100)},${Math.round (vertex.z * 100)}`] *)
Definition binKey (vertex : Vertex) : Z * Z :=
  (Js.Math_round (x vertex * 100)%float, Js.Math_round (z vertex * 100)%float).

(** The eight neighbours, in the order of the loops over [dx] and [dz]. *)
Definition neighbours : list (Z * Z) :=
  [(-1, -1); (-1, 0); (-1, 1); (0, -1); (0, 1); (1, -1); (1, 0); (1, 1)]%Z.

(** The body of the last double loop over the grid: a kept cell with at
    least five neighbours that are missing or not kept is demoted.  The
    cells are updated in place, so a later cell sees the demotions made
    before it.  (Every key of the grid is in the map.) *)
Definition demote (frequencyMap : gmap (Z * Z) Bin) (key : Z * Z)
  : gmap (Z * Z) Bin :=
  match frequencyMap !! key with
  | Some frequency =>
      if negb (keep frequency) then frequencyMap
      else
        let lost :=
          List.filter (λ d, match frequencyMap !! (key.1 + d.1, key.2 + d.2)%Z with
                            | Some frequency2 => negb (keep frequency2)
                            | None => true
                            end) neighbours in
        if (5 <=? length lost)%nat
        then <[key := {| sum := sum frequency; count := count frequency;
                         mean := mean frequency; keep := false |}]> frequencyMap
        else frequencyMap
  | None => frequencyMap
  end.

(** [frequencyMap.get (key).keep]: throws when the key is not in the map. *)
Definition keepAt (frequencyMap : gmap (Z * Z) Bin) (vertex : Vertex)
  : Js.result bool :=
  match frequencyMap !! binKey vertex with
  | Some frequency => Js.Ok (keep frequency)
  | None => Js.Throw Js.TypeError
  end.

(** The grid of [detectShoes] after its three passes. *)
Definition shoeGrid (filteredVertices1 : list Vertex) (heights : Heights)
  : Js.result (gmap (Z * Z) Bin) :=
  let ymin := ((max heights - min heights) * 0.05 + min heights)%float in
  let vertices :=
    List.filter (λ vertex, (- y vertex <? ymin)%float &&
                           (axisDistance vertex <? 0.5)%float)
                filteredVertices1 in
  let empty : gmap (Z * Z) Bin :=
    foldl (λ m key, <[key := {| sum := 0; count := 0; mean := 0; keep := false |}]> m)
          ∅ grid in
  binned ← Js.foldM
    (λ m vertex,
       match m !! binKey vertex with
       | Some frequency =>
           Js.Ok (<[binKey vertex :=
                      {| sum := (sum frequency + (- y vertex - min heights))%float;
                         count := S (count frequency);
                         mean := mean frequency; keep := keep frequency |}]> m)
       | None => Js.Throw Js.TypeError
       end)
    empty vertices;
  let withMean : gmap (Z * Z) Bin :=
    (λ value, {| sum := sum value; count := count value;
                 mean := if (count value =? 0)%nat then 0%float
                         else (sum value / Js.number (Z.of_nat (count value)))%float;
                 keep := keep value |}) <$> binned in
  let countList := (λ entry, Z.of_nat (count entry.2)) <$> map_to_list withMean in
  let meanCount :=
    (Js.number (foldl Z.add 0%Z countList) / size countList)%float in
  let marked : gmap (Z * Z) Bin :=
    (λ frequency,
       {| sum := sum frequency; count := count frequency; mean := mean frequency;
          keep := (meanCount <? Js.number (Z.of_nat (count frequency)))%float &&
                  (0.01 <? mean frequency)%float |}) <$> withMean in
  Js.Ok (foldl demote marked grid).

(** The predicate of [filteredVertices3]: the vertices kept. *)
Definition keptByShoes (frequencyMap : gmap (Z * Z) Bin) (heights : Heights)
    (vertex : Vertex) : Js.result bool :=
  let ymin := ((max heights - min heights) * 0.05 + min heights)%float in
  if (ymin <=? - y vertex)%float then Js.Ok true
  else if (min heights <=? - y vertex)%float && (- y vertex <=? ymin)%float &&
          (axisDistance vertex <? 0.5)%float
       then keepAt frequencyMap vertex
       else Js.Ok false.

(** The predicate of [filteredVertices4]: the vertices discarded. *)
Definition discardedByShoes (frequencyMap : gmap (Z * Z) Bin) (heights : Heights)
    (vertex : Vertex) : Js.result bool :=
  let ymin := ((max heights - min heights) * 0.05 + min heights)%float in
  if (- y vertex <? min heights)%float then Js.Ok true
  else if (- y vertex <? ymin)%float && (0.5 <=? axisDistance vertex)%float
       then Js.Ok true
       else if (- y vertex <? ymin)%float && (axisDistance vertex <? 0.5)%float
            then kept ← keepAt frequencyMap vertex; Js.Ok (negb kept)
            else Js.Ok false.

(** [detectShoes (filteredVertices1, heights, centroid)]; the centroid is
    not used. *)
Definition detectShoes (filteredVertices1 : list Vertex) (heights : Heights)
    (centroid : Centroid) : Js.result (list Vertex * list Vertex) :=
  frequencyMap ← shoeGrid filteredVertices1 heights;
  filteredVertices3 ← Js.filterM (keptByShoes frequencyMap heights) filteredVertices1;
  filteredVertices4 ← Js.filterM (discardedByShoes frequencyMap heights) filteredVertices1;
  Js.Ok (filteredVertices3, filteredVertices4).

(** The split of [cleanSplats] into the two point clouds it writes: the
    foreground [filteredVertices3] and the background [filteredVertices5].
    [centroid], [distXZ] and [heights] are the results of the second
    calibration pass, [centroid3] and [heights3] those of the third pass,
    which runs on [filteredVertices6]. *)
Definition splitCloud (vertices : list Vertex) (centroid : Centroid) (distXZ : float)
    (heights : Heights) (centroid3 : Centroid) (heights3 : Heights)
  : Js.result (list Vertex * list Vertex) :=
  let filteredVertices6 := filteredVertices6 vertices centroid distXZ heights in
  let filteredVertices7 := filteredVertices7 vertices centroid distXZ heights in
  shoes ← detectShoes filteredVertices6 heights3 centroid3;
  let filteredVertices5 := filteredVertices7 ++ shoes.2 in
  Js.Ok (shoes.1, filteredVertices5).

(** A body of 20,000 points is not needed to try the split: two points of
    a standing figure, one point whose height is not a number, and one
    point far above the head whose abscissa is not a number. *)
Definition exampleCloud : list Vertex :=
  [ {| x := 0; y := (-1)%float; z := 0; rawData := [] |};
    {| x := 0.1; y := (-0.02)%float; z := 0; rawData := [] |} ].

Definition brokenPoint : Vertex := {| x := 0; y := nan; z := 0; rawData := [] |}.

Definition brokenAbscissa : Vertex :=
  {| x := nan; y := (-100)%float; z := 0; rawData := [] |}.

Definition exampleHeights : Heights := {| min := 0; max := 1.7 |}.

(** A cloud of a single point, one metre above the origin of the file. *)
Definition lonePoint : list Vertex :=
  [ {| x := 0; y := (-1)%float; z := 0; rawData := [] |} ].

(** A cloud of a single point, five metres below the origin of the file:
    outside the vertical range [distY] of the measurement. *)
Definition farPoint : list Vertex :=
  [ {| x := 0; y := 5%float; z := 0; rawData := [] |} ].

(** Every measurement from retry [k] on is rejected. *)
Definition rejectedFrom (hints : option Hints) (vertices : list Vertex)
    (centroid : Centroid) (thresh : float) (k : nat) : Prop :=
  ∀ j heights, k ≤ j ≤ 27 →
    measureHeights hints vertices centroid (radiusAfter j) thresh = Js.Ok heights →
    rejected vertices centroid (radiusAfter j) heights = true.

(** Every measurement from retry [k] on can be taken. *)
Definition measurableFrom (hints : option Hints) (vertices : list Vertex)
    (centroid : Centroid) (thresh : float) (k : nat) : Prop :=
  ∀ j, k ≤ j ≤ 27 →
    ∃ heights,
      measureHeights hints vertices centroid (radiusAfter j) thresh = Js.Ok heights.

(** The numbers of a vertex that the band filters compare: its height
    and its distance to the centroid. *)
Definition comparable (centroid : Centroid) (vertex : Vertex) : Prop :=
  is_nan (- y vertex)%float = false ∧
  is_nan (distanceXZ centroid vertex) = false.

(** A vertex that neither band filter lets through. *)
Definition lostAtBand (centroid : Centroid) (distXZ : float) (heights : Heights)
    (vertex : Vertex) : bool :=
  negb (inBand centroid distXZ heights vertex) &&
  negb (outOfBand centroid distXZ heights vertex).

End Calibration.


(** *** The retry of [preprocess]

    The body of [preprocess] (its [try] block) loads, calibrates, checks
    and binds; how it ends depends on the assets and on the pose detector.
    Of one run of the body the [catch] clause sees whether it completed,
    failed in the ground check (after that check has rewritten [hints]),
    or failed elsewhere, and the variables [circle] and [circleHead] as
    the body left them.  [circle] is set at the end of the placement
    stage and [circleHead] at the end of the direction stage, both under
    [stage < 1]; the ground check comes after both and throws ErrorID 3
    after it has read [circle.position.y], so both are set when it
    fails.  The services of the page that the clause calls
    ([viewer.dispose], [scene.remove], [document.getElementById], the
    download of [saveError]) are taken to return. *)

Module Preprocess.
Import Calibration.

Inductive Attempt :=
| Completed                               (* the body returns its record *)
| GroundCheckFailed (hintsKneeHeight : float)  (* the knees are below the floor, ErrorID 3 *)
| Failed (circle circleHead : bool).      (* any other exception; whether [circle] and
                                             [circleHead] are set when it is thrown *)

(** What the caller gets: the record of a completed run, [{ error }], or
    the exception that the [catch] clause itself throws (the promise is
    rejected). *)
Inductive Outcome := ResultRecord | ErrorRecord | Rejected (e : Js.error).

(** What the [catch] clause does besides returning. *)
Inductive Event :=
| Retry (hints : option Hints)   (* preprocess (..., hints) is called again *)
| SaveError.                     (* saveError writes the diagnostic record *)

(** The ground check: on its failure [hints] is cleared when there was
    one ("no retry"), and otherwise set to the detected knee height. *)
Definition groundCheckHints (hints : option Hints) (hintsKneeHeight : float)
  : option Hints :=
  match hints with
  | Some _ => None
  | None => Some {| kneeHeight := Some hintsKneeHeight; retry := None |}
  end.

(** The head of the [catch] clause: [hints.retry] is set to 1 when it is
    missing or zero and incremented otherwise. *)
Definition countRetry (hints : option Hints) : option Hints :=
  match hints with
  | Some h =>
      Some {| kneeHeight := kneeHeight h;
              retry := match retry h with
                       | Some n => if (n =? 0)%Z then Some 1%Z else Some (n + 1)%Z
                       | None => Some 1%Z
                       end |}
  | None => None
  end.

(** [hints && hints.retry <= 1] *)
Definition mayRetry (hints : option Hints) : bool :=
  match hints with
  | Some h => match retry h with
              | Some n => (n <=? 1)%Z
              | None => false
              end
  | None => false
  end.

(** The clean-up before a retry:
    [if (circle) { ...; circleHead.geometry.dispose (); ... }] reads a
    property of [circleHead], which is [undefined] until the direction
    stage has set it. *)
Definition disposeCircles (circle circleHead : bool) : Js.result unit :=
  if (circle && negb circleHead) then Js.Throw Js.TypeError else Js.Ok tt.

(** The variables [circle] and [circleHead] when the body has thrown. *)
Definition circlesAt (failure : Attempt) : bool * bool :=
  match failure with
  | Failed circle circleHead => (circle, circleHead)
  | _ => (true, true)
  end.

(** [preprocess (..., hints)]: [world attempt hints] is what the body does
    at its [attempt]-th run under the given hints.  The recursion of the
    source is bounded by [fuel]; [None] is returned when it runs out. *)
Fixpoint preprocess (fuel : nat) (world : nat → option Hints → Attempt)
    (attempt : nat) (hints : option Hints) : option (Outcome * list Event) :=
  match fuel with
  | 0 => None
  | S fuel =>
      match world attempt hints with
      | Completed => Some (ResultRecord, [])
      | failure =>
          let thrown :=
            match failure with
            | GroundCheckFailed knee => groundCheckHints hints knee
            | _ => hints
            end in
          let counted := countRetry thrown in
          if mayRetry counted then
            match disposeCircles (circlesAt failure).1 (circlesAt failure).2 with
            | Js.Throw e => Some (Rejected e, [])
            | Js.Ok _ =>
                match preprocess fuel world (S attempt) counted with
                | Some (outcome, events) => Some (outcome, Retry counted :: events)
                | None => None
                end
            end
          else Some (ErrorRecord, [SaveError])
      end
  end.

(** The value of the counter, a missing one counting as zero. *)
Definition retryCount (hints : option Hints) : Z :=
  default 0%Z (hints ≫= retry).

Definition isRetry (event : Event) : bool :=
  match event with
  | Retry _ => true
  | SaveError => false
  end.

(** A run in which the ground check never passes. *)
Definition sinkingWorld : nat → option Hints → Attempt :=
  λ _ _, GroundCheckFailed 0.4%float.

(** A run that cannot find the facing direction (ErrorID 2): it fails
    after the placement stage has set [circle] and before the direction
    stage sets [circleHead]. *)
Definition facelessWorld : nat → option Hints → Attempt :=
  λ _ _, Failed true false.

(** The second run of a call, entered with the hints [counted] of the
    retry: it completes, or its failure is final. *)
Definition secondRun (world : nat → option Hints → Attempt) (counted : option Hints)
    (outcome : Outcome) (events : list Event) : Prop :=
  match world 1 counted with
  | Completed => outcome = ResultRecord ∧ events = [Retry counted]
  | _ => outcome = ErrorRecord ∧ events = [Retry counted; SaveError]
  end.

End Preprocess.


(** *** The deformer: the arithmetic of the vertex shader of
    [gsCustomizeMaterial]

    The shader runs on the GPU in single precision; its formulas are read
    here over the real numbers, which is the reading under which a pose is
    reproduced "within floating tolerance".  Vectors and matrices are
    GLSL's: a matrix is the tuple of its columns, [m[i][j]] is component
    [j] of column [i], and the constructor [mat3 (a, b, c, ...)] fills the
    columns one after the other. *)

Module Shader.
Local Open Scope R_scope.

Record vec3 := V3 { x : R; y : R; z : R }.
Record vec4 := V4 { x4 : R; y4 : R; z4 : R; w4 : R }.
Record mat3 := M3 { col0 : vec3; col1 : vec3; col2 : vec3 }.
Record mat4 := M4 { c0 : vec4; c1 : vec4; c2 : vec4; c3 : vec4 }.

Definition add3 (a b : vec3) : vec3 := V3 (x a + x b) (y a + y b) (z a + z b).
Definition sub3 (a b : vec3) : vec3 := V3 (x a - x b) (y a - y b) (z a - z b).

(** [vec4 (v, w)] and [v.xyz] *)
Definition extend (v : vec3) (w : R) : vec4 := V4 (x v) (y v) (z v) w.
Definition xyz (v : vec4) : vec3 := V3 (x4 v) (y4 v) (z4 v).

(** [m * v] and [a * b] for [mat4] *)
Definition mulv (m : mat4) (v : vec4) : vec4 :=
  V4 (x4 (c0 m) * x4 v + x4 (c1 m) * y4 v + x4 (c2 m) * z4 v + x4 (c3 m) * w4 v)
     (y4 (c0 m) * x4 v + y4 (c1 m) * y4 v + y4 (c2 m) * z4 v + y4 (c3 m) * w4 v)
     (z4 (c0 m) * x4 v + z4 (c1 m) * y4 v + z4 (c2 m) * z4 v + z4 (c3 m) * w4 v)
     (w4 (c0 m) * x4 v + w4 (c1 m) * y4 v + w4 (c2 m) * z4 v + w4 (c3 m) * w4 v).

Definition mul (a b : mat4) : mat4 :=
  M4 (mulv a (c0 b)) (mulv a (c1 b)) (mulv a (c2 b)) (mulv a (c3 b)).

Definition identity : mat4 :=
  M4 (V4 1 0 0 0) (V4 0 1 0 0) (V4 0 0 1 0) (V4 0 0 0 1).

(** [m * v], [a * b] and [transpose (m)] for [mat3] *)
Definition mulv3 (m : mat3) (v : vec3) : vec3 :=
  V3 (x (col0 m) * x v + x (col1 m) * y v + x (col2 m) * z v)
     (y (col0 m) * x v + y (col1 m) * y v + y (col2 m) * z v)
     (z (col0 m) * x v + z (col1 m) * y v + z (col2 m) * z v).

Definition mul3 (a b : mat3) : mat3 :=
  M3 (mulv3 a (col0 b)) (mulv3 a (col1 b)) (mulv3 a (col2 b)).

Definition transpose (m : mat3) : mat3 :=
  M3 (V3 (x (col0 m)) (x (col1 m)) (x (col2 m)))
     (V3 (y (col0 m)) (y (col1 m)) (y (col2 m)))
     (V3 (z (col0 m)) (z (col1 m)) (z (col2 m))).

Definition identity3 : mat3 := M3 (V3 1 0 0) (V3 0 1 0) (V3 0 0 1).

(** [mat3 (m)] for a [mat4]: the upper left block. *)
Definition mat3of (m : mat4) : mat3 := M3 (xyz (c0 m)) (xyz (c1 m)) (xyz (c2 m)).

(** GLSL's built-in [inverse]: the transposed cofactors over the
    determinant.  [cofactorRC] is the cofactor of row R and column C. *)
Definition cofactor00 (m : mat4) : R :=
  (y4 (c1 m) * (z4 (c2 m) * w4 (c3 m) - z4 (c3 m) * w4 (c2 m))
       - y4 (c2 m) * (z4 (c1 m) * w4 (c3 m) - z4 (c3 m) * w4 (c1 m))
       + y4 (c3 m) * (z4 (c1 m) * w4 (c2 m) - z4 (c2 m) * w4 (c1 m))).
Definition cofactor01 (m : mat4) : R :=
  - (y4 (c0 m) * (z4 (c2 m) * w4 (c3 m) - z4 (c3 m) * w4 (c2 m))
       - y4 (c2 m) * (z4 (c0 m) * w4 (c3 m) - z4 (c3 m) * w4 (c0 m))
       + y4 (c3 m) * (z4 (c0 m) * w4 (c2 m) - z4 (c2 m) * w4 (c0 m))).
Definition cofactor02 (m : mat4) : R :=
  (y4 (c0 m) * (z4 (c1 m) * w4 (c3 m) - z4 (c3 m) * w4 (c1 m))
       - y4 (c1 m) * (z4 (c0 m) * w4 (c3 m) - z4 (c3 m) * w4 (c0 m))
       + y4 (c3 m) * (z4 (c0 m) * w4 (c1 m) - z4 (c1 m) * w4 (c0 m))).
Definition cofactor03 (m : mat4) : R :=
  - (y4 (c0 m) * (z4 (c1 m) * w4 (c2 m) - z4 (c2 m) * w4 (c1 m))
       - y4 (c1 m) * (z4 (c0 m) * w4 (c2 m) - z4 (c2 m) * w4 (c0 m))
       + y4 (c2 m) * (z4 (c0 m) * w4 (c1 m) - z4 (c1 m) * w4 (c0 m))).
Definition cofactor10 (m : mat4) : R :=
  - (x4 (c1 m) * (z4 (c2 m) * w4 (c3 m) - z4 (c3 m) * w4 (c2 m))
       - x4 (c2 m) * (z4 (c1 m) * w4 (c3 m) - z4 (c3 m) * w4 (c1 m))
       + x4 (c3 m) * (z4 (c1 m) * w4 (c2 m) - z4 (c2 m) * w4 (c1 m))).
Definition cofactor11 (m : mat4) : R :=
  (x4 (c0 m) * (z4 (c2 m) * w4 (c3 m) - z4 (c3 m) * w4 (c2 m))
       - x4 (c2 m) * (z4 (c0 m) * w4 (c3 m) - z4 (c3 m) * w4 (c0 m))
       + x4 (c3 m) * (z4 (c0 m) * w4 (c2 m) - z4 (c2 m) * w4 (c0 m))).
Definition cofactor12 (m : mat4) : R :=
  - (x4 (c0 m) * (z4 (c1 m) * w4 (c3 m) - z4 (c3 m) * w4 (c1 m))
       - x4 (c1 m) * (z4 (c0 m) * w4 (c3 m) - z4 (c3 m) * w4 (c0 m))
       + x4 (c3 m) * (z4 (c0 m) * w4 (c1 m) - z4 (c1 m) * w4 (c0 m))).
Definition cofactor13 (m : mat4) : R :=
  (x4 (c0 m) * (z4 (c1 m) * w4 (c2 m) - z4 (c2 m) * w4 (c1 m))
       - x4 (c1 m) * (z4 (c0 m) * w4 (c2 m) - z4 (c2 m) * w4 (c0 m))
       + x4 (c2 m) * (z4 (c0 m) * w4 (c1 m) - z4 (c1 m) * w4 (c0 m))).
Definition cofactor20 (m : mat4) : R :=
  (x4 (c1 m) * (y4 (c2 m) * w4 (c3 m) - y4 (c3 m) * w4 (c2 m))
       - x4 (c2 m) * (y4 (c1 m) * w4 (c3 m) - y4 (c3 m) * w4 (c1 m))
       + x4 (c3 m) * (y4 (c1 m) * w4 (c2 m) - y4 (c2 m) * w4 (c1 m))).
Definition cofactor21 (m : mat4) : R :=
  - (x4 (c0 m) * (y4 (c2 m) * w4 (c3 m) - y4 (c3 m) * w4 (c2 m))
       - x4 (c2 m) * (y4 (c0 m) * w4 (c3 m) - y4 (c3 m) * w4 (c0 m))
       + x4 (c3 m) * (y4 (c0 m) * w4 (c2 m) - y4 (c2 m) * w4 (c0 m))).
Definition cofactor22 (m : mat4) : R :=
  (x4 (c0 m) * (y4 (c1 m) * w4 (c3 m) - y4 (c3 m) * w4 (c1 m))
       - x4 (c1 m) * (y4 (c0 m) * w4 (c3 m) - y4 (c3 m) * w4 (c0 m))
       + x4 (c3 m) * (y4 (c0 m) * w4 (c1 m) - y4 (c1 m) * w4 (c0 m))).
Definition cofactor23 (m : mat4) : R :=
  - (x4 (c0 m) * (y4 (c1 m) * w4 (c2 m) - y4 (c2 m) * w4 (c1 m))
       - x4 (c1 m) * (y4 (c0 m) * w4 (c2 m) - y4 (c2 m) * w4 (c0 m))
       + x4 (c2 m) * (y4 (c0 m) * w4 (c1 m) - y4 (c1 m) * w4 (c0 m))).
Definition cofactor30 (m : mat4) : R :=
  - (x4 (c1 m) * (y4 (c2 m) * z4 (c3 m) - y4 (c3 m) * z4 (c2 m))
       - x4 (c2 m) * (y4 (c1 m) * z4 (c3 m) - y4 (c3 m) * z4 (c1 m))
       + x4 (c3 m) * (y4 (c1 m) * z4 (c2 m) - y4 (c2 m) * z4 (c1 m))).
Definition cofactor31 (m : mat4) : R :=
  (x4 (c0 m) * (y4 (c2 m) * z4 (c3 m) - y4 (c3 m) * z4 (c2 m))
       - x4 (c2 m) * (y4 (c0 m) * z4 (c3 m) - y4 (c3 m) * z4 (c0 m))
       + x4 (c3 m) * (y4 (c0 m) * z4 (c2 m) - y4 (c2 m) * z4 (c0 m))).
Definition cofactor32 (m : mat4) : R :=
  - (x4 (c0 m) * (y4 (c1 m) * z4 (c3 m) - y4 (c3 m) * z4 (c1 m))
       - x4 (c1 m) * (y4 (c0 m) * z4 (c3 m) - y4 (c3 m) * z4 (c0 m))
       + x4 (c3 m) * (y4 (c0 m) * z4 (c1 m) - y4 (c1 m) * z4 (c0 m))).
Definition cofactor33 (m : mat4) : R :=
  (x4 (c0 m) * (y4 (c1 m) * z4 (c2 m) - y4 (c2 m) * z4 (c1 m))
       - x4 (c1 m) * (y4 (c0 m) * z4 (c2 m) - y4 (c2 m) * z4 (c0 m))
       + x4 (c2 m) * (y4 (c0 m) * z4 (c1 m) - y4 (c1 m) * z4 (c0 m))).

Definition determinant (m : mat4) : R :=
  x4 (c0 m) * cofactor00 m + x4 (c1 m) * cofactor01 m
  + x4 (c2 m) * cofactor02 m + x4 (c3 m) * cofactor03 m.

Definition inverse (m : mat4) : mat4 :=
  let d := determinant m in
  M4 (V4 (cofactor00 m / d) (cofactor01 m / d) (cofactor02 m / d) (cofactor03 m / d))
     (V4 (cofactor10 m / d) (cofactor11 m / d) (cofactor12 m / d) (cofactor13 m / d))
     (V4 (cofactor20 m / d) (cofactor21 m / d) (cofactor22 m / d) (cofactor23 m / d))
     (V4 (cofactor30 m / d) (cofactor31 m / d) (cofactor32 m / d) (cofactor33 m / d)).

(** [a > b] *)
Definition gt (a b : R) : bool := if Rgt_dec a b then true else false.

(** [quatFromMat3], branch by branch as written. *)
Definition quatFromMat3 (m : mat3) : vec4 :=
  let trace := x (col0 m) + y (col1 m) + z (col2 m) in
  if gt trace 0 then
    let s := 0.5 / sqrt (trace + 1) in
    V4 ((y (col2 m) - z (col1 m)) * s)
       ((z (col0 m) - x (col2 m)) * s)
       ((x (col1 m) - y (col0 m)) * s)
       (0.25 / s)
  else if gt (x (col0 m)) (y (col1 m)) && gt (x (col0 m)) (z (col2 m)) then
    let s := 2 * sqrt (1 + x (col0 m) - y (col1 m) - z (col2 m)) in
    V4 (0.25 * s)
       ((y (col0 m) + x (col1 m)) / s)
       ((z (col0 m) + x (col2 m)) / s)
       ((y (col2 m) - z (col1 m)) / s)
  else if gt (y (col1 m)) (z (col2 m)) then
    let s := 2 * sqrt (1 + y (col1 m) - x (col0 m) - z (col2 m)) in
    V4 ((y (col0 m) + x (col1 m)) / s)
       (0.25 * s)
       ((z (col1 m) + y (col2 m)) / s)
       ((z (col0 m) - x (col2 m)) / s)
  else
    let s := 2 * sqrt (1 + z (col2 m) - x (col0 m) - y (col1 m)) in
    V4 ((z (col0 m) + x (col2 m)) / s)
       ((z (col1 m) + y (col2 m)) / s)
       (0.25 * s)
       ((x (col1 m) - y (col0 m)) / s).

(** [mat3FromQuat] *)
Definition mat3FromQuat (q : vec4) : mat3 :=
  let x2 := x4 q + x4 q in
  let y2 := y4 q + y4 q in
  let z2 := z4 q + z4 q in
  let xx := x4 q * x2 in
  let xy := x4 q * y2 in
  let xz := x4 q * z2 in
  let yy := y4 q * y2 in
  let yz := y4 q * z2 in
  let zz := z4 q * z2 in
  let wx := w4 q * x2 in
  let wy := w4 q * y2 in
  let wz := w4 q * z2 in
  M3 (V3 (1 - (yy + zz)) (xy - wz) (xz + wy))
     (V3 (xy + wz) (1 - (xx + zz)) (yz - wx))
     (V3 (xz - wy) (yz + wx) (1 - (xx + yy))).

(** [skinMatrix0], blended from the bone matrices of the binding pose. *)
Definition skinMatrix0 (bindMatrix0 bindMatrixInverse0 : mat4)
    (boneMatX0 boneMatY0 boneMatZ0 boneMatW0 : mat4) (skinWeight : vec4) : mat4 :=
  let scale (k : R) (m : mat4) : mat4 :=
    M4 (V4 (k * x4 (c0 m)) (k * y4 (c0 m)) (k * z4 (c0 m)) (k * w4 (c0 m)))
       (V4 (k * x4 (c1 m)) (k * y4 (c1 m)) (k * z4 (c1 m)) (k * w4 (c1 m)))
       (V4 (k * x4 (c2 m)) (k * y4 (c2 m)) (k * z4 (c2 m)) (k * w4 (c2 m)))
       (V4 (k * x4 (c3 m)) (k * y4 (c3 m)) (k * z4 (c3 m)) (k * w4 (c3 m))) in
  let plus (a b : mat4) : mat4 :=
    let plus4 (u v : vec4) := V4 (x4 u + x4 v) (y4 u + y4 v) (z4 u + z4 v) (w4 u + w4 v) in
    M4 (plus4 (c0 a) (c0 b)) (plus4 (c1 a) (c1 b)) (plus4 (c2 a) (c2 b))
       (plus4 (c3 a) (c3 b)) in
  let zero := M4 (V4 0 0 0 0) (V4 0 0 0 0) (V4 0 0 0 0) (V4 0 0 0 0) in
  let blended :=
    plus (plus (plus (plus zero (scale (x4 skinWeight) boneMatX0))
                     (scale (y4 skinWeight) boneMatY0))
               (scale (z4 skinWeight) boneMatZ0))
         (scale (w4 skinWeight) boneMatW0) in
  mul (mul bindMatrixInverse0 blended) bindMatrix0.

(** [skinnedRelativePos]: the stored offset under the change of the skin
    matrix since binding.  [skinMatrix] is the skin matrix of the current
    pose, computed by three.js's skinning chunk. *)
Definition skinnedRelativePos (skinMatrix skinMatrix0 : mat4) (relativePos : vec3)
  : vec3 :=
  xyz (mulv (mul skinMatrix (inverse skinMatrix0)) (extend relativePos 0)).

(** [splatCenter]; [transformed] is the posed position of the bound
    vertex, computed by the same chunk. *)
Definition splatCenter (meshMatrixWorld : mat4) (transformed : vec3)
    (skinMatrix skinMatrix0 : mat4) (relativePos : vec3) : vec3 :=
  xyz (mulv meshMatrixWorld
         (extend (add3 transformed
                    (skinnedRelativePos skinMatrix skinMatrix0 relativePos)) 1)).

(** The rotation applied to the covariance, "via quat": the relative
    rotation goes through a quaternion whose [y] is negated. *)
Definition covarianceRotation (gsMatrix0 skinMatrix skinMatrix0 : mat4) : mat3 :=
  let gsRotation0 := mat3of gsMatrix0 in
  let skinRotationMatrix := mat3of (mul skinMatrix (inverse skinMatrix0)) in
  let relativeRotation :=
    mul3 (mul3 (transpose gsRotation0) skinRotationMatrix) gsRotation0 in
  let tempQuat := quatFromMat3 relativeRotation in
  let tempQuat := V4 (x4 tempQuat) (- y4 tempQuat) (z4 tempQuat) (w4 tempQuat) in
  mat3FromQuat tempQuat.

(** [rotatedVrk] *)
Definition rotatedVrk (gsMatrix0 skinMatrix skinMatrix0 : mat4) (Vrk : mat3) : mat3 :=
  let relativeRotation := covarianceRotation gsMatrix0 skinMatrix skinMatrix0 in
  mul3 (mul3 (transpose relativeRotation) Vrk) relativeRotation.

(** A covariance [V] turned by the rotation [r]. *)
Definition rotated (r V : mat3) : mat3 := mul3 (mul3 r V) (transpose r).

(** Quarter turns about the x axis and about the y axis, as skin
    matrices and as rotations. *)
Definition quarterX : mat4 := M4 (V4 1 0 0 0) (V4 0 0 1 0) (V4 0 (-1) 0 0) (V4 0 0 0 1).
Definition quarterY : mat4 := M4 (V4 0 0 (-1) 0) (V4 0 1 0 0) (V4 1 0 0 0) (V4 0 0 0 1).

(** A covariance elongated along the diagonal of the x-y plane. *)
Definition slanted : mat3 := M3 (V3 2 1 0) (V3 1 2 0) (V3 0 0 1).

End Shader.

(** A number that is not [NaN] and not negative (a zero of either sign
    counts). *)
Definition SFnonneg (a : spec_float) : Prop :=
  match a with
  | S754_nan => False
  | S754_infinity s | S754_finite s _ _ => s = false
  | S754_zero _ => True
  end.

(** *** The centroids of the feet and of the head: [calculateCentroidFeet],
    [calculateCentroidHead]

    The search circles that the functions draw are left out. *)

Module Centroids.
Import Calibration.

(** [calculateCentroidFeet (vertices, heights, centroid, distXZ)]: the
    mean [x] and [z] of the vertices inside the radius whose height is
    between 10% and 20% of the body height. *)
Definition calculateCentroidFeet (vertices : list Vertex) (heights : option Heights)
    (centroid : option Centroid) (distXZ : float) : Js.result Centroid :=
  let heights := default {| min := 0; max := 0 |} heights in
  let centroid := default {| cx := 0; cz := 0 |} centroid in
  let ymin := ((max heights - min heights) * 0.1 + min heights)%float in
  let ymax := ((max heights - min heights) * 0.2 + min heights)%float in
  let vertices_ :=
    List.filter (λ vertex, (distanceXZ centroid vertex <? distXZ)%float &&
                           (ymin <? - y vertex)%float && (- y vertex <? ymax)%float)
                vertices in
  if bool_decide (length vertices_ = 0) then Js.Throw Js.ErrorID5
  else
    let sumX := foldl (λ sum vertex, (sum + x vertex)%float) 0%float vertices_ in
    let sumZ := foldl (λ sum vertex, (sum + z vertex)%float) 0%float vertices_ in
    Js.Ok {| cx := (sumX / size vertices_)%float; cz := (sumZ / size vertices_)%float |}.

(** [calculateCentroidHead]: the same between 90% and 100% of the body
    height. *)
Definition calculateCentroidHead (vertices : list Vertex) (heights : option Heights)
    (centroid : option Centroid) (distXZ : float) : Js.result Centroid :=
  let heights := default {| min := 0; max := 0 |} heights in
  let centroid := default {| cx := 0; cz := 0 |} centroid in
  let ymin := ((max heights - min heights) * 0.9 + min heights)%float in
  let ymax := ((max heights - min heights) * 1.0 + min heights)%float in
  let vertices_ :=
    List.filter (λ vertex, (distanceXZ centroid vertex <? distXZ)%float &&
                           (ymin <? - y vertex)%float && (- y vertex <? ymax)%float)
                vertices in
  if bool_decide (length vertices_ = 0) then Js.Throw Js.ErrorID5
  else
    let sumX := foldl (λ sum vertex, (sum + x vertex)%float) 0%float vertices_ in
    let sumZ := foldl (λ sum vertex, (sum + z vertex)%float) 0%float vertices_ in
    Js.Ok {| cx := (sumX / size vertices_)%float; cz := (sumZ / size vertices_)%float |}.

End Centroids.


(** *** The point cloud file: [createNewHeader], [createPLYFile]

    A header line read by [parsePLY] is built with
    [String.fromCharCode (byte)], one character per byte of the file, so
    a line is a string of 8-bit characters. *)

Module Ply.
Import Calibration.

(** ['\n'] *)
Definition newline : string := String (Ascii.ascii_of_nat 10) EmptyString.

(** [createNewHeader (originalHeader, vertexCount)] of [cleanSplats]: the
    line that declares the number of vertices is rewritten. *)
Definition createNewHeader (originalHeader : list string) (vertexCount : nat)
  : list string :=
  map (λ line, if String.prefix "element vertex"%string line
               then ("element vertex " +:+ pretty vertexCount)%string
               else line)
      originalHeader.

(** [createModifiedHeader (vertexCount)] of [splitPLY], over the header
    of the parsed file. *)
Definition createModifiedHeader (header : list string) (vertexCount : nat)
  : list string :=
  map (λ line, if String.prefix "element vertex"%string line
               then ("element vertex " +:+ pretty vertexCount)%string
               else line)
      header.

(** [new TextEncoder ().encode (s)] for a string of 8-bit characters:
    UTF-8, one byte below 128 and two bytes from 128 on. *)
Definition utf8 (c : Ascii.ascii) : list Byte.byte :=
  let n := Ascii.N_of_ascii c in
  if (n <? 128)%N then [Ascii.byte_of_ascii c]
  else [ default Byte.x00 (Byte.of_N (192 + n / 64));
         default Byte.x00 (Byte.of_N (128 + n mod 64)) ].

Definition encode (s : string) : list Byte.byte := String.list_ascii_of_string s ≫= utf8.

(** The result of writing into a typed array. *)
Inductive outcome (A : Type) :=
| Written (a : A)
| RangeError.
Arguments Written {A} a.
Arguments RangeError {A}.

(** [target.set (source, offset)]: the source must fit. *)
Definition set (target source : list Byte.byte) (offset : nat)
  : outcome (list Byte.byte) :=
  if (offset + length source <=? length target)%nat
  then Written (take offset target ++ source ++ drop (offset + length source) target)
  else RangeError.

(** [vertices.forEach ((vertex, index) =>
       verticesArray.set (vertex.rawData, index * vertexSize))],
    entered at [index]. *)
Fixpoint setVertices (verticesArray : list Byte.byte) (vertexSize index : nat)
    (vertices : list Vertex) : outcome (list Byte.byte) :=
  match vertices with
  | [] => Written verticesArray
  | vertex :: rest =>
      match set verticesArray (rawData vertex) (index * vertexSize) with
      | Written verticesArray => setVertices verticesArray vertexSize (S index) rest
      | RangeError => RangeError
      end
  end.

(** [createPLYFile (header, vertices, vertexSize)] *)
Definition createPLYFile (header : list string) (vertices : list Vertex)
    (vertexSize : nat) : outcome (list Byte.byte) :=
  let headerStr := String.concat newline header +:+ newline in
  let headerArray := encode headerStr in
  match setVertices (replicate (length vertices * vertexSize) Byte.x00)
                    vertexSize 0 vertices with
  | Written verticesArray => Written (headerArray ++ verticesArray)
  | RangeError => RangeError
  end.

End Ply.

(** *** The data textures of the deformer: [addChannels] *)

Module Textures.

Section Channels.
(** The conversion of a number stored in the target typed array
    ([Math.fround] for the [Float32Array]s of [gsCustomizeMaterial]). *)
Variable store : float → float.

(** [toArray[k] = value]: a write past the end of a typed array is
    ignored. *)
Definition write (toArray : list float) (k : nat) (value : float) : list float :=
  <[k := store value]> toArray.

(** [fromArray[k]] for an array of numbers: [undefined], stored as [NaN],
    outside the array. *)
Definition read (fromArray : list float) (k : Z) : float :=
  if (k <? 0)%Z then nan else default nan (fromArray !! Z.to_nat k).

(** The value written to channel [c] of texel [i]:
    [N > 3 - c ? 1.0 : fromArray[i * (4 - N) + c]]. *)
Definition channel (fromArray : list float) (N : Z) (i : nat) (c : nat) : float :=
  if (3 - Z.of_nat c <? N)%Z then 1%float
  else read fromArray (Z.of_nat i * (4 - N) + Z.of_nat c)%Z.

(** [addChannels (fromArray, toArray, count, N)] *)
Definition addChannels (fromArray toArray : list float) (count : nat) (N : Z)
  : list float :=
  foldl (λ toArray i,
           let toArray := write toArray (i * 4 + 0) (channel fromArray N i 0) in
           let toArray := write toArray (i * 4 + 1) (channel fromArray N i 1) in
           let toArray := write toArray (i * 4 + 2) (channel fromArray N i 2) in
           write toArray (i * 4 + 3) (channel fromArray N i 3))
        toArray (seq 0 count).
End Channels.

End Textures.


(** *** The clean-up at the end of [GVRM.load]

    The loop that hides the splats too far from their vertex.  A cell
    of the offsets read from [data.json] is a number or [null], and
    [undefined] where [updateExtraData] read past the end of the saved
    array; [colors] is a typed array, four entries per splat. *)

Module Cleanup.

Inductive Cell :=
| Number (p : float)
| Null
| Undefined.

(** [poses[k] ** 2]: [null] counts as 0, [undefined] gives [NaN]; a
    read past the end of the array is [undefined]. *)
Definition squared (splatRelativePoses : list Cell) (k : nat) : float :=
  match default Undefined (splatRelativePoses !! k) with
  | Number p => (p * p)%float
  | Null => 0%float
  | Undefined => nan
  end.

(** [Math.sqrt (poses[i * 3 + 0] ** 2 + poses[i * 3 + 1] ** 2 + poses[i * 3 + 2] ** 2)] *)
Definition distance (splatRelativePoses : list Cell) (i : nat) : float :=
  PrimFloat.sqrt (squared splatRelativePoses (i * 3 + 0)
                  + squared splatRelativePoses (i * 3 + 1)
                  + squared splatRelativePoses (i * 3 + 2))%float.

(** [gvrm.gs.colors[i * 4 + 3] = 0] *)
Definition hide (colors : list float) (i : nat) : list float :=
  <[i * 4 + 3 := 0%float]> colors.

(** The body of the loop. *)
Definition cleanupStep (splatBoneIndices : list (option Z))
    (splatRelativePoses : list Cell) (colors : list float) (i : nat) : list float :=
  let distance := distance splatRelativePoses i in
  let bone := Js.index splatBoneIndices i in
  if negb (bool_decide (bone = Some 57%Z)) && (0.2 <? distance)%float
  then hide colors i                                     (* exclude head *)
  else if bool_decide (bone = Some 21%Z) && (0.1 <? distance)%float
  then hide colors i                                     (* left foot *)
  else if bool_decide (bone = Some 19%Z) && (0.1 <? distance)%float
  then hide colors i                                     (* right foot *)
  else if bool_decide (bone = Some 57%Z) && (0.3 <? distance)%float
  then hide colors i                                     (* head *)
  else colors.

(** [for (let i = 0; i < gvrm.gs.splatCount; i++)] *)
Definition cleanup (splatCount : nat) (splatBoneIndices : list (option Z))
    (splatRelativePoses : list Cell) (colors : list float) : list float :=
  foldl (cleanupStep splatBoneIndices splatRelativePoses) colors (seq 0 splatCount).

(** The distance beyond which a splat of the given bone is hidden. *)
Definition reach (bone : option Z) : float :=
  if bool_decide (bone = Some 57%Z) then 0.3%float
  else if bool_decide (bone = Some 21%Z) || bool_decide (bone = Some 19%Z)
       then 0.1%float
       else 0.2%float.

End Cleanup.


(** *** The search for the facing direction: [findBestAngleInRange]

    The camera is moved around the body and the pose detector is run at
    every step; what the detector returns at step [i] is an input of the
    model.  [steps] is a whole number (the callers pass 12).  The camera,
    the renderer and the waits are left out. *)

Module Angles.

(** A keypoint of the detector: its [x]. *)
Record Keypoint := { kx : float }.

Definition Math_PI : float := 3.141592653589793%float.

(** The score of a step: the distance in [x] between the left and the
    right wrist, keypoints 15 and 16, [-Infinity] without them. *)
Definition scoreOf (keypoints : option (list (option Keypoint))) : float :=
  match keypoints with
  | Some keypoints =>
      if (0 <? length keypoints)%nat then
        match mjoin (keypoints !! 15%nat), mjoin (keypoints !! 16%nat) with
        | Some leftWrist, Some rightWrist => (kx leftWrist - kx rightWrist)%float
        | _, _ => neg_infinity
        end
      else neg_infinity
  | None => neg_infinity
  end.

Record Measurement := { angle : float; score : float; index : nat }.

(** [bestMeasurement]: [angle] is [null] until a step is taken. *)
Record Best := { bestAngle : option float; bestScore : float }.

(** The first loop: one measurement per step. *)
Definition measure (detect : nat → option (list (option Keypoint)))
    (startAngle endAngle : float) (steps : nat) : list Measurement :=
  let angleStep := ((endAngle - startAngle) / Js.number (Z.of_nat steps))%float in
  map (λ i, {| angle := (startAngle + angleStep * Js.number (Z.of_nat i))%float;
               score := scoreOf (detect i);
               index := i |})
      (seq 0 steps).

(** [(i + j) % steps], made positive. *)
Definition windowIndex (steps i : nat) (j : Z) : Z :=
  let index := Z.rem (Z.of_nat i + j) (Z.of_nat steps) in
  if (index <? 0)%Z then (index + Z.of_nat steps)%Z else index.

(** [measurements[index]] *)
Definition measurementAt (measurements : list Measurement) (index : Z) : option Measurement :=
  if (index <? 0)%Z then None else measurements !! Z.to_nat index.

(** The body of the loop of the full circle: the mean of the valid
    scores of the five measurements around step [i]; reading the score
    of a missing measurement throws. *)
Definition circleStep (measurements : list Measurement) (steps : nat)
    (bestMeasurement : Best) (i : nat) : Js.result Best :=
  let window := map (λ j, measurementAt measurements (windowIndex steps i j)) [-2; -1; 0; 1; 2]%Z in
  match mapM (λ m : option Measurement, score <$> m) window with
  | None => Js.Throw Js.TypeError
  | Some scores =>
      let validScores := List.filter (λ s, negb (s =? neg_infinity)%float) scores in
      if bool_decide (length validScores = 0%nat) then Js.Ok bestMeasurement
      else
        let avgScore :=
          (foldl (λ sum s, sum + s) 0 validScores
           / Js.number (Z.of_nat (length validScores)))%float in
        if (bestScore bestMeasurement <? avgScore)%float
        then match measurements !! i with
             | Some m => Js.Ok {| bestAngle := Some (angle m); bestScore := avgScore |}
             | None => Js.Throw Js.TypeError
             end
        else Js.Ok bestMeasurement
  end.

(** The body of the [reduce] of the other ranges. *)
Definition rangeStep (best : Best) (current : Measurement) : Best :=
  if (bestScore best <? score current)%float
  then {| bestAngle := Some (angle current); bestScore := score current |}
  else best.

(** [findBestAngleInRange (..., startAngle, endAngle, steps, radius)] *)
Definition findBestAngleInRange (detect : nat → option (list (option Keypoint)))
    (startAngle endAngle : float) (steps : nat) : Js.result Best :=
  let measurements := measure detect startAngle endAngle steps in
  let isFullCircle := (abs (endAngle - startAngle - 2 * Math_PI) <? 0.01)%float in
  let initial := {| bestAngle := None; bestScore := neg_infinity |} in
  if isFullCircle
  then Js.foldM (circleStep measurements steps) initial (seq 0 steps)
  else Js.Ok (foldl rangeStep initial measurements).

(** What a search can end on: nothing, or the angle of one of its steps. *)
Definition oneOfTheSteps (startAngle endAngle : float) (steps : nat) (best : Best) : Prop :=
  (bestAngle best = None ∧ bestScore best = neg_infinity) ∨
  ∃ i, i < steps ∧
    bestAngle best =
      Some (startAngle + (endAngle - startAngle) / Js.number (Z.of_nat steps)
                         * Js.number (Z.of_nat i))%float.

(** A detector for the examples: the wrists are found at step 1 only,
    0.4 apart. *)
Definition wristsApart (i : nat) : option (list (option Keypoint)) :=
  if (i =? 1)%nat
  then Some (replicate 15 None ++ [Some {| kx := 0.7 |}; Some {| kx := 0.3 |}])
  else None.

End Angles.


(** *** The capsules of the skeleton: [_traverseNodes] of
    [getPointsMeshCapsules]

    A node of the scene graph is read through what the traversal uses:
    its name, its [isBone] flag, the translation of its [matrixWorld]
    and its children; [id] stands for the identity of the object, which
    is what [skeleton.bones.indexOf] compares.  Of a capsule the model
    keeps what the function hands to three.js: the palette colour that is
    packed into the material colour, the radius and the length of the
    geometry, the scale and the position.  The rotation of the capsule
    ([setFromUnitVectors]) and [nodeCount], which counts for a log line
    that is commented out, are left out. *)

Module Capsules.
Import THREE.

#[local] Unset Elimination Schemes.
Inductive Node :=
| MkNode (name : string) (isBone : bool) (id : nat) (position : Vector3)
         (children : list Node).
#[local] Set Elimination Schemes.

Definition name (node : Node) : string :=
  match node with MkNode name _ _ _ _ => name end.
Definition isBone (node : Node) : bool :=
  match node with MkNode _ isBone _ _ _ => isBone end.
Definition id (node : Node) : nat :=
  match node with MkNode _ _ id _ _ => id end.
Definition position (node : Node) : Vector3 :=
  match node with MkNode _ _ _ position _ => position end.
Definition children (node : Node) : list Node :=
  match node with MkNode _ _ _ _ children => children end.

Record BoneConfig := {
  names : list string;
  radius : float;
  scaleX : float;
  scaleZ : float
}.

(** [Object.values (BONE_CONFIG)]: arm, leg, torso, headTop, head. *)
Definition BONE_CONFIG : list BoneConfig :=
  [ {| names := ["J_Bip_L_Hand"; "J_Bip_L_LowerArm"; "J_Bip_R_Hand"; "J_Bip_R_LowerArm"];
       radius := 0.06; scaleX := 1.0; scaleZ := 1.0 |};
    {| names := ["J_Bip_L_LowerLeg"; "J_Bip_L_Foot"; "J_Bip_R_LowerLeg"; "J_Bip_R_Foot"];
       radius := 0.08; scaleX := 1.0; scaleZ := 1.0 |};
    {| names := ["J_Bip_C_Neck"; "J_Bip_C_Spine"; "J_Bip_C_Chest"; "J_Bip_C_UpperChest"];
       radius := 0.03; scaleX := 6.0; scaleZ := 4.0 |};
    {| names := ["J_Bip_C_HeadTop_End"];
       radius := 0.06; scaleX := 1.5; scaleZ := 2.0 |};
    {| names := ["J_Bip_C_Head"];
       radius := 0.03; scaleX := 2.0; scaleZ := 2.0 |} ]%string%float.

(** The search for the matching bone config: the first type whose names
    include the name, [null] without one. *)
Definition boneConfigOf (name : string) : option BoneConfig :=
  List.find (λ configType, bool_decide (name ∈ names configType)) BONE_CONFIG.

Record Capsule := {
  color : float * float * float;
  geometryRadius : float;
  geometryLength : float;
  scale : float * float * float;
  capsulePosition : Vector3
}.

(** What the traversal builds: [capsules.children] and
    [capsuleBoneIndex]. *)
Record Built := {
  capsules : list Capsule;
  capsuleBoneIndex : list Z
}.

(** [bones.indexOf (node)], -1 for a node that is not a bone of the
    skeleton. *)
Definition indexOf (bones : list nat) (node : Node) : Z :=
  match list_find (λ bone, bone = id node) bones with
  | Some (i, _) => Z.of_nat i
  | None => (-1)%Z
  end.

(** [new THREE.Vector3().addVectors (a, b).multiplyScalar (0.5)] *)
Definition midPoint (a b : Vector3) : Vector3 :=
  V3 ((x a + x b) * 0.5) ((y a + y b) * 0.5) ((z a + z b) * 0.5).

(** The capsule from [node] to [childNode] with the palette colour
    [rgb]. *)
Definition capsuleFor (boneConfig : BoneConfig) (rgb : float * float * float)
    (node childNode : Node) : Capsule :=
  let distance := distanceTo (position node) (position childNode) in
  {| color := rgb;
     geometryRadius := radius boneConfig;
     geometryLength := (distance - radius boneConfig * 2)%float;
     scale := (scaleX boneConfig, 1%float, scaleZ boneConfig);
     capsulePosition := midPoint (position node) (position childNode) |}.

(** The branch [if (boneConfig)]: the capsule is added with the next
    palette colour.  Destructuring the palette entry throws when the
    palette is used up. *)
Definition pushCapsule (bones : list nat) (built : Built)
    (entry : BoneConfig * (Node * Node)) : Js.result Built :=
  let '(boneConfig, (node, childNode)) := entry in
  match GVRMUtils.colors !! length (capsules built) with
  | Some rgb =>
      Js.Ok {| capsules := capsules built ++ [capsuleFor boneConfig rgb node childNode];
               capsuleBoneIndex := capsuleBoneIndex built ++ [indexOf bones childNode] |}
  | None => Js.Throw Js.TypeError
  end.

(** The part of the body of [forEach] before the recursive call: a
    capsule for a child whose name is configured. *)
Definition addCapsule (bones : list nat) (node childNode : Node) (built : Built)
  : Js.result Built :=
  match boneConfigOf (name childNode) with
  | Some boneConfig => pushCapsule bones built (boneConfig, (node, childNode))
  | None => Js.Ok built
  end.

(** [_traverseNodes (node)] *)
Fixpoint _traverseNodes (bones : list nat) (node : Node) (built : Built)
  : Js.result Built :=
  match node with
  | MkNode _ _ _ _ children =>
      (fix forEach (children : list Node) (built : Built) {struct children}
         : Js.result Built :=
         match children with
         | [] => Js.Ok built
         | childNode :: rest =>
             if isBone childNode
             then Js.bind (addCapsule bones node childNode built) (λ built,
                  Js.bind (_traverseNodes bones childNode built) (forEach rest))
             else forEach rest built
         end) children built
  end.

(** The end of [getPointsMeshCapsules]: the traversal from [rootNode],
    which is skipped without one. *)
Definition traverseFrom (bones : list nat) (rootNode : option Node) : Js.result Built :=
  let built := {| capsules := []; capsuleBoneIndex := [] |} in
  match rootNode with
  | Some rootNode => _traverseNodes bones rootNode built
  | None => Js.Ok built
  end.

(** The pairs of a node and a bone child of it that the traversal comes
    by, in its order: a child that is not a bone is passed over with
    everything below it. *)
Fixpoint boneEdges (node : Node) : list (Node * Node) :=
  match node with
  | MkNode _ _ _ _ children =>
      flat_map (λ childNode,
                  if isBone childNode then (node, childNode) :: boneEdges childNode
                  else [])
               children
  end.

(** Those of them whose child has a configured name, with the config. *)
Definition configured (edges : list (Node * Node)) : list (BoneConfig * (Node * Node)) :=
  omap (λ edge, (λ boneConfig, (boneConfig, edge)) <$> boneConfigOf (name edge.2)) edges.

(** The configured pairs below [rootNode]. *)
Definition configuredFrom (rootNode : option Node) : list (BoneConfig * (Node * Node)) :=
  match rootNode with
  | Some rootNode => configured (boneEdges rootNode)
  | None => []
  end.

(** A chain of [n] bones named [boneName], one below the other. *)
Fixpoint chain (boneName : string) (n : nat) : list Node :=
  match n with
  | 0 => []
  | S n => [MkNode boneName true n (V3 0 (Js.number (Z.of_nat n)) 0) (chain boneName n)]
  end.

End Capsules.


(** *** The pose: [applyBoneOperations]

    The humanoid of the VRM is read through its two getters,
    [getRawBoneNode] and [getNormalizedBoneNode], which return a bone
    node of the scene, or nothing for a name without a bone.  A node is
    an object: the model keeps the nodes in a store, by identity, and
    the getters return identities, so that a write through one getter is
    seen through the other when both return the same node.  A rig may
    give a bone a raw and a normalized node; [VRMLoaderNode] returns the
    same node from both getters.  Of a node the model keeps the
    position, the Euler angles and the scale. *)

Module Pose.
Import THREE.

Record Bone := {
  position : Vector3;
  rotation : Vector3;
  scale : Vector3
}.

Record Humanoid := {
  node : nat → Bone;
  getRawBoneNode : string → option nat;
  getNormalizedBoneNode : string → option nat
}.

(** A write to a field of the node [i]. *)
Definition setNode (vrm : Humanoid) (i : nat) (bone : Bone) : Humanoid :=
  {| node := λ j, if decide (j = i) then bone else node vrm j;
     getRawBoneNode := getRawBoneNode vrm;
     getNormalizedBoneNode := getNormalizedBoneNode vrm |}.

(** An entry of [boneOperations]; each of [position], [rotation] and
    [scale] may be missing. *)
Record BoneOperation := {
  boneName : string;
  opPosition : option Vector3;
  opRotation : option Vector3;
  opScale : option Vector3
}.

(** [degrees * Math.PI / 180.0] *)
Definition radians (degrees : float) : float :=
  (degrees * Angles.Math_PI / 180.0)%float.

(** [rawBone.position.x += op.position.x] and so on: reading the
    position of a missing node throws. *)
Definition movePosition (vrm : Humanoid) (op : BoneOperation) : Js.result Humanoid :=
  match opPosition op with
  | Some p =>
      match getRawBoneNode vrm (boneName op) with
      | Some rawBone =>
          Js.Ok (setNode vrm rawBone
                   {| position := V3 (x (position (node vrm rawBone)) + x p)
                                     (y (position (node vrm rawBone)) + y p)
                                     (z (position (node vrm rawBone)) + z p);
                      rotation := rotation (node vrm rawBone);
                      scale := scale (node vrm rawBone) |})
      | None => Js.Throw Js.TypeError
      end
  | None => Js.Ok vrm
  end.

(** [normBone.rotation.x = op.rotation.x * Math.PI / 180.0] and so on. *)
Definition setRotation (vrm : Humanoid) (op : BoneOperation) : Js.result Humanoid :=
  match opRotation op with
  | Some r =>
      match getNormalizedBoneNode vrm (boneName op) with
      | Some normBone =>
          Js.Ok (setNode vrm normBone
                   {| position := position (node vrm normBone);
                      rotation := V3 (radians (x r)) (radians (y r)) (radians (z r));
                      scale := scale (node vrm normBone) |})
      | None => Js.Throw Js.TypeError
      end
  | None => Js.Ok vrm
  end.

(** [rawBone.scale.set (op.scale.x, op.scale.y, op.scale.z)] *)
Definition setScale (vrm : Humanoid) (op : BoneOperation) : Js.result Humanoid :=
  match opScale op with
  | Some s =>
      match getRawBoneNode vrm (boneName op) with
      | Some rawBone =>
          Js.Ok (setNode vrm rawBone
                   {| position := position (node vrm rawBone);
                      rotation := rotation (node vrm rawBone);
                      scale := V3 (x s) (y s) (z s) |})
      | None => Js.Throw Js.TypeError
      end
  | None => Js.Ok vrm
  end.

(** The body of the loop. *)
Definition applyBoneOperation (vrm : Humanoid) (op : BoneOperation) : Js.result Humanoid :=
  Js.bind (movePosition vrm op) (λ vrm,
  Js.bind (setRotation vrm op) (λ vrm,
  setScale vrm op)).

(** [applyBoneOperations (vrm, boneOperations)] *)
Definition applyBoneOperations (vrm : Humanoid) (boneOperations : list BoneOperation)
  : Js.result Humanoid :=
  Js.foldM applyBoneOperation vrm boneOperations.

(** What the operations make of the three fields of the node [i], one
    after the other; [getter] says which node an operation writes to. *)
Definition finalPosition (getter : string → option nat)
    (boneOperations : list BoneOperation) (i : nat) (p0 : Vector3) : Vector3 :=
  foldl (λ p op,
           if decide (getter (boneName op) = Some i)
           then match opPosition op with
                | Some d => V3 (x p + x d) (y p + y d) (z p + z d)
                | None => p
                end
           else p)
        p0 boneOperations.

Definition finalRotation (getter : string → option nat)
    (boneOperations : list BoneOperation) (i : nat) (r0 : Vector3) : Vector3 :=
  foldl (λ r op,
           if decide (getter (boneName op) = Some i)
           then match opRotation op with
                | Some d => V3 (radians (x d)) (radians (y d)) (radians (z d))
                | None => r
                end
           else r)
        r0 boneOperations.

Definition finalScale (getter : string → option nat)
    (boneOperations : list BoneOperation) (i : nat) (s0 : Vector3) : Vector3 :=
  foldl (λ s op,
           if decide (getter (boneName op) = Some i)
           then match opScale op with
                | Some d => V3 (x d) (y d) (z d)
                | None => s
                end
           else s)
        s0 boneOperations.

(** The node [i] after the operations: positions and scales come
    through the raw getter, rotations through the normalized one. *)
Definition posed (vrm : Humanoid) (boneOperations : list BoneOperation) (i : nat)
    (bone : Bone) : Bone :=
  {| position := finalPosition (getRawBoneNode vrm) boneOperations i (position bone);
     rotation := finalRotation (getNormalizedBoneNode vrm) boneOperations i (rotation bone);
     scale := finalScale (getRawBoneNode vrm) boneOperations i (scale bone) |}.

(** What one operation needs: the nodes that it writes to. *)
Definition nodesOf (vrm : Humanoid) (op : BoneOperation) : Prop :=
  (is_Some (opPosition op) ∨ is_Some (opScale op) →
   is_Some (getRawBoneNode vrm (boneName op))) ∧
  (is_Some (opRotation op) → is_Some (getNormalizedBoneNode vrm (boneName op))).

(** An example: one arm bone at rest, lowered by 45 degrees and moved by
    an eighth along x. *)
Definition restBone : Bone :=
  {| position := V3 0 0 0; rotation := V3 0 0 0; scale := V3 1 1 1 |}.

(** The humanoid of [VRMLoaderNode]: both getters return the node 0. *)
Definition exampleHumanoid : Humanoid :=
  {| node := λ _, restBone;
     getRawBoneNode := λ name, if decide (name = "leftUpperArm"%string) then Some 0 else None;
     getNormalizedBoneNode :=
       λ name, if decide (name = "leftUpperArm"%string) then Some 0 else None |}.

(** A rig with two nodes for the bone: the raw node is 0, the normalized
    one 1. *)
Definition rigHumanoid : Humanoid :=
  {| node := λ _, restBone;
     getRawBoneNode := λ name, if decide (name = "leftUpperArm"%string) then Some 0 else None;
     getNormalizedBoneNode :=
       λ name, if decide (name = "leftUpperArm"%string) then Some 1 else None |}.

Definition lowerArm : BoneOperation :=
  {| boneName := "leftUpperArm";
     opPosition := None;
     opRotation := Some (V3 0 0 45);
     opScale := None |}.

Definition moveArm : BoneOperation :=
  {| boneName := "leftUpperArm";
     opPosition := Some (V3 0.125 0 0);
     opRotation := None;
     opScale := None |}.

End Pose.


(** *** The splat arrays of the command line path: [loadGS]

    Without the viewer, [loadGS] builds the four property arrays from
    the vertices of the parsed file.  A property of a vertex is a number
    or is missing. *)

Module Gs.

Section Arrays.
(** The conversion of a number stored in a [Float32Array]
    ([Math.fround]). *)
Variable store : float → float.

Record PlyVertex := {
  red : option float;
  green : option float;
  blue : option float;
  x : option float;
  y : option float;
  z : option float;
  scale_0 : option float;
  scale_1 : option float;
  scale_2 : option float;
  rot_0 : option float;
  rot_1 : option float;
  rot_2 : option float;
  rot_3 : option float
}.

(** [value || otherwise] for a number that may be missing: 0, -0 and
    [NaN] are falsy. *)
Definition orElse (value : option float) (otherwise : float) : float :=
  match value with
  | Some value => if (value =? 0)%float || is_nan value then otherwise else value
  | None => otherwise
  end.

Record Properties := {
  colors : list float;
  positions : list float;
  scales : list float;
  rotations : list float
}.

(** The body of the loop for vertex [i]. *)
Definition loadVertex (arrays : Properties) (entry : nat * PlyVertex) : Properties :=
  let '(i, vertex) := entry in
  let write := Textures.write store in
  let colors := write (colors arrays) (i * 4 + 0) (orElse (red vertex) 255 / 255.0)%float in
  let colors := write colors (i * 4 + 1) (orElse (green vertex) 255 / 255.0)%float in
  let colors := write colors (i * 4 + 2) (orElse (blue vertex) 255 / 255.0)%float in
  let colors := write colors (i * 4 + 3) 1.0%float in
  let positions := write (positions arrays) (i * 3 + 0) (orElse (x vertex) 0) in
  let positions := write positions (i * 3 + 1) (orElse (y vertex) 0) in
  let positions := write positions (i * 3 + 2) (orElse (z vertex) 0) in
  let scales := write (scales arrays) (i * 3 + 0) (orElse (scale_0 vertex) 0.01%float) in
  let scales := write scales (i * 3 + 1) (orElse (scale_1 vertex) 0.01%float) in
  let scales := write scales (i * 3 + 2) (orElse (scale_2 vertex) 0.01%float) in
  let rotations := write (rotations arrays) (i * 4 + 0) (orElse (rot_0 vertex) 0) in
  let rotations := write rotations (i * 4 + 1) (orElse (rot_1 vertex) 0) in
  let rotations := write rotations (i * 4 + 2) (orElse (rot_2 vertex) 0) in
  let rotations := write rotations (i * 4 + 3) (orElse (rot_3 vertex) 1) in
  {| colors := colors; positions := positions; scales := scales; rotations := rotations |}.

(** The arrays of [loadGS] for the vertices of the file. *)
Definition loadGS (vertices : list PlyVertex) : Properties :=
  let splatCount := length vertices in
  foldl loadVertex
        {| colors := replicate (splatCount * 4) 0%float;
           positions := replicate (splatCount * 3) 0%float;
           scales := replicate (splatCount * 3) 0%float;
           rotations := replicate (splatCount * 4) 0%float |}
        (imap (λ i vertex, (i, vertex)) vertices).

(** The four entries of a vertex in each array. *)
Definition colorOf (vertex : PlyVertex) : list float :=
  [ store (orElse (red vertex) 255 / 255.0)%float; store (orElse (green vertex) 255 / 255.0)%float;
    store (orElse (blue vertex) 255 / 255.0)%float; store 1.0 ]%float.

Definition positionOf (vertex : PlyVertex) : list float :=
  [ store (orElse (x vertex) 0); store (orElse (y vertex) 0); store (orElse (z vertex) 0) ].

Definition scaleOf (vertex : PlyVertex) : list float :=
  [ store (orElse (scale_0 vertex) 0.01); store (orElse (scale_1 vertex) 0.01);
    store (orElse (scale_2 vertex) 0.01) ]%float.

Definition rotationOf (vertex : PlyVertex) : list float :=
  [ store (orElse (rot_0 vertex) 0); store (orElse (rot_1 vertex) 0);
    store (orElse (rot_2 vertex) 0); store (orElse (rot_3 vertex) 1) ].

End Arrays.

End Gs.


(** *** Vocabulary for the nearest capsule and the nearest vertex *)

Module Nearest.
Import THREE Binding.

Section Vocabulary.
Context {Matrix4 Capsule : Type} `{!Services Matrix4 Capsule}.

(** The triangles the scan visits: the capsule at index [ci] has an
    index of [count] entries and [ii] is the start of one of its
    triangles. *)
Definition scanned (capsules : list Capsule) (ci : nat) (capsule : Capsule) (ii : nat)
  : Prop :=
  capsules !! ci = Some capsule ∧
  ∃ count, indexCount capsule = Some count ∧ ii ∈ triangleStarts count.

(** What a scan has found among the triangles [seen]. *)
Definition scanInv (target : Vector3) (initial : option nat)
    (seen : nat → Capsule → nat → Prop) (scan : Scan) : Prop :=
  (∀ ci capsule ii, seen ci capsule ii →
     (triangleDistance capsule ii target <? minDistance scan)%float = false) ∧
  ((minDistance scan = infinity ∧ bestCi scan = initial) ∨
   ∃ ci capsule ii, seen ci capsule ii ∧ bestCi scan = Some ci ∧
     minDistance scan = triangleDistance capsule ii target).

(** What the classifier records for splat [i] whose scan ran at
    [target]: the bone of a capsule [ci] that has a palette colour and
    to which no visited triangle is nearer than [best]. *)
Definition nearestCapsule (capsules : list Capsule) (capsuleBoneIndex : list Z)
    (target : Vector3) (cell : option Z) : Prop :=
  ∃ ci best,
    ci < 14 ∧
    cell = capsuleBoneIndex !! ci ∧
    (∀ cj capsule ii, scanned capsules cj capsule ii →
       (triangleDistance capsule ii target <? best)%float = false) ∧
    ((best = infinity ∧ ci = 0) ∨
     ∃ capsule ii, scanned capsules ci capsule ii ∧
       best = triangleDistance capsule ii target).

(** The bone whose pool mesh vertex [i] joins: the bone of the capsule
    that the scan from the posed vertex ends on. *)
Definition vertexBone (character : Character Matrix4) (capsules : list Capsule)
    (capsuleBoneIndex : list Z) (i : nat) : option Z :=
  match skinnedVertex character (Some i) with
  | Js.Ok vertex =>
      bestCi (scanCapsules capsules vertex None 0) ≫= λ ci, capsuleBoneIndex !! ci
  | Js.Throw _ => None
  end.

(** Capsule [ci] has a triangle to which [target] is at least as near as
    to any other visited triangle. *)
Definition nearestTriangle (capsules : list Capsule) (target : Vector3) (ci : nat)
  : Prop :=
  ∃ capsule ii, scanned capsules ci capsule ii ∧
    ∀ cj other jj, scanned capsules cj other jj →
      (triangleDistance other jj target <? triangleDistance capsule ii target)%float
      = false.

(** What the search of one pool ends on: the position [vi] in the pool
    such that no candidate of the pool is nearer to [target] than the
    vertex at [vi]. *)
Definition nearestInPool (character : Character Matrix4) (target : Vector3)
    (pool : list nat) (visited : list nat) (vi : nat) : Prop :=
  ∀ vj, vj ∈ visited →
    ∃ vertex best,
      skinnedVertex character (pool !! vj) = Js.Ok vertex ∧
      skinnedVertex character (pool !! vi) = Js.Ok best ∧
      (distanceTo vertex target <? distanceTo best target)%float = false.

End Vocabulary.

End Nearest.


(** *** Examples *)

Module CalibrationExample.
Import Calibration.

(** A cloud that the calibration accepts at the first radius: 12,000
    points on the vertical axis, at the heights 0.00, 0.01, ..., 1.70
    again and again. *)
Definition standingCloud : list Vertex :=
  map (λ i, {| x := 0; y := (- (Js.number (Z.of_nat (i mod 171)) / 100))%float;
               z := 0; rawData := [] |}) (seq 0 (120 * 100)).

End CalibrationExample.

Module NearestExample.
Import THREE Binding.

(** The pools of the example scene: the posed vertices 0 and 1 are
    nearest to the capsule of bone 5, the vertices 2 and 3 to the one of
    bone 7. *)
Definition examplePools : gmap Z (list nat) :=
  <[7%Z := [2; 3]]> (<[5%Z := [0; 1]]> ∅).

End NearestExample.


Module ShaderExample.
Import Shader.
Local Open Scope R_scope.

(** A half turn about the y axis, as a skin matrix. *)
Definition halfTurnY : mat4 := M4 (V4 (-1) 0 0 0) (V4 0 1 0 0) (V4 0 0 (-1) 0) (V4 0 0 0 1).

End ShaderExample.


(** ** Part II: the properties *)


(** *** The order of the numbers

    The comparisons of binary64 numbers, from the specification of the
    primitive operations: they are a total preorder away from [NaN]. *)

Ltac sf_cases :=
  repeat match goal with
  | |- context [Z.compare ?a ?b] => destruct (Z.compare_spec a b); subst
  | |- context [PosDef.Pos.compare_cont Eq ?a ?b] =>
      change (PosDef.Pos.compare_cont Eq a b) with (Pos.compare a b);
      destruct (Pos.compare_spec a b); subst
  end; simpl; try reflexivity; try discriminate; try lia.

Lemma SFleb_negb_SFltb a b :
  a ≠ S754_nan → b ≠ S754_nan → SFleb a b = negb (SFltb b a).
Proof.
  intros Ha Hb. unfold SFleb, SFltb, SFcompare.
  destruct a as [sa|sa| |sa ma ea], b as [sb|sb| |sb mb eb];
    try congruence; try destruct sa; try destruct sb; simpl; try reflexivity;
    sf_cases.
Qed.

Lemma SFleb_trans a b c : SFleb a b = true → SFleb b c = true → SFleb a c = true.
Proof.
  unfold SFleb, SFcompare.
  destruct a as [sa|sa| |sa ma ea], b as [sb|sb| |sb mb eb], c as [sc|sc| |sc mc ec];
    try destruct sa; try destruct sb; try destruct sc; simpl;
    try reflexivity; try discriminate; sf_cases.
Qed.

Lemma is_nan_false a : is_nan a = false → Prim2SF a ≠ S754_nan.
Proof.
  unfold is_nan. rewrite FloatAxioms.eqb_spec. intros Hnan Heq. rewrite Heq in Hnan.
  discriminate Hnan.
Qed.

Lemma SFeqb_refl a : a ≠ S754_nan → SFeqb a a = true.
Proof.
  intros Ha. unfold SFeqb, SFcompare.
  destruct a as [sa|sa| |sa ma ea]; try congruence; try destruct sa; try reflexivity.
  - rewrite Z.compare_refl.
    change (PosDef.Pos.compare_cont Eq ma ma) with (Pos.compare ma ma).
    by rewrite Pos.compare_refl.
  - rewrite Z.compare_refl.
    change (PosDef.Pos.compare_cont Eq ma ma) with (Pos.compare ma ma).
    by rewrite Pos.compare_refl.
Qed.

Lemma leb_not_nan a b : (a <=? b)%float = true → is_nan a = false ∧ is_nan b = false.
Proof.
  rewrite FloatAxioms.leb_spec. unfold is_nan. rewrite !FloatAxioms.eqb_spec. intros Hle.
  assert (Prim2SF a ≠ S754_nan ∧ Prim2SF b ≠ S754_nan) as [Ha Hb].
  { unfold SFleb, SFcompare in Hle.
    destruct (Prim2SF a) as [sa|sa| |sa ma ea], (Prim2SF b) as [sb|sb| |sb mb eb];
      try discriminate Hle; done. }
  by rewrite !SFeqb_refl.
Qed.

(** [a <= b] is the negation of [b < a] when neither is [NaN]. *)
Lemma leb_negb_ltb a b :
  is_nan a = false → is_nan b = false → (a <=? b)%float = negb (b <? a)%float.
Proof.
  intros Ha Hb. rewrite FloatAxioms.leb_spec, FloatAxioms.ltb_spec.
  apply SFleb_negb_SFltb; by apply is_nan_false.
Qed.

Lemma leb_trans a b c :
  (a <=? b)%float = true → (b <=? c)%float = true → (a <=? c)%float = true.
Proof. rewrite !FloatAxioms.leb_spec. apply SFleb_trans. Qed.

Lemma ltb_leb a b : (a <? b)%float = true → (a <=? b)%float = true.
Proof.
  rewrite FloatAxioms.leb_spec, FloatAxioms.ltb_spec. unfold SFleb, SFltb.
  destruct (SFcompare _ _) as [[]|]; simpl; congruence.
Qed.

(** *** Where a [NaN] can come from *)

Lemma shr_1_nonneg mrs : (0 ≤ shr_m mrs)%Z → (0 ≤ shr_m (shr_1 mrs))%Z.
Proof. destruct mrs as [[|[p|p|]|[p|p|]] r s]; simpl; lia. Qed.

Lemma iter_pos_shr_1_nonneg n : ∀ mrs,
  (0 ≤ shr_m mrs)%Z → (0 ≤ shr_m (SpecFloat.iter_pos shr_1 n mrs))%Z.
Proof.
  induction n as [n IH|n IH|]; intros mrs Hm; simpl.
  - apply IH, IH. by apply shr_1_nonneg.
  - by apply IH, IH.
  - by apply shr_1_nonneg.
Qed.

Lemma shr_fexp_nonneg prec emax m e l :
  (0 ≤ m)%Z → (0 ≤ shr_m (shr_fexp prec emax m e l).1)%Z.
Proof.
  intros Hm. unfold shr_fexp, shr.
  assert (0 ≤ shr_m (shr_record_of_loc m l))%Z as Hrecord
    by (destruct l as [|[]]; exact Hm).
  destruct (_ - e)%Z; simpl; [done| |done].
  by apply iter_pos_shr_1_nonneg.
Qed.

Lemma round_nearest_even_nonneg m l : (0 ≤ m)%Z → (0 ≤ round_nearest_even m l)%Z.
Proof.
  intros Hm. unfold round_nearest_even.
  destruct l as [|[]]; try destruct (Z.even m); lia.
Qed.

(** Rounding a mantissa that is not negative gives no [NaN]. *)
Lemma binary_round_aux_nonneg prec emax m e l :
  (0 ≤ m)%Z → SFnonneg (binary_round_aux prec emax false m e l).
Proof.
  intros Hm. unfold binary_round_aux.
  pose proof (shr_fexp_nonneg prec emax m e l Hm) as H1.
  destruct (shr_fexp prec emax m e l) as [mrs' e']. simpl in H1.
  pose proof (shr_fexp_nonneg prec emax
                (round_nearest_even (shr_m mrs') (loc_of_shr_record mrs')) e' loc_Exact
                (round_nearest_even_nonneg _ _ H1)) as H2.
  destruct (shr_fexp prec emax _ e' loc_Exact) as [mrs'' e'']. simpl in H2.
  destruct (shr_m mrs''); [done| |lia].
  by destruct (_ <=? _)%Z.
Qed.

Lemma binary_round_nonneg prec emax m e : SFnonneg (binary_round prec emax false m e).
Proof.
  unfold binary_round. destruct (shl_align _ _ _) as [mz ez].
  by apply binary_round_aux_nonneg.
Qed.

Lemma SFmul_self_nonneg prec emax a :
  a ≠ S754_nan → SFnonneg (SFmul prec emax a a).
Proof.
  destruct a as [s|s| |s m e]; simpl; try done.
  - intros _. by destruct s.
  - intros _. replace (xorb s s) with false by (by destruct s).
    by apply binary_round_aux_nonneg.
Qed.

Lemma SFadd_nonneg prec emax a b :
  SFnonneg a → SFnonneg b → SFnonneg (SFadd prec emax a b).
Proof.
  destruct a as [sa|sa| |sa ma ea], b as [sb|sb| |sb mb eb]; simpl; try done.
  - by destruct sa, sb.
  - by intros -> ->.
  - intros -> ->. simpl. apply binary_round_nonneg.
Qed.

Lemma SFsqrt_nonneg prec emax a : SFnonneg a → SFsqrt prec emax a ≠ S754_nan.
Proof.
  destruct a as [s|s| |s m e]; simpl; try done.
  - by intros ->.
  - intros ->. unfold SFsqrt_core_binary.
    destruct (Z.sqrtrem _) as [q r] eqn:Hroot.
    assert (0 ≤ q)%Z as Hq.
    { pose proof (Z.sqrtrem_sqrt
        match (e - 2 * Z.min (fexp prec emax (Z.div2 (Zdigits2 (Z.pos m) + e + 1)))
                             (Z.div2 e))%Z with
        | 0%Z => Z.pos m
        | Z.pos _ => Z.shiftl (Z.pos m)
                       (e - 2 * Z.min (fexp prec emax (Z.div2 (Zdigits2 (Z.pos m) + e + 1)))
                                      (Z.div2 e))
        | Z.neg _ => 0%Z
        end) as Hsqrt.
      rewrite Hroot in Hsqrt. simpl in Hsqrt. rewrite Hsqrt. apply Z.sqrt_nonneg. }
    pose proof (binary_round_aux_nonneg prec emax q
      (Z.min (fexp prec emax (Z.div2 (Zdigits2 (Z.pos m) + e + 1))) (Z.div2 e))
      (if (r =? 0)%Z then loc_Exact else loc_Inexact (if (r <=? q)%Z then Lt else Gt))
      Hq) as Hround.
    intros Hnan. by rewrite Hnan in Hround.
Qed.

Lemma is_nan_true a : is_nan a = true ↔ Prim2SF a = S754_nan.
Proof.
  unfold is_nan. rewrite FloatAxioms.eqb_spec. split.
  - intros Hnan. destruct (Prim2SF a) eqn:Ha; try done;
      rewrite SFeqb_refl in Hnan; done.
  - by intros ->.
Qed.

Lemma is_nan_false_iff a : is_nan a = false ↔ Prim2SF a ≠ S754_nan.
Proof. rewrite <- is_nan_true. by destruct (is_nan a). Qed.

(** The square root of a sum of two squares is [NaN] only when one of the
    two numbers is. *)
Lemma hypot_not_nan a b :
  is_nan a = false → is_nan b = false →
  is_nan (PrimFloat.sqrt (a * a + b * b))%float = false.
Proof.
  rewrite !is_nan_false_iff. intros Ha Hb.
  rewrite FloatAxioms.sqrt_spec, FloatAxioms.add_spec, !FloatAxioms.mul_spec.
  apply SFsqrt_nonneg, SFadd_nonneg; by apply SFmul_self_nonneg.
Qed.

(** A [NaN] operand makes the distance [NaN]. *)
Lemma hypot_nan a b c d :
  is_nan a = true ∨ is_nan b = true →
  is_nan (PrimFloat.sqrt ((a - c) * (a - c) + (b - d) * (b - d)))%float = true.
Proof.
  rewrite !is_nan_true.
  rewrite FloatAxioms.sqrt_spec, FloatAxioms.add_spec, !FloatAxioms.mul_spec,
    !FloatAxioms.sub_spec.
  intros [-> | ->]; simpl; [done|].
  by destruct (SF64mul _ _).
Qed.

(** A comparison with [NaN] is false. *)
Lemma leb_nan_l a b : is_nan a = true → (a <=? b)%float = false.
Proof.
  intros Ha. destruct (a <=? b)%float eqn:Hle; [|done].
  apply leb_not_nan in Hle as [Hle _]. congruence.
Qed.

Lemma leb_nan_r a b : is_nan b = true → (a <=? b)%float = false.
Proof.
  intros Hb. destruct (a <=? b)%float eqn:Hle; [|done].
  apply leb_not_nan in Hle as [_ Hle]. congruence.
Qed.

Lemma ltb_nan_l a b : is_nan a = true → (a <? b)%float = false.
Proof.
  intros Ha. destruct (a <? b)%float eqn:Hlt; [|done].
  apply ltb_leb, leb_not_nan in Hlt as [Hlt _]. congruence.
Qed.

Lemma ltb_nan_r a b : is_nan b = true → (a <? b)%float = false.
Proof.
  intros Hb. destruct (a <? b)%float eqn:Hlt; [|done].
  apply ltb_leb, leb_not_nan in Hlt as [_ Hlt]. congruence.
Qed.

(** [a <= b] and [b < a] exclude each other. *)
Lemma leb_ltb_false a b : (a <=? b)%float = true → (b <? a)%float = false.
Proof.
  intros Hle. destruct (leb_not_nan _ _ Hle) as [Ha Hb].
  rewrite (leb_negb_ltb _ _ Ha Hb) in Hle. by apply negb_true_iff in Hle.
Qed.

(** *** List helpers *)

Lemma filter_ext_elem {A} (P Q : A → Prop)
    `{!∀ x, Decision (P x), !∀ x, Decision (Q x)} (l : list A) :
  (∀ x, x ∈ l → P x ↔ Q x) → filter P l = filter Q l.
Proof.
  induction l as [|a l IH]; intros Hext; [done|].
  rewrite !filter_cons.
  rewrite IH by (intros x Hx; apply Hext; by right).
  pose proof (Hext a (list_elem_of_here a l)).
  repeat case_decide; tauto.
Qed.

Lemma StronglySorted_filter_lt (P : nat → Prop) `{!∀ x, Decision (P x)} l :
  StronglySorted lt l → StronglySorted lt (filter P l).
Proof.
  induction 1 as [|a l Hs IH Ha]; [constructor|].
  rewrite filter_cons. case_decide; [|done].
  constructor; [done|].
  apply Forall_forall. intros x Hx. apply list_elem_of_filter in Hx as [_ Hx].
  rewrite Forall_forall in Ha. by apply Ha.
Qed.

Lemma StronglySorted_seq_lt j n : StronglySorted lt (seq j n).
Proof.
  revert j. induction n as [|n IH]; intros j; simpl; constructor; [apply IH|].
  apply Forall_forall. intros x Hx. apply elem_of_seq in Hx. lia.
Qed.

Lemma StronglySorted_seq_le j n : StronglySorted le (seq j n).
Proof.
  revert j. induction n as [|n IH]; intros j; simpl; constructor; [apply IH|].
  apply Forall_forall. intros x Hx. apply elem_of_seq in Hx. lia.
Qed.

Lemma bind_ext_elem {A B} (f g : A → list B) (l : list A) :
  (∀ x, x ∈ l → f x = g x) → l ≫= f = l ≫= g.
Proof.
  intros Hext. apply Forall_bind_ext, Forall_forall. exact Hext.
Qed.

(** [Object.keys] of an object whose keys are exactly [0 .. K-1]. *)
Lemma keys_dense {V} (o : gmap nat V) K :
  (∀ k, is_Some (o !! k) ↔ k < K) → Js.keys o = seq 0 K.
Proof.
  intros Hdom. unfold Js.keys.
  apply (StronglySorted_unique le).
  - apply StronglySorted_merge_sort; apply _.
  - apply StronglySorted_seq_le.
  - rewrite merge_sort_Permutation.
    apply NoDup_Permutation; [apply NoDup_elements|apply NoDup_seq|].
    intros k. rewrite elem_of_elements, elem_of_dom, elem_of_seq, Hdom. lia.
Qed.

(** Visiting a list by index is visiting it front to back. *)
Lemma bind_by_index {A B} (f : A → list B) (l : list A) :
  seq 0 (length l) ≫= (λ k, default [] (f <$> l !! k)) = l ≫= f.
Proof.
  induction l as [|x l IH] using rev_ind; [done|].
  rewrite length_app, seq_app, !bind_app. f_equal.
  - rewrite <- IH. apply bind_ext_elem. intros k Hk.
    apply elem_of_seq in Hk. by rewrite lookup_app_l by lia.
  - change (seq (0 + length l) (length [x])) with [length l].
    rewrite !bind_singleton. by rewrite list_lookup_middle.
Qed.

(** *** Loops that may throw *)

(** Splits a hypothesis [x ← m; k = Js.Ok v] into [m = Js.Ok a] and the
    rest of the computation. *)
Ltac js_bind H :=
  unfold mbind, result_bind, Js.bind in H;
  repeat match type of H with
  | match ?m with Js.Ok _ => _ | Js.Throw _ => _ end = Js.Ok _ =>
      let E := fresh "E" in destruct m eqn:E; [|discriminate H]
  end.

Lemma foldM_seq_from {St} (body : St → nat → Js.result St) (I : nat → St → Prop) n :
  ∀ j s0 s,
  I j s0 →
  (∀ k s1 s2, j ≤ k < j + n → I k s1 → body s1 k = Js.Ok s2 → I (S k) s2) →
  Js.foldM body s0 (seq j n) = Js.Ok s → I (j + n) s.
Proof.
  induction n as [|n IH]; intros j s0 s H0 Hstep Hrun; simpl in Hrun.
  - injection Hrun as <-. by rewrite Nat.add_0_r.
  - js_bind Hrun. replace (j + S n) with (S j + n) by lia.
    apply (IH (S j) a s); [|intros k s1 s2 Hk; apply Hstep; lia|done].
    apply (Hstep j s0 a); [lia|done|done].
Qed.

(** Invariant rule for [for (let i = 0; i < n; i++)] with a body that may
    throw: when the loop completes, the invariant holds at [n]. *)
Lemma foldM_seq_inv {St} (body : St → nat → Js.result St) (I : nat → St → Prop) n s0 s :
  I 0 s0 →
  (∀ k s1 s2, k < n → I k s1 → body s1 k = Js.Ok s2 → I (S k) s2) →
  Js.foldM body s0 (seq 0 n) = Js.Ok s → I n s.
Proof.
  intros H0 Hstep Hrun.
  apply (foldM_seq_from body I n 0 s0 s); [done| |done].
  intros k s1 s2 Hk. apply Hstep. lia.
Qed.

Section ArchiveFacts.
Import Archive.

Lemma firstSeen_snoc p b :
  firstSeen (p ++ [b]) =
  if decide (b ∈ firstSeen p) then firstSeen p else firstSeen p ++ [b].
Proof. unfold firstSeen. rewrite foldl_app. reflexivity. Qed.

Lemma firstSeen_elem p b : b ∈ firstSeen p ↔ b ∈ p.
Proof.
  induction p as [|x p IH] using rev_ind; [done|].
  rewrite firstSeen_snoc. case_decide; set_solver.
Qed.

Lemma firstSeen_NoDup p : NoDup (firstSeen p).
Proof.
  induction p as [|x p IH] using rev_ind; [constructor|].
  rewrite firstSeen_snoc. case_decide; [done|].
  apply NoDup_app. split_and!; [done|set_solver|apply NoDup_singleton].
Qed.

Lemma positions_elem b bones i : i ∈ positions b bones ↔ bones !! i = Some b.
Proof.
  unfold positions. rewrite list_elem_of_filter, elem_of_seq.
  split; [tauto|]. intros H. split; [done|].
  apply lookup_lt_Some in H. lia.
Qed.

Lemma positions_snoc b p b' :
  positions b (p ++ [b']) =
  positions b p ++ (if decide (b' = b) then [length p] else []).
Proof.
  unfold positions. rewrite length_app. simpl.
  rewrite seq_app, filter_app. f_equal.
  - apply filter_ext_elem. intros i Hi.
    apply elem_of_seq in Hi. rewrite lookup_app_l by lia. done.
  - simpl. rewrite filter_cons, filter_nil.
    rewrite list_lookup_middle by done.
    repeat case_decide; congruence.
Qed.

Lemma positions_sorted b bones : StronglySorted lt (positions b bones).
Proof.
  unfold positions. apply StronglySorted_filter_lt, StronglySorted_seq_lt.
Qed.

Lemma sortInv_init : sortInv [] sortInit.
Proof. repeat split; simpl; intros; try done. Qed.

Lemma positions_snoc_other b p b' :
  b' ≠ b → positions b (p ++ [b']) = positions b p.
Proof.
  intros Hne. rewrite positions_snoc. case_decide; [done|].
  by rewrite app_nil_r.
Qed.

Lemma positions_absent b p : b ∉ p → positions b p = [].
Proof.
  intros Hb. destruct (positions b p) as [|i l] eqn:Hpos; [done|].
  exfalso. apply Hb. apply (list_elem_of_lookup_2 _ i).
  apply positions_elem. rewrite Hpos. by left.
Qed.

Lemma sortInv_step p st b :
  sortInv p st → sortInv (p ++ [b]) (sortStep st (length p) b).
Proof.
  intros (Hcount & Hmap & Hgroups).
  pose proof (firstSeen_NoDup p) as Hnd.
  unfold sortStep.
  destruct (boneSceneMap st !! b) as [k|] eqn:Hb.
  - (* a bone already seen *)
    rewrite Hb. apply Hmap in Hb as Hk.
    assert (b ∈ firstSeen p) as Hin by (eapply list_elem_of_lookup_2, Hk).
    unfold sortInv. rewrite firstSeen_snoc. rewrite decide_True by done.
    simpl. split_and!; [done|done|].
    intros k'. rewrite lookup_alter. case_decide as Hkk.
    + subst k'. rewrite Hgroups, Hk. simpl.
      rewrite positions_snoc. by rewrite decide_True.
    + rewrite Hgroups.
      destruct (firstSeen p !! k') as [b'|] eqn:Hk'; simpl; [|done].
      f_equal. symmetry. apply positions_snoc_other.
      intros ->. apply Hkk. eapply NoDup_lookup; eauto.
  - (* a new bone *)
    assert (b ∉ firstSeen p) as Hnin.
    { intros Hin. apply list_elem_of_lookup_1 in Hin as [k Hk].
      apply Hmap in Hk. congruence. }
    simpl. rewrite lookup_insert_eq.
    unfold sortInv. rewrite firstSeen_snoc. rewrite decide_False by done.
    simpl. split_and!.
    + rewrite length_app. simpl. lia.
    + intros b' k. destruct (decide (b = b')) as [<-|Hne].
      * rewrite lookup_insert_eq. rewrite Hcount. split.
        -- intros [= <-]. by rewrite list_lookup_middle.
        -- intros Hk. apply lookup_snoc_Some in Hk as [[_ Hk]|[-> _]]; [|done].
           exfalso. apply Hnin. eapply list_elem_of_lookup_2, Hk.
      * rewrite lookup_insert_ne by done. rewrite Hmap.
        rewrite lookup_snoc_Some. split.
        -- intros Hk. left. split; [by eapply lookup_lt_Some|done].
        -- intros [[_ Hk]|[_ Heq]]; [done|congruence].
    + intros k. rewrite lookup_alter. case_decide as Hkk.
      * subst k. rewrite lookup_insert_eq. rewrite Hcount.
        rewrite list_lookup_middle by done. simpl.
        rewrite positions_snoc. rewrite decide_True by done.
        rewrite positions_absent; [done|]. by rewrite <- firstSeen_elem.
      * rewrite lookup_insert_ne by done. rewrite Hgroups.
        destruct (decide (k < length (firstSeen p))) as [Hlt|Hge].
        -- rewrite lookup_app_l by done.
           destruct (firstSeen p !! k) as [b'|] eqn:Hk'; simpl; [|done].
           f_equal. symmetry. apply positions_snoc_other.
           intros ->. apply Hnin. eapply list_elem_of_lookup_2, Hk'.
        -- rewrite (lookup_ge_None_2 (firstSeen p)) by lia.
           rewrite lookup_ge_None_2; [done|].
           rewrite length_app. simpl. lia.
Qed.

Lemma sortLoop_inv bones p st :
  sortInv p st → sortInv (p ++ bones) (sortLoop (length p) bones st).
Proof.
  revert p st. induction bones as [|b bones IH]; intros p st Hinv; simpl.
  - by rewrite app_nil_r.
  - replace (p ++ b :: bones) with ((p ++ [b]) ++ bones)
      by (by rewrite <- app_assoc).
    replace (S (length p)) with (length (p ++ [b]))
      by (rewrite length_app; simpl; lia).
    apply IH. by apply sortInv_step.
Qed.

Lemma sortLoop_spec bones : sortInv bones (sortLoop 0 bones sortInit).
Proof. apply (sortLoop_inv bones [] sortInit), sortInv_init. Qed.

Lemma sortLoop_dom bones k :
  is_Some (sceneSplatIndices (sortLoop 0 bones sortInit) !! k) ↔
  k < length (firstSeen bones).
Proof.
  destruct (sortLoop_spec bones) as (_ & _ & Hgroups).
  rewrite Hgroups, fmap_is_Some. apply lookup_lt_is_Some.
Qed.

Lemma sortLoop_order bones :
  sceneOrder (sceneSplatIndices (sortLoop 0 bones sortInit)) = regroup bones.
Proof.
  destruct (sortLoop_spec bones) as (_ & _ & Hgroups).
  unfold sceneOrder, regroup.
  rewrite (keys_dense _ (length (firstSeen bones))) by apply sortLoop_dom.
  rewrite <- (bind_by_index (λ b, positions b bones)).
  apply bind_ext_elem. intros k _. by rewrite Hgroups.
Qed.

Lemma regroup_elem bones i : i ∈ regroup bones ↔ i < length bones.
Proof.
  unfold regroup. rewrite list_elem_of_bind. split.
  - intros (b & Hi & _). apply positions_elem, lookup_lt_Some in Hi. done.
  - intros Hi. apply lookup_lt_is_Some in Hi as [b Hb]. exists b.
    split; [by apply positions_elem|].
    apply firstSeen_elem. by eapply list_elem_of_lookup_2.
Qed.

Lemma regroup_NoDup bones : NoDup (regroup bones).
Proof.
  apply NoDup_bind.
  - intros b1 b2 i _ _ H1 H2.
    apply positions_elem in H1. apply positions_elem in H2. congruence.
  - intros b _. apply NoDup_filter, NoDup_seq.
  - apply firstSeen_NoDup.
Qed.

(** Regrouping is a permutation of the splat indices. *)
Lemma regroup_Permutation bones : regroup bones ≡ₚ seq 0 (length bones).
Proof.
  apply NoDup_Permutation; [apply regroup_NoDup|apply NoDup_seq|].
  intros i. rewrite regroup_elem, elem_of_seq. lia.
Qed.


Lemma length_bind3 {A B} (f g h : A → B) (l : list A) :
  length (l ≫= λ x, [f x; g x; h x]) = 3 * length l.
Proof.
  induction l as [|x l IH]; [done|].
  rewrite bind_cons, length_app, IH. simpl. lia.
Qed.

Lemma index_stringify poses j :
  Js.index (map (λ cell, cell ≫= jsonNumber) poses) j = Js.index poses j ≫= jsonNumber.
Proof.
  unfold Js.index. rewrite list_lookup_fmap.
  by destruct (poses !! j) as [[x|]|].
Qed.

(** What [load] returns, spelled out. *)
Lemma load_inv {PlyVertex Vrm} (zip : Zip PlyVertex Vrm) gvrm :
  load zip = Js.Ok gvrm →
  let order := regroup (splatBoneIndices (data_json zip)) in
  gsBinding gvrm =
    updateExtraData (data_json zip)
      (sceneSplatIndices (sortLoop 0 (splatBoneIndices (data_json zip)) sortInit)) ∧
  gvrmBoneSceneMap gvrm =
    boneSceneMap (sortLoop 0 (splatBoneIndices (data_json zip)) sortInit) ∧
  gsSplatCount gvrm = length (gsCloud gvrm) ∧
  Forall2 (λ i v, model_ply zip !! i = Some v) order (gsCloud gvrm).
Proof.
  unfold load, sortSplatsByBones, splitPLY. intros Hload.
  destruct (mapM _ _) as [scenes|] eqn:Hscenes; [|done].
  injection Hload as <-. simpl. split_and!; [done..|].
  rewrite <- sortLoop_order. unfold sceneOrder.
  rewrite list_join_bind. apply Forall2_bind.
  apply mapM_Some in Hscenes.
  eapply Forall2_impl; [exact Hscenes|].
  intros k scene Hscene. by apply mapM_Some in Hscene.
Qed.

(** C6. [sortSplatsByBones] is a function of the [splatBoneIndices] array
    alone.  The K distinct bone indices get the scene numbers [0 .. K-1]
    in the order of their first appearance; the groups are exactly the
    scenes [0 .. K-1]; group [k] lists, in increasing order, the splats of
    the k-th bone, so every splat index below the array length lies in
    exactly one group; two inputs with the same bone array give the same
    groups and the same map. *)
Theorem sortSplatsByBones_groups (extraData : ExtraData) :
  let bones := splatBoneIndices extraData in
  let groups := (sortSplatsByBones extraData).1.1 in
  let boneMap := (sortSplatsByBones extraData).1.2 in
  NoDup (firstSeen bones) ∧
  (∀ b, b ∈ firstSeen bones ↔ b ∈ bones) ∧
  (∀ b k, boneMap !! b = Some k ↔ firstSeen bones !! k = Some b) ∧
  (∀ k, is_Some (groups !! k) ↔ k < length (firstSeen bones)) ∧
  (∀ k, groups !! k = (λ b, positions b bones) <$> firstSeen bones !! k) ∧
  (∀ i, i < length bones →
     ∃ k group, groups !! k = Some group ∧ i ∈ group ∧
       ∀ k' group', groups !! k' = Some group' → i ∈ group' → k' = k) ∧
  (∀ k group, groups !! k = Some group →
     StronglySorted lt group ∧ ∀ i, i ∈ group → i < length bones) ∧
  (∀ extraData', splatBoneIndices extraData' = bones →
     (sortSplatsByBones extraData').1 = (sortSplatsByBones extraData).1).
Proof.
  intros bones groups boneMap. subst groups boneMap.
  unfold sortSplatsByBones. simpl. fold bones.
  destruct (sortLoop_spec bones) as (_ & Hmap & Hgroups).
  pose proof (firstSeen_NoDup bones) as Hnd.
  split_and!; try done.
  - apply firstSeen_elem.
  - apply sortLoop_dom.
  - intros i Hi. apply lookup_lt_is_Some in Hi as [b Hb].
    assert (b ∈ firstSeen bones) as Hin
      by (apply firstSeen_elem; by eapply list_elem_of_lookup_2).
    apply list_elem_of_lookup_1 in Hin as [k Hk].
    exists k, (positions b bones). split_and!.
    + by rewrite Hgroups, Hk.
    + by apply positions_elem.
    + intros k' group' Hk' Hi'. rewrite Hgroups in Hk'.
      destruct (firstSeen bones !! k') as [b'|] eqn:Hb'; [|done].
      injection Hk' as <-. apply positions_elem in Hi'.
      assert (b' = b) as -> by congruence.
      eapply NoDup_lookup; eauto.
  - intros k group Hk. rewrite Hgroups in Hk.
    destruct (firstSeen bones !! k) as [b|]; [|done]. injection Hk as <-.
    split; [apply positions_sorted|].
    intros i Hi. apply positions_elem in Hi. by eapply lookup_lt_Some.
  - intros extraData' ->. done.
Qed.

(** C2 (as amended). Loading a saved archive returns the three arrays
    regrouped by bone: [order] lists the splat indices group after group,
    bones in the order of their first appearance and splats in increasing
    order within a group; it is a permutation of the splat indices.  The
    loaded vertex and bone arrays hold the saved cells in that order, the
    loaded offsets hold the saved triples in that order as JSON reads
    them back, and the loaded cloud holds the saved points in that same
    order. *)
Theorem load_save_regroups {PlyVertex Vrm} (vrm : Vrm) (ply : list PlyVertex)
    (binding : ExtraData) (gvrm : Gvrm PlyVertex) :
  load (save vrm ply binding) = Js.Ok gvrm →
  let order := regroup (splatBoneIndices binding) in
  order ≡ₚ seq 0 (length (splatBoneIndices binding)) ∧
  splatVertexIndices (gsBinding gvrm) =
    map (Js.index (splatVertexIndices binding)) order ∧
  splatBoneIndices (gsBinding gvrm) =
    map (Js.index (splatBoneIndices binding)) order ∧
  splatRelativePoses (gsBinding gvrm) =
    (order ≫= λ i,
       [ Js.index (splatRelativePoses binding) (i * 3) ≫= jsonNumber;
         Js.index (splatRelativePoses binding) (i * 3 + 1) ≫= jsonNumber;
         Js.index (splatRelativePoses binding) (i * 3 + 2) ≫= jsonNumber ]) ∧
  Forall2 (λ i point, ply !! i = Some point) order (gsCloud gvrm).
Proof.
  intros Hload order.
  apply load_inv in Hload as (Hbinding & _ & _ & Hcloud).
  simpl in Hbinding, Hcloud. fold order in Hcloud.
  rewrite Hbinding. unfold updateExtraData.
  rewrite sortLoop_order. fold order. simpl.
  split_and!; try done.
  - apply regroup_Permutation.
  - apply bind_ext_elem. intros i _. by rewrite !index_stringify.
Qed.

Lemma exampleLoaded_is_loaded :
  load (save tt exampleCloud exampleBinding) = Js.Ok exampleLoaded.
Proof. vm_compute. reflexivity. Qed.

Lemma load_save_regroups_witness :
  let order := regroup (splatBoneIndices exampleBinding) in
  order ≡ₚ seq 0 (length (splatBoneIndices exampleBinding)) ∧
  splatVertexIndices (gsBinding exampleLoaded) =
    map (Js.index (splatVertexIndices exampleBinding)) order ∧
  splatBoneIndices (gsBinding exampleLoaded) =
    map (Js.index (splatBoneIndices exampleBinding)) order ∧
  splatRelativePoses (gsBinding exampleLoaded) =
    (order ≫= λ i,
       [ Js.index (splatRelativePoses exampleBinding) (i * 3) ≫= jsonNumber;
         Js.index (splatRelativePoses exampleBinding) (i * 3 + 1) ≫= jsonNumber;
         Js.index (splatRelativePoses exampleBinding) (i * 3 + 2) ≫= jsonNumber ]) ∧
  Forall2 (λ i point, exampleCloud !! i = Some point) order (gsCloud exampleLoaded).
Proof.
  exact (load_save_regroups tt exampleCloud exampleBinding exampleLoaded
           exampleLoaded_is_loaded).
Defined.

(** C2 (as stated) fails: the archive of three splats whose bones are
    1, 2, 1 loads with the second and third splat exchanged, so the
    loaded arrays are not the saved ones. *)
Lemma load_save_not_verbatim :
  load (save tt exampleCloud exampleBinding) = Js.Ok exampleLoaded ∧
  splatVertexIndices (gsBinding exampleLoaded) ≠ splatVertexIndices exampleBinding ∧
  splatBoneIndices (gsBinding exampleLoaded) ≠ splatBoneIndices exampleBinding ∧
  splatRelativePoses (gsBinding exampleLoaded) ≠ splatRelativePoses exampleBinding.
Proof.
  split; [exact exampleLoaded_is_loaded|].
  split_and!; simpl; intros Heq; discriminate Heq.
Qed.

End ArchiveFacts.

Section BindingFacts.
Import THREE Binding.
Context {Matrix4 Capsule : Type} `{!Services Matrix4 Capsule}.

Lemma paint_length buffer i ci buffer' :
  paint buffer i ci = Js.Ok buffer' → length buffer' = length buffer.
Proof.
  unfold paint. destruct (ci ≫= _) as [[[r g] b]|]; [|done].
  intros [= <-]. by rewrite !length_insert.
Qed.

(** The skeleton-only loop never throws and computes no distance. *)
Lemma defaultBoneStep_run indices : ∀ st,
  ∃ buffer,
    length buffer = length (boneColors st) ∧
    Js.foldM defaultBoneStep st indices =
    Js.Ok {| boneIndices := boneIndices st ++ replicate (length indices) (Some 0%Z);
             boneColors := buffer;
             boneBestCi := boneBestCi st;
             boneCalls := boneCalls st |}.
Proof.
  induction indices as [|i indices IH]; intros st; simpl.
  - exists (boneColors st). rewrite app_nil_r. by destruct st.
  - unfold defaultBoneStep at 1, paint. simpl.
    edestruct IH as (buffer & Hlen & ->). exists buffer. simpl in *.
    split; [by rewrite Hlen, !length_insert|].
    by rewrite <- app_assoc.
Qed.

Lemma boneStep_push gs capsules capsuleBoneIndex fast st i st' :
  boneStep gs capsules capsuleBoneIndex fast st i = Js.Ok st' →
  length (boneIndices st') = S (length (boneIndices st)).
Proof.
  unfold boneStep. intros Hstep.
  destruct (fast && negb (i mod 10 =? 0)); js_bind Hstep;
    injection Hstep as <-; simpl; rewrite length_app; simpl; lia.
Qed.

Lemma defaultBoneStep_push st i st' :
  defaultBoneStep st i = Js.Ok st' →
  length (boneIndices st') = S (length (boneIndices st)).
Proof.
  unfold defaultBoneStep. intros Hstep. js_bind Hstep.
  injection Hstep as <-. simpl. rewrite length_app. simpl. lia.
Qed.

(** [assignSplatsToBones] leaves one bone index per splat. *)
Lemma assignSplatsToBones_length gs capsules capsuleBoneIndex fast gs' calls :
  assignSplatsToBones gs capsules capsuleBoneIndex fast = Js.Ok (gs', calls) →
  splatCount gs' = splatCount gs ∧
  length (splatBoneIndices gs') = splatCount gs.
Proof.
  unfold assignSplatsToBones. intros Hrun. js_bind Hrun.
  injection Hrun as <- <-. simpl. split; [done|].
  revert E. apply (foldM_seq_inv _ (λ k st, length (boneIndices st) = k)); [done|].
  intros k s1 s2 _ <-. case_bool_decide.
  - apply defaultBoneStep_push.
  - apply boneStep_push.
Qed.

(** C9. With an empty capsule set [assignSplatsToBones] returns normally:
    it leaves bone index 0 for every one of the [splatCount] splats, that
    is an all-zero array of length [splatCount], and it has computed no
    point-to-triangle distance. *)
Theorem assignSplatsToBones_no_capsules gs capsuleBoneIndex fast :
  ∃ gs',
    assignSplatsToBones gs [] capsuleBoneIndex fast = Js.Ok (gs', 0) ∧
    splatBoneIndices gs' = replicate (splatCount gs) (Some 0%Z) ∧
    length (splatBoneIndices gs') = splatCount gs ∧
    splatCount gs' = splatCount gs.
Proof.
  unfold assignSplatsToBones. simpl.
  edestruct (defaultBoneStep_run (seq 0 (splatCount gs))) as (buffer & _ & ->).
  simpl. eexists. split; [reflexivity|]. simpl.
  rewrite length_seq, length_replicate. done.
Qed.

Lemma index_snoc_old {A} (arr : list (option A)) cells i :
  i < length arr → Js.index (arr ++ cells) i = Js.index arr i.
Proof. intros Hi. unfold Js.index. by rewrite lookup_app_l. Qed.

Lemma index_snoc_new {A} (arr : list (option A)) cells j :
  Js.index (arr ++ cells) (length arr + j) = Js.index cells j.
Proof.
  unfold Js.index. rewrite lookup_app_r by lia.
  by replace (length arr + j - length arr) with j by lia.
Qed.

Section Stage.
Variables (character : Character Matrix4) (gs : GaussianSplatting Matrix4).
Variables (boneVertexIndices : gmap Z (list nat)) (fast : bool).

Lemma bindStep_inv n bound :
  Js.foldM (bindStep character gs boneVertexIndices fast) [] (seq 0 n) = Js.Ok bound →
  length bound = n ∧ ∀ i, i < n → boundInPool gs boneVertexIndices i (Js.index bound i).
Proof.
  apply (foldM_seq_inv _
           (λ k bound, length bound = k ∧
                       ∀ i, i < k → boundInPool gs boneVertexIndices i (Js.index bound i))).
  { split; [done|]. intros i Hi. lia. }
  intros k b1 b2 _ [Hlen Hcells] Hstep. unfold bindStep in Hstep.
  destruct (Js.index (splatBoneIndices gs) k ≫= _) as [pool|] eqn:Hpool; [|done].
  apply bind_Some in Hpool as (bone & Hbone & Hpool).
  js_bind Hstep. injection Hstep as <-. split.
  { rewrite length_app. simpl. lia. }
  intros i Hi. destruct (decide (i = k)) as [->|Hne].
  - rewrite <- Hlen at 2. rewrite <- (Nat.add_0_r (length b1)).
    rewrite index_snoc_new. unfold Js.index. simpl.
    exists bone, pool. split_and!; [done..|].
    destruct (pool !! a.2) as [v|] eqn:Hv; [right|by left].
    exists v. split; [done|]. by eapply list_elem_of_lookup_2.
  - rewrite index_snoc_old by lia. apply Hcells. lia.
Qed.

Lemma poseStep_inv n bound poses :
  Js.foldM (poseStep character gs bound) [] (seq 0 n) = Js.Ok poses →
  length poses = n * 3 ∧ ∀ i, i < n → offsetStored character gs bound poses i.
Proof.
  apply (foldM_seq_inv _
           (λ k poses, length poses = k * 3 ∧
                       ∀ i, i < k → offsetStored character gs bound poses i)).
  { split; [done|]. intros i Hi. lia. }
  intros k p1 p2 _ [Hlen Hcells] Hstep. unfold poseStep in Hstep.
  js_bind Hstep. injection Hstep as <-. split.
  { rewrite length_app. simpl. lia. }
  intros i Hi. destruct (decide (i = k)) as [->|Hne].
  - exists a. split; [done|].
    rewrite <- (Nat.add_0_r (k * 3)), <- !Nat.add_assoc, <- Hlen.
    rewrite !index_snoc_new. done.
  - destruct (Hcells i) as (skinned & Hskin & H0 & H1 & H2); [lia|].
    exists skinned. rewrite !index_snoc_old by lia. done.
Qed.
End Stage.

(** The second stage on a mesh of more than three vertices, spelled out. *)
Lemma assignSplatsToPoints_inv character gs capsules capsuleBoneIndex fast gs' :
  3 < length (position character) →
  assignSplatsToPoints character gs capsules capsuleBoneIndex fast = Js.Ok gs' →
  ∃ boneVertexIndices,
    classifyVertices character capsules capsuleBoneIndex = Js.Ok boneVertexIndices ∧
    splatCount gs' = splatCount gs ∧
    splatBoneIndices gs' = splatBoneIndices gs ∧
    length (splatVertexIndices gs') = splatCount gs ∧
    length (splatRelativePoses gs') = splatCount gs * 3 ∧
    ∀ i, i < splatCount gs →
      boundInPool gs boneVertexIndices i (Js.index (splatVertexIndices gs') i) ∧
      offsetStored character gs (splatVertexIndices gs') (splatRelativePoses gs') i.
Proof.
  intros Hmesh. unfold assignSplatsToPoints.
  rewrite bool_decide_eq_false_2 by lia. intros Hrun. js_bind Hrun.
  injection Hrun as <-. simpl.
  apply bindStep_inv in E0 as [Hlen Hbound].
  apply poseStep_inv in E1 as [Hlen' Hposes].
  exists a. split_and!; try done.
  intros i Hi. split; [by apply Hbound|by apply Hposes].
Qed.

(** C1. When the binding stage completes on a mesh of more than three
    vertices, every splat's recorded vertex is an element of the vertex
    pool of the splat's own bone.  [applyBoneTransform] is three.js's: it
    reads the bone of the vertex it is given, and throws when the index
    is [undefined]; this is what ends the stage when a pool is empty. *)
Theorem bound_vertex_in_bone_pool character gs capsules capsuleBoneIndex fast gs' :
  (∀ vertex, applyBoneTransform None vertex = Js.Throw Js.TypeError) →
  3 < length (position character) →
  assignSplatsToPoints character gs capsules capsuleBoneIndex fast = Js.Ok gs' →
  ∃ boneVertexIndices,
    classifyVertices character capsules capsuleBoneIndex = Js.Ok boneVertexIndices ∧
    ∀ i, i < splatCount gs' →
      ∃ bone pool v,
        Js.index (splatBoneIndices gs') i = Some bone ∧
        boneVertexIndices !! bone = Some pool ∧
        Js.index (splatVertexIndices gs') i = Some v ∧
        v ∈ pool.
Proof.
  intros Hundefined Hmesh Hrun.
  destruct (assignSplatsToPoints_inv _ _ _ _ _ _ Hmesh Hrun)
    as (pools & Hpools & Hcount & Hbones & _ & _ & Hsplats).
  exists pools. split; [done|]. intros i Hi. rewrite Hcount in Hi.
  destruct (Hsplats i Hi) as [(bone & pool & Hbone & Hpool & Hcell) Hoffset].
  exists bone, pool. rewrite Hbones.
  destruct Hcell as [Hnone|(v & Hv & Hin)]; [|by exists v].
  destruct Hoffset as (skinned & Hskin & _). rewrite Hnone, Hundefined in Hskin.
  discriminate Hskin.
Qed.

(** C3 (as amended). On a mesh of more than three vertices the stored
    offset of every splat is the splat centre moved into the local space
    of the mesh minus the position of the bound vertex as
    [applyBoneTransform] returns it, that is with the skin transform of
    the binding pose applied (not the un-posed attribute value).  On a
    mesh of at most three vertices every splat is bound to vertex 0 with
    a zero offset. *)
Theorem relative_offset_from_skinned_vertex
    character gs capsules capsuleBoneIndex fast gs' :
  assignSplatsToPoints character gs capsules capsuleBoneIndex fast = Js.Ok gs' →
  (3 < length (position character) →
   ∀ i, i < splatCount gs' →
     ∃ skinned,
       applyBoneTransform (Js.index (splatVertexIndices gs') i)
         (fromBufferAttribute (position character)
            (Js.index (splatVertexIndices gs') i)) = Js.Ok skinned ∧
       Js.index (splatRelativePoses gs') (i * 3) =
         Some (x (subVectors (centerInMeshSpace character gs i) skinned)) ∧
       Js.index (splatRelativePoses gs') (i * 3 + 1) =
         Some (y (subVectors (centerInMeshSpace character gs i) skinned)) ∧
       Js.index (splatRelativePoses gs') (i * 3 + 2) =
         Some (z (subVectors (centerInMeshSpace character gs i) skinned))) ∧
  (length (position character) ≤ 3 →
   splatVertexIndices gs' = replicate (splatCount gs') (Some 0) ∧
   splatRelativePoses gs' = replicate (splatCount gs' * 3) (Some zero)).
Proof.
  intros Hrun. split.
  - intros Hmesh i Hi.
    destruct (assignSplatsToPoints_inv _ _ _ _ _ _ Hmesh Hrun)
      as (pools & _ & Hcount & _ & _ & _ & Hsplats).
    rewrite Hcount in Hi. by destruct (Hsplats i Hi) as [_ Hoffset].
  - intros Hmesh. unfold assignSplatsToPoints in Hrun.
    rewrite bool_decide_eq_true_2 in Hrun by done.
    by injection Hrun as <-.
Qed.

Lemma assignSplatsToPoints_length character gs capsules capsuleBoneIndex fast gs' :
  assignSplatsToPoints character gs capsules capsuleBoneIndex fast = Js.Ok gs' →
  splatCount gs' = splatCount gs ∧
  splatBoneIndices gs' = splatBoneIndices gs ∧
  length (splatVertexIndices gs') = splatCount gs ∧
  length (splatRelativePoses gs') = splatCount gs * 3.
Proof.
  intros Hrun.
  destruct (decide (3 < length (position character))) as [Hmesh|Hmesh].
  - destruct (assignSplatsToPoints_inv _ _ _ _ _ _ Hmesh Hrun)
      as (pools & _ & Hcount & Hbones & Hv & Hp & _). done.
  - unfold assignSplatsToPoints in Hrun.
    rewrite bool_decide_eq_true_2 in Hrun by lia.
    injection Hrun as <-. simpl. by rewrite !length_replicate.
Qed.

(** Every archive that loads is index-aligned. *)
Lemma load_aligned {PlyVertex Vrm} (zip : Archive.Zip PlyVertex Vrm) gvrm :
  Archive.load zip = Js.Ok gvrm →
  Archive.gsSplatCount gvrm = length (Archive.splatBoneIndices (Archive.data_json zip)) ∧
  length (Archive.splatBoneIndices (Archive.gsBinding gvrm)) = Archive.gsSplatCount gvrm ∧
  length (Archive.splatVertexIndices (Archive.gsBinding gvrm)) = Archive.gsSplatCount gvrm ∧
  length (Archive.splatRelativePoses (Archive.gsBinding gvrm)) =
    Archive.gsSplatCount gvrm * 3.
Proof.
  intros Hload. apply load_inv in Hload as (Hbinding & _ & Hcount & Hcloud).
  simpl in Hcloud. apply Forall2_length in Hcloud.
  rewrite Hbinding, Hcount, <- Hcloud. unfold Archive.updateExtraData. simpl.
  rewrite sortLoop_order, !length_map, length_bind3.
  rewrite (Permutation_length (regroup_Permutation _)), length_seq. lia.
Qed.

(** C5. After the two binding stages the arrays are index-aligned with
    the splat cloud: as many bone indices and vertex indices as splats,
    and three offset components per splat.  The same holds again, for the
    splat count of the reloaded cloud, after the archive written by
    [save] is read by [load], which regroups the arrays by bone. *)
Theorem binding_arrays_aligned
    character gs capsules capsuleBoneIndex fast fast' gs1 calls gs2 :
  assignSplatsToBones gs capsules capsuleBoneIndex fast = Js.Ok (gs1, calls) →
  assignSplatsToPoints character gs1 capsules capsuleBoneIndex fast' = Js.Ok gs2 →
  (splatCount gs2 = splatCount gs ∧
   length (splatBoneIndices gs2) = splatCount gs2 ∧
   length (splatVertexIndices gs2) = splatCount gs2 ∧
   length (splatRelativePoses gs2) = splatCount gs2 * 3 ∧
   length (splatRelativePoses gs2) / 3 = splatCount gs2) ∧
  (∀ {PlyVertex Vrm} (vrm : Vrm) (ply : list PlyVertex) gvrm,
     Archive.load (Archive.save vrm ply (extraData gs2)) = Js.Ok gvrm →
     Archive.gsSplatCount gvrm = splatCount gs2 ∧
     length (Archive.splatBoneIndices (Archive.gsBinding gvrm)) =
       Archive.gsSplatCount gvrm ∧
     length (Archive.splatVertexIndices (Archive.gsBinding gvrm)) =
       Archive.gsSplatCount gvrm ∧
     length (Archive.splatRelativePoses (Archive.gsBinding gvrm)) =
       Archive.gsSplatCount gvrm * 3 ∧
     length (Archive.splatRelativePoses (Archive.gsBinding gvrm)) / 3 =
       Archive.gsSplatCount gvrm).
Proof.
  intros Hbones Hpoints.
  apply assignSplatsToBones_length in Hbones as [Hc1 Hb1].
  apply assignSplatsToPoints_length in Hpoints as (Hc2 & Hb2 & Hv2 & Hp2).
  assert (length (splatBoneIndices gs2) = splatCount gs2) as Hb
    by (rewrite Hb2, Hc2; congruence).
  split.
  - split_and!; try congruence.
    rewrite Hp2, <- Hc2. apply Nat.div_mul. done.
  - intros PlyVertex Vrm vrm ply gvrm Hload.
    apply load_aligned in Hload as (Hn & Hb' & Hv' & Hp'). simpl in Hn.
    split_and!; try done; [congruence|].
    rewrite Hp'. apply Nat.div_mul. done.
Qed.

End BindingFacts.

Section BindingExample.
Import THREE Binding.
#[local] Existing Instance exampleServices.

Lemma example_bones :
  assignSplatsToBones exampleSplats exampleCapsules exampleCapsuleBoneIndex false
  = Js.Ok (exampleClassified, 4).
Proof. vm_compute. reflexivity. Qed.

Lemma example_points :
  assignSplatsToPoints exampleCharacter exampleClassified exampleCapsules
    exampleCapsuleBoneIndex false = Js.Ok exampleBound.
Proof. vm_compute. reflexivity. Qed.

Lemma bound_vertex_in_bone_pool_witness :
  ∃ boneVertexIndices,
    classifyVertices exampleCharacter exampleCapsules exampleCapsuleBoneIndex
    = Js.Ok boneVertexIndices ∧
    ∀ i, i < splatCount exampleBound →
      ∃ bone pool v,
        Js.index (splatBoneIndices exampleBound) i = Some bone ∧
        boneVertexIndices !! bone = Some pool ∧
        Js.index (splatVertexIndices exampleBound) i = Some v ∧
        v ∈ pool.
Proof.
  apply (bound_vertex_in_bone_pool exampleCharacter exampleClassified
           exampleCapsules exampleCapsuleBoneIndex false exampleBound).
  - intros vertex. reflexivity.
  - simpl. lia.
  - exact example_points.
Defined.

Lemma relative_offset_from_skinned_vertex_witness :
  (3 < length (position exampleCharacter) →
   ∀ i, i < splatCount exampleBound →
     ∃ skinned,
       applyBoneTransform (Js.index (splatVertexIndices exampleBound) i)
         (fromBufferAttribute (position exampleCharacter)
            (Js.index (splatVertexIndices exampleBound) i)) = Js.Ok skinned ∧
       Js.index (splatRelativePoses exampleBound) (i * 3) =
         Some (x (subVectors (centerInMeshSpace exampleCharacter exampleClassified i) skinned)) ∧
       Js.index (splatRelativePoses exampleBound) (i * 3 + 1) =
         Some (y (subVectors (centerInMeshSpace exampleCharacter exampleClassified i) skinned)) ∧
       Js.index (splatRelativePoses exampleBound) (i * 3 + 2) =
         Some (z (subVectors (centerInMeshSpace exampleCharacter exampleClassified i) skinned))) ∧
  (length (position exampleCharacter) ≤ 3 →
   splatVertexIndices exampleBound = replicate (splatCount exampleBound) (Some 0) ∧
   splatRelativePoses exampleBound = replicate (splatCount exampleBound * 3) (Some zero)).
Proof.
  exact (relative_offset_from_skinned_vertex exampleCharacter exampleClassified
           exampleCapsules exampleCapsuleBoneIndex false exampleBound example_points).
Defined.

(** C3 (as stated) fails.  In the example the bone was moved by one unit
    along x when the pose was set.  Splat 0, at (1, 0.5, 0), is bound to
    vertex 0, whose un-posed position is the origin; the claim gives the
    offset (1, 0.5, 0), the stage stores (0, 0.5, 0). *)
Lemma offset_is_not_from_unposed_vertex :
  assignSplatsToPoints exampleCharacter exampleClassified exampleCapsules
    exampleCapsuleBoneIndex false = Js.Ok exampleBound ∧
  Js.index (splatVertexIndices exampleBound) 0 = Some 0 ∧
  Js.index (splatRelativePoses exampleBound) 0 = Some 0%float ∧
  x (subVectors (centerInMeshSpace exampleCharacter exampleClassified 0)
       (fromBufferAttribute (position exampleCharacter) (Some 0))) = 1%float ∧
  Js.index (splatRelativePoses exampleBound) 0 ≠
    Some (x (subVectors (centerInMeshSpace exampleCharacter exampleClassified 0)
               (fromBufferAttribute (position exampleCharacter) (Some 0)))).
Proof.
  split; [exact example_points|].
  split_and!; try (vm_compute; reflexivity).
  vm_compute. intros Heq. discriminate Heq.
Qed.

Lemma binding_arrays_aligned_witness :
  (splatCount exampleBound = splatCount exampleSplats ∧
   length (splatBoneIndices exampleBound) = splatCount exampleBound ∧
   length (splatVertexIndices exampleBound) = splatCount exampleBound ∧
   length (splatRelativePoses exampleBound) = splatCount exampleBound * 3 ∧
   length (splatRelativePoses exampleBound) / 3 = splatCount exampleBound) ∧
  (∀ {PlyVertex Vrm} (vrm : Vrm) (ply : list PlyVertex) gvrm,
     Archive.load (Archive.save vrm ply (extraData exampleBound)) = Js.Ok gvrm →
     Archive.gsSplatCount gvrm = splatCount exampleBound ∧
     length (Archive.splatBoneIndices (Archive.gsBinding gvrm)) =
       Archive.gsSplatCount gvrm ∧
     length (Archive.splatVertexIndices (Archive.gsBinding gvrm)) =
       Archive.gsSplatCount gvrm ∧
     length (Archive.splatRelativePoses (Archive.gsBinding gvrm)) =
       Archive.gsSplatCount gvrm * 3 ∧
     length (Archive.splatRelativePoses (Archive.gsBinding gvrm)) / 3 =
       Archive.gsSplatCount gvrm).
Proof.
  exact (binding_arrays_aligned exampleCharacter exampleSplats exampleCapsules
           exampleCapsuleBoneIndex false false exampleClassified 4 exampleBound
           example_bones example_points).
Defined.

End BindingExample.

Section CalibrationFacts.
Import Calibration.

Lemma radius_below_cap j : j < 27 → (radiusAfter j <? 3.0)%float = true.
Proof.
  intros Hj.
  assert (forallb (λ j, (radiusAfter j <? 3.0)%float) (seq 0 27) = true) as Hall
    by (vm_compute; reflexivity).
  rewrite forallb_forall in Hall. apply Hall, in_seq. lia.
Qed.

Lemma radius_at_cap : (radiusAfter 27 <? 3.0)%float = false.
Proof. vm_compute. reflexivity. Qed.

Lemma length_List_filter {A} (p : A → bool) (l : list A) :
  length (List.filter p l) ≤ length l.
Proof. induction l as [|a l IH]; simpl; [done|]. destruct (p a); simpl; lia. Qed.

(** A cloud of fewer than 10,000 points is rejected at every radius and
    for every height band. *)
Lemma rejected_small vertices centroid distXZ heights :
  (Z.of_nat (length vertices) < 10000)%Z →
  rejected vertices centroid distXZ heights = true.
Proof.
  intros Hsmall. unfold rejected.
  pose proof (length_List_filter
    (λ vertex, (distanceXZ centroid vertex <? distXZ)%float &&
               ((max heights - min heights) * 0.05 + min heights <? - y vertex)%float &&
               (- y vertex <? max heights)%float) vertices) as Hle.
  fold (testFilteredVertices vertices centroid distXZ heights) in Hle.
  assert ((Z.of_nat (length (testFilteredVertices vertices centroid distXZ heights))
           <? 10000)%Z = true) as -> by (apply Z.ltb_lt; lia).
  done.
Qed.

Section Retries.
Variables (hints : option Hints) (vertices : list Vertex).
Variables (centroid : Centroid) (thresh : float).

Lemma calculateHeights_from d : ∀ k heights centroidArg fuel,
  k + d = 27 → d < fuel →
  default {| cx := 0; cz := 0 |} centroidArg = centroid →
  ∃ r,
    calculateHeights fuel hints vertices heights centroidArg (radiusAfter k) thresh
    = Some r ∧
    (rejectedFrom hints vertices centroid thresh k →
     ∃ e, r = Js.Throw e ∧
          (e = Js.ErrorID6 (radiusAfter 27) ∨ e = Js.NoValidVertices ∨
           e = Js.MaxDifferenceInfinity) ∧
          (measurableFrom hints vertices centroid thresh k → e = Js.ErrorID6 (radiusAfter 27))).
Proof.
  induction d as [|d IH]; intros k heights centroidArg fuel Hk Hfuel Hc;
    (destruct fuel as [|fuel]; [lia|]); simpl; rewrite Hc.
  - (* at the cap: no retry is left *)
    assert (k = 27) as -> by lia.
    destruct (measureHeights _ _ _ _ _) as [h|e] eqn:Hm.
    + destruct (rejected _ _ _ h) eqn:Hr.
      * change (0.3 + 0.1 + 0.1 + 0.1 + 0.1 + 0.1 + 0.1 + 0.1 + 0.1 + 0.1 + 0.1
                + 0.1 + 0.1 + 0.1 + 0.1 + 0.1 + 0.1 + 0.1 + 0.1 + 0.1 + 0.1 + 0.1
                + 0.1 + 0.1 + 0.1 + 0.1 + 0.1 + 0.1)%float with (radiusAfter 27).
        rewrite radius_at_cap. eexists. split; [done|].
        intros _. eexists. split; [done|]. split; [by left|done].
      * eexists. split; [done|]. intros Hrej.
        rewrite (Hrej 27 h) in Hr; [done|lia|done].
    + eexists. split; [done|]. intros _. exists e. split; [done|].
      assert (measureHeights hints vertices centroid (radiusAfter 27) thresh
              = Js.Throw e) as Hm' by exact Hm.
      split.
      * clear -Hm'. unfold measureHeights in Hm'.
        repeat (match type of Hm' with
                | match ?t with _ => _ end = _ => destruct t
                end; try discriminate Hm');
          injection Hm' as <-; auto.
      * intros Hmeas. destruct (Hmeas 27) as [h Hh]; [lia|]. congruence.
  - (* below the cap: a rejected measurement is retried *)
    assert (k < 27) as Hlt by lia.
    destruct (measureHeights hints vertices centroid (radiusAfter k) thresh)
      as [h|e] eqn:Hm.
    + destruct (rejected vertices centroid (radiusAfter k) h) eqn:Hr.
      * rewrite radius_below_cap by done.
        destruct (IH (S k) (Some h) (Some centroid) fuel) as (r & Hrun & Hspec);
          [lia|lia|done|].
        exists r. split; [exact Hrun|].
        intros Hrej. destruct Hspec as (e & -> & Hkind & Hmeas).
        { intros j h' Hj. apply Hrej. lia. }
        exists e. split; [done|]. split; [done|].
        intros Hall. apply Hmeas. intros j Hj. apply Hall. lia.
      * eexists. split; [done|]. intros Hrej.
        rewrite (Hrej k h) in Hr; [done|lia|done].
    + eexists. split; [done|]. intros _. exists e. split; [done|].
      split.
      * clear -Hm. unfold measureHeights in Hm.
        repeat (match type of Hm with
                | match ?t with _ => _ end = _ => destruct t
                end; try discriminate Hm);
          injection Hm as <-; auto.
      * intros Hmeas. destruct (Hmeas k) as [h Hh]; [lia|]. congruence.
Qed.
End Retries.

(** C7 (as amended). A calibration started at radius 0.3 is at its
    [k]-th retry at radius [radiusAfter k]: 0.1 more per retry.  The
    radius is below 3.0 for the first 27 values and is
    3.0000000000000013 at the 28th, where a rejected measurement is not
    retried.  If every measurement from the [k]-th retry on is rejected,
    the call ends, within [28 - k] calls, by throwing: the error is
    ErrorID 6 at the last radius when every measurement could be taken,
    and otherwise the error of the measurement that could not ('No valid
    vertices found', or 'maxDifference is -Infinity'). *)
Theorem calculateHeights_fails_at_cap hints vertices heights centroid thresh k fuel :
  k ≤ 27 → 27 - k < fuel →
  rejectedFrom hints vertices (default {| cx := 0; cz := 0 |} centroid) thresh k →
  ∃ e,
    calculateHeights fuel hints vertices heights centroid (radiusAfter k) thresh
    = Some (Js.Throw e) ∧
    (e = Js.ErrorID6 (radiusAfter 27) ∨ e = Js.NoValidVertices ∨
     e = Js.MaxDifferenceInfinity) ∧
    (measurableFrom hints vertices (default {| cx := 0; cz := 0 |} centroid) thresh k →
     e = Js.ErrorID6 (radiusAfter 27)) ∧
    (∀ j, j < 27 → (radiusAfter j <? 3.0)%float = true) ∧
    (radiusAfter 27 <? 3.0)%float = false.
Proof.
  intros Hk Hfuel Hrej.
  destruct (calculateHeights_from hints vertices
              (default {| cx := 0; cz := 0 |} centroid) thresh (27 - k)
              k heights centroid fuel) as (r & Hrun & Hspec); [lia|lia|done|].
  destruct (Hspec Hrej) as (e & -> & Hkind & Hmeas).
  exists e. split; [done|]. split; [done|]. split; [done|].
  split; [apply radius_below_cap|apply radius_at_cap].
Qed.

Lemma lonePoint_measurable :
  measurableFrom None lonePoint {| cx := 0; cz := 0 |} 1 0.
Proof.
  assert (forallb
            (λ j, match measureHeights None lonePoint {| cx := 0; cz := 0 |}
                          (radiusAfter j) 1 with
                  | Js.Ok _ => true
                  | Js.Throw _ => false
                  end) (seq 0 28) = true) as Hall by (vm_compute; reflexivity).
  rewrite forallb_forall in Hall. intros j Hj.
  specialize (Hall j). rewrite in_seq in Hall.
  destruct (measureHeights _ _ _ _ _) as [h|e]; [by exists h|].
  discriminate Hall. lia.
Qed.

Lemma calculateHeights_fails_at_cap_witness :
  ∃ e,
    calculateHeights 28 None lonePoint None None (radiusAfter 0) 1 = Some (Js.Throw e) ∧
    (e = Js.ErrorID6 (radiusAfter 27) ∨ e = Js.NoValidVertices ∨
     e = Js.MaxDifferenceInfinity) ∧
    (measurableFrom None lonePoint (default {| cx := 0; cz := 0 |} None) 1 0 →
     e = Js.ErrorID6 (radiusAfter 27)) ∧
    (∀ j, j < 27 → (radiusAfter j <? 3.0)%float = true) ∧
    (radiusAfter 27 <? 3.0)%float = false.
Proof.
  apply (calculateHeights_fails_at_cap None lonePoint None None 1 0 28).
  - lia.
  - lia.
  - intros j h _ _. apply rejected_small. simpl. lia.
Defined.

(** C7 (as stated) fails.  The cloud [farPoint] has a single point, so at
    no radius and for no height band does it have 10,000 points in the
    band: it is rejected everywhere.  The calibration ends at once with
    'No valid vertices found for height calculation', which is not
    ErrorID 6: its only point is outside the vertical range of the
    measurement. *)
Lemma farPoint_other_error :
  (∀ centroid distXZ heights, rejected farPoint centroid distXZ heights = true) ∧
  calculateHeights 28 None farPoint None None 0.3 1 = Some (Js.Throw Js.NoValidVertices) ∧
  (∀ distXZ, Js.NoValidVertices ≠ Js.ErrorID6 distXZ).
Proof.
  split_and!.
  - intros centroid distXZ heights. apply rejected_small. simpl. lia.
  - vm_compute. reflexivity.
  - intros distXZ. discriminate.
Qed.

Lemma filterM_split {A} (p q : A → Js.result bool) (l l1 l2 : list A) :
  Forall (λ a, ∀ b c, p a = Js.Ok b → q a = Js.Ok c → c = negb b) l →
  Js.filterM p l = Js.Ok l1 → Js.filterM q l = Js.Ok l2 → l ≡ₚ l1 ++ l2.
Proof.
  intros Hall. revert l1 l2.
  induction Hall as [|a l Ha _ IH]; intros l1 l2 H1 H2; simpl in H1, H2.
  - injection H1 as <-. by injection H2 as <-.
  - js_bind H1. js_bind H2. injection H1 as <-. injection H2 as <-.
    rewrite (Ha _ _ eq_refl eq_refl). specialize (IH _ _ eq_refl eq_refl).
    destruct a0; simpl.
    + by constructor.
    + by rewrite <- Permutation_middle; constructor.
Qed.

Lemma filterM_elem {A} (p : A → Js.result bool) (l l1 : list A) a :
  Js.filterM p l = Js.Ok l1 → a ∈ l1 → a ∈ l.
Proof.
  revert l1. induction l as [|a' l IH]; intros l1 Hrun Ha; simpl in Hrun.
  - injection Hrun as <-. done.
  - js_bind Hrun. injection Hrun as <-.
    destruct a0; [apply elem_of_cons in Ha as [->|Ha]|];
      [by left|right; by eapply IH..].
Qed.

(** Two filters whose predicates exclude each other leave behind what
    fails both. *)
Lemma List_filter_split3 {A} (p q : A → bool) (l : list A) :
  Forall (λ a, p a = true → q a = false) l →
  l ≡ₚ List.filter p l ++ List.filter q l ++
       List.filter (λ a, negb (p a) && negb (q a)) l.
Proof.
  induction 1 as [|a l Ha _ IH]; simpl; [done|].
  destruct (p a) eqn:Hp; simpl.
  - rewrite (Ha eq_refl). simpl. by constructor.
  - destruct (q a); simpl.
    + by rewrite <- Permutation_middle; constructor.
    + rewrite app_assoc, <- Permutation_middle, <- app_assoc. by constructor.
Qed.

(** No vertex passes both band filters. *)
Lemma inBand_outOfBand centroid distXZ heights vertex :
  inBand centroid distXZ heights vertex = true →
  outOfBand centroid distXZ heights vertex = false.
Proof.
  unfold inBand, outOfBand. intros [[Hd Hlo]%andb_true_iff Hhi]%andb_true_iff.
  by rewrite (leb_ltb_false _ _ Hd), (leb_ltb_false _ _ Hlo), (leb_ltb_false _ _ Hhi).
Qed.

(** A vertex whose two compared numbers are numbers passes one of them. *)
Lemma band_complement centroid distXZ heights vertex :
  is_nan distXZ = false →
  is_nan (min heights - 0.5)%float = false →
  is_nan (max heights + 0.5)%float = false →
  comparable centroid vertex →
  outOfBand centroid distXZ heights vertex =
  negb (inBand centroid distXZ heights vertex).
Proof.
  intros Hd Hlo Hhi (Hy & Hdist). unfold inBand, outOfBand.
  rewrite (leb_negb_ltb _ _ Hdist Hd), (leb_negb_ltb _ _ Hlo Hy),
    (leb_negb_ltb _ _ Hy Hhi).
  by destruct (_ <? _)%float, (_ <? _)%float, (_ <? _)%float.
Qed.

(** The vertices that the band filters lose: a [NaN] height that the
    radius test does not send to the background, or a [NaN] distance
    that the height tests do not send there. *)
Lemma lostAtBand_nan centroid distXZ heights vertex :
  is_nan distXZ = false →
  is_nan (min heights - 0.5)%float = false →
  is_nan (max heights + 0.5)%float = false →
  lostAtBand centroid distXZ heights vertex = true ↔
  (is_nan (- y vertex)%float = true ∧
   (distXZ <? distanceXZ centroid vertex)%float = false) ∨
  (is_nan (distanceXZ centroid vertex) = true ∧
   (- y vertex <? min heights - 0.5)%float = false ∧
   (max heights + 0.5 <? - y vertex)%float = false).
Proof.
  intros Hd Hlo Hhi. unfold lostAtBand. split.
  - intros [Hin%negb_true_iff Hout%negb_true_iff]%andb_true_iff.
    destruct (is_nan (- y vertex)%float) eqn:Hy.
    + left. split; [done|]. unfold outOfBand in Hout.
      by apply orb_false_iff in Hout as [[? _]%orb_false_iff _].
    + destruct (is_nan (distanceXZ centroid vertex)) eqn:Hdist.
      * right. unfold outOfBand in Hout.
        by apply orb_false_iff in Hout as [[_ ?]%orb_false_iff ?].
      * rewrite (band_complement _ _ _ _ Hd Hlo Hhi), Hin in Hout; [done|].
        by split.
  - unfold inBand, outOfBand. intros [[Hy Hout]|(Hdist & Hbelow & Habove)].
    + by rewrite (leb_nan_r _ _ Hy), (ltb_nan_l _ _ Hy), (ltb_nan_r _ _ Hy), Hout,
        andb_false_r.
    + by rewrite (leb_nan_l _ _ Hdist), (ltb_nan_r _ _ Hdist), Hbelow, Habove.
Qed.

(** The numbers of a vertex inside the band are numbers, its distance to
    the vertical axis too. *)
Lemma inBand_numbers centroid distXZ heights vertex :
  inBand centroid distXZ heights vertex = true →
  is_nan (- y vertex)%float = false ∧ is_nan (axisDistance vertex) = false.
Proof.
  unfold inBand. intros [[Hd Hlo]%andb_true_iff _]%andb_true_iff.
  apply leb_not_nan in Hd as [Hd _]. apply leb_not_nan in Hlo as [_ Hy].
  split; [done|]. unfold axisDistance.
  destruct (is_nan (x vertex)) eqn:Hx, (is_nan (z vertex)) eqn:Hz;
    try (by apply hypot_not_nan);
    unfold distanceXZ in Hd; rewrite hypot_nan in Hd; auto; discriminate Hd.
Qed.

Lemma shoes_complement frequencyMap heights vertex b c :
  (min heights <=? (max heights - min heights) * 0.05 + min heights)%float = true →
  is_nan (- y vertex)%float = false →
  is_nan (axisDistance vertex) = false →
  keptByShoes frequencyMap heights vertex = Js.Ok b →
  discardedByShoes frequencyMap heights vertex = Js.Ok c →
  c = negb b.
Proof.
  intros Hmin Hy Haxis. unfold keptByShoes, discardedByShoes.
  set (ymin := ((max heights - min heights) * 0.05 + min heights)%float) in *.
  destruct (leb_not_nan _ _ Hmin) as [Hnmin Hnymin].
  assert (is_nan 0.5%float = false) as Hhalf by reflexivity.
  rewrite (leb_negb_ltb _ _ Hhalf Haxis).
  pose proof (leb_negb_ltb _ _ Hnmin Hy) as Hb.
  pose proof (leb_negb_ltb _ _ Hnymin Hy) as Ha'.
  destruct (ymin <=? - y vertex)%float eqn:Ha.
  - (* at or above five percent of the height: kept *)
    pose proof (leb_trans _ _ _ Hmin Ha) as Hb'. rewrite Hb' in Hb.
    symmetry in Hb, Ha'. apply negb_true_iff in Hb, Ha'. rewrite Hb, Ha'. simpl.
    intros [= <-] [= <-]. done.
  - symmetry in Ha'. apply negb_false_iff in Ha'.
    rewrite Ha', (ltb_leb _ _ Ha'), Hb.
    destruct (- y vertex <? min heights)%float; simpl.
    { intros [= <-] [= <-]. done. }
    destruct (axisDistance vertex <? 0.5)%float; simpl.
    + intros Hkept Hdisc. js_bind Hdisc.
      injection Hkept as <-. by injection Hdisc as <-.
    + intros [= <-] [= <-]. done.
Qed.

(** C10 (as amended). Every vertex of the input cloud is, exactly once,
    in the foreground cloud written by [cleanSplats], in the background
    cloud, or among the vertices that fail both band filters; only the
    last are written to neither file.  A vertex fails both band filters
    exactly when its height is [NaN] and its distance to the centroid is
    not above the radius, or that distance is [NaN] and its height is
    not outside the band.  So a cloud without such numbers is split
    between the two files, no vertex dropped and none duplicated.  The
    radius and the two bounds of the band are taken not to be [NaN], and
    the floor of the last calibration pass to be at most the 5% level
    [(max - min) * 0.05 + min] computed from it. *)
Theorem split_is_partition
    vertices centroid distXZ heights centroid3 heights3 foreground background :
  is_nan distXZ = false →
  is_nan (min heights - 0.5)%float = false →
  is_nan (max heights + 0.5)%float = false →
  (min heights3 <=? (max heights3 - min heights3) * 0.05 + min heights3)%float = true →
  splitCloud vertices centroid distXZ heights centroid3 heights3
  = Js.Ok (foreground, background) →
  vertices ≡ₚ foreground ++ background ++
              List.filter (lostAtBand centroid distXZ heights) vertices ∧
  (∀ vertex,
     lostAtBand centroid distXZ heights vertex = true ↔
     (is_nan (- y vertex)%float = true ∧
      (distXZ <? distanceXZ centroid vertex)%float = false) ∨
     (is_nan (distanceXZ centroid vertex) = true ∧
      (- y vertex <? min heights - 0.5)%float = false ∧
      (max heights + 0.5 <? - y vertex)%float = false)) ∧
  (Forall (comparable centroid) vertices → vertices ≡ₚ foreground ++ background).
Proof.
  intros Hd Hlo Hhi Hmin Hrun. unfold splitCloud, detectShoes in Hrun.
  js_bind Hrun. js_bind E. injection E as <-. injection Hrun as <- <-. simpl.
  rename a1 into f3, a2 into f4.
  set (f6 := filteredVertices6 vertices centroid distXZ heights) in *.
  set (f7 := filteredVertices7 vertices centroid distXZ heights) in *.
  set (lost := List.filter (lostAtBand centroid distXZ heights) vertices).
  assert (vertices ≡ₚ f6 ++ f7 ++ lost) as Hband.
  { apply (List_filter_split3 (inBand centroid distXZ heights)
             (outOfBand centroid distXZ heights)).
    apply Forall_forall. intros vertex _. apply inBand_outOfBand. }
  assert (f6 ≡ₚ f3 ++ f4) as Hshoes.
  { eapply filterM_split; [|exact E1|exact E2].
    apply Forall_forall. intros vertex Hv b c.
    unfold f6, filteredVertices6 in Hv.
    apply list_elem_of_In, filter_In in Hv as [_ Hv].
    destruct (inBand_numbers _ _ _ _ Hv) as [Hy Haxis].
    by apply shoes_complement. }
  assert (vertices ≡ₚ f3 ++ (f7 ++ f4) ++ lost) as Hsplit.
  { rewrite Hband, Hshoes, <- !app_assoc. apply Permutation_app_head.
    rewrite !app_assoc. apply Permutation_app_tail, Permutation_app_comm. }
  split_and!.
  - exact Hsplit.
  - intros vertex. by apply lostAtBand_nan.
  - intros Hall. rewrite Hsplit.
    replace lost with (@nil Vertex); [by rewrite app_nil_r|].
    symmetry. unfold lost. clear -Hall Hd Hlo Hhi.
    induction Hall as [|vertex l Hv _ IH]; simpl; [done|].
    unfold lostAtBand at 1.
    rewrite (band_complement _ _ _ _ Hd Hlo Hhi Hv).
    by destruct (inBand _ _ _ vertex).
Qed.

Lemma split_is_partition_witness :
  brokenPoint :: brokenAbscissa :: exampleCloud ≡ₚ
    [ {| x := 0; y := (-1)%float; z := 0; rawData := [] |} ] ++
    [ brokenAbscissa; {| x := 0.1; y := (-0.02)%float; z := 0; rawData := [] |} ] ++
    List.filter (lostAtBand {| cx := 0; cz := 0 |} 1 exampleHeights)
                (brokenPoint :: brokenAbscissa :: exampleCloud) ∧
  (∀ vertex,
     lostAtBand {| cx := 0; cz := 0 |} 1 exampleHeights vertex = true ↔
     (is_nan (- y vertex)%float = true ∧
      (1 <? distanceXZ {| cx := 0; cz := 0 |} vertex)%float = false) ∨
     (is_nan (distanceXZ {| cx := 0; cz := 0 |} vertex) = true ∧
      (- y vertex <? min exampleHeights - 0.5)%float = false ∧
      (max exampleHeights + 0.5 <? - y vertex)%float = false)) ∧
  (Forall (comparable {| cx := 0; cz := 0 |})
          (brokenPoint :: brokenAbscissa :: exampleCloud) →
   brokenPoint :: brokenAbscissa :: exampleCloud ≡ₚ
     [ {| x := 0; y := (-1)%float; z := 0; rawData := [] |} ] ++
     [ brokenAbscissa; {| x := 0.1; y := (-0.02)%float; z := 0; rawData := [] |} ]).
Proof.
  apply (split_is_partition (brokenPoint :: brokenAbscissa :: exampleCloud)
           {| cx := 0; cz := 0 |} 1 exampleHeights
           {| cx := 0; cz := 0 |} exampleHeights).
  - reflexivity.
  - reflexivity.
  - reflexivity.
  - reflexivity.
  - vm_compute. reflexivity.
Defined.

(** C10 (as stated) fails.  A vertex whose height is [NaN] is in neither
    of the two clouds: every comparison of both band filters is false
    for it. *)
Lemma broken_point_dropped :
  splitCloud (brokenPoint :: exampleCloud) {| cx := 0; cz := 0 |} 1 exampleHeights
    {| cx := 0; cz := 0 |} exampleHeights
  = Js.Ok ([ {| x := 0; y := (-1)%float; z := 0; rawData := [] |} ],
           [ {| x := 0.1; y := (-0.02)%float; z := 0; rawData := [] |} ]) ∧
  (min exampleHeights <? max exampleHeights)%float = true ∧
  ¬ (brokenPoint :: exampleCloud ≡ₚ
       [ {| x := 0; y := (-1)%float; z := 0; rawData := [] |} ] ++
       [ {| x := 0.1; y := (-0.02)%float; z := 0; rawData := [] |} ]).
Proof.
  split_and!.
  - vm_compute. reflexivity.
  - reflexivity.
  - intros Hperm. apply Permutation_length in Hperm. discriminate Hperm.
Qed.

(** Not every vertex with a [NaN] coordinate is lost: one that passes a
    comparison of [filteredVertices7] is written to the background.
    Here the abscissa is [NaN] and the height is far above the head. *)
Lemma broken_abscissa_in_background :
  splitCloud (brokenAbscissa :: exampleCloud) {| cx := 0; cz := 0 |} 1 exampleHeights
    {| cx := 0; cz := 0 |} exampleHeights
  = Js.Ok ([ {| x := 0; y := (-1)%float; z := 0; rawData := [] |} ],
           [ brokenAbscissa;
             {| x := 0.1; y := (-0.02)%float; z := 0; rawData := [] |} ]) ∧
  is_nan (x brokenAbscissa) = true ∧
  lostAtBand {| cx := 0; cz := 0 |} 1 exampleHeights brokenAbscissa = false ∧
  lostAtBand {| cx := 0; cz := 0 |} 1 exampleHeights brokenPoint = true.
Proof. split_and!; vm_compute; reflexivity. Qed.

End CalibrationFacts.

Section PreprocessFacts.
Import Calibration Preprocess.

(** The counter only increases. *)
Lemma countRetry_increases h :
  (retryCount (Some h) < retryCount (countRetry (Some h)))%Z ∨
  (retryCount (Some h) < 0 ∧ retryCount (countRetry (Some h)) = retryCount (Some h) + 1)%Z.
Proof.
  unfold retryCount, countRetry. simpl.
  destruct (retry h) as [n|]; simpl; [|lia].
  destruct (Z.eqb_spec n 0); simpl; lia.
Qed.

Lemma countRetry_positive h :
  (0 ≤ retryCount (Some h))%Z →
  (1 ≤ retryCount (countRetry (Some h)))%Z ∧
  (retryCount (Some h) < retryCount (countRetry (Some h)))%Z.
Proof.
  unfold retryCount, countRetry. simpl.
  destruct (retry h) as [n|]; simpl; [|lia].
  destruct (Z.eqb_spec n 0); simpl; lia.
Qed.

(** Once the counter has reached 1, the next failure is final. *)
Lemma no_retry_after_one h :
  (1 ≤ retryCount (Some h))%Z → mayRetry (countRetry (Some h)) = false.
Proof.
  unfold retryCount, countRetry, mayRetry. simpl.
  destruct (retry h) as [n|]; simpl; [|lia]. intros Hn.
  destruct (Z.eqb_spec n 0); [lia|]. apply Z.leb_gt. lia.
Qed.

Lemma retried_once counted :
  mayRetry counted = true → (1 ≤ retryCount counted)%Z →
  ∃ h, counted = Some h ∧ retryCount (Some h) = 1%Z.
Proof.
  destruct counted as [h|]; [|done]. unfold mayRetry, retryCount. simpl.
  destruct (retry h) as [n|] eqn:Hretry; [|done]. simpl.
  intros Hle%Z.leb_le Hge. exists h. split; [done|]. simpl.
  rewrite Hretry. simpl. lia.
Qed.

(** One run of the body of [preprocess]. *)
Lemma preprocess_run fuel world attempt hints :
  preprocess (S fuel) world attempt hints =
  match world attempt hints with
  | Completed => Some (ResultRecord, [])
  | failure =>
      let thrown := match failure with
                    | GroundCheckFailed knee => groundCheckHints hints knee
                    | _ => hints
                    end in
      let counted := countRetry thrown in
      if mayRetry counted then
        match disposeCircles (circlesAt failure).1 (circlesAt failure).2 with
        | Js.Throw e => Some (Rejected e, [])
        | Js.Ok _ =>
            match preprocess fuel world (S attempt) counted with
            | Some (outcome, events) => Some (outcome, Retry counted :: events)
            | None => None
            end
        end
      else Some (ErrorRecord, [SaveError])
  end.
Proof. reflexivity. Qed.

(** The second run: its hints carry the counter 1, so it does not retry. *)
Lemma preprocess_second fuel world attempt h :
  retryCount (Some h) = 1%Z →
  preprocess (S fuel) world attempt (Some h) =
  Some match world attempt (Some h) with
       | Completed => (ResultRecord, [])
       | _ => (ErrorRecord, [SaveError])
       end.
Proof.
  intros Hone. cbn [preprocess].
  destruct (world attempt (Some h)) as [|knee|circle circleHead]; [done|done|].
  by rewrite no_retry_after_one by lia.
Qed.

Lemma counted_once thrown :
  (0 ≤ retryCount thrown)%Z → mayRetry (countRetry thrown) = true →
  ∃ h1, countRetry thrown = Some h1 ∧ retryCount (Some h1) = 1%Z.
Proof.
  intros Hfresh Hmay. destruct thrown as [h|]; [|done].
  apply retried_once; [done|]. by apply countRetry_positive.
Qed.

(** What a retry leaves behind: the hints it was taken with carry the
    counter 1, those hints allow no further retry whichever way the
    second run fails, and the second run decides the outcome. *)
Lemma retried_run fuel world h1 :
  retryCount (Some h1) = 1%Z → mayRetry (Some h1) = true →
  ∃ outcome events,
    match preprocess (S fuel) world 1 (Some h1) with
    | Some (outcome, events) => Some (outcome, Retry (Some h1) :: events)
    | None => None
    end = Some (outcome, events) ∧
    events = Retry (Some h1) :: match world 1 (Some h1) with
                                | Completed => []
                                | _ => [SaveError]
                                end ∧
    secondRun world (Some h1) outcome events.
Proof.
  intros Hcount Hmay. rewrite (preprocess_second fuel world 1 h1 Hcount).
  unfold secondRun.
  destruct (world 1 (Some h1)) as [|knee|circle circleHead]; by eexists _, _.
Qed.

(** C8. A call of [preprocess] whose hints carry no retry count (or a
    count that is not negative) always ends, after at most two runs of
    its body.  The [catch] clause raises the counter before it tests it
    and retries only while the counter is at most 1: a retry is taken
    with the counter at exactly 1, and the run it starts cannot retry,
    since its failure raises the counter above 1 or, in the ground
    check, clears the hints; that failure writes the diagnostic record
    with [saveError] and returns the error record.  The first run
    decides the rest: a failure of the ground check is retried with the
    knee height when the call had no hints and is final when it had; any
    other failure is final without hints or with a counter that has
    reached 1, and is retried otherwise, unless [circle] is set and
    [circleHead] is not, where the clean-up before the retry throws a
    TypeError: then there is no retry and no record.  The record of a
    completed run is returned only for a run that completed. *)
Theorem retry_at_most_once world hints fuel :
  (0 ≤ retryCount hints)%Z → 2 ≤ fuel →
  ∃ outcome events,
    preprocess fuel world 0 hints = Some (outcome, events) ∧
    length (List.filter isRetry events) ≤ 1 ∧
    (∀ hints', Retry hints' ∈ events →
       mayRetry hints' = true ∧ retryCount hints' = 1%Z ∧
       (∀ h', hints' = Some h' → mayRetry (countRetry (Some h')) = false) ∧
       (∀ knee, mayRetry (countRetry (groundCheckHints hints' knee)) = false) ∧
       secondRun world hints' outcome events) ∧
    match world 0 hints with
    | Completed => outcome = ResultRecord ∧ events = []
    | GroundCheckFailed knee =>
        match hints with
        | Some _ => outcome = ErrorRecord ∧ events = [SaveError]
        | None =>
            hd_error events =
              Some (Retry (Some {| kneeHeight := Some knee; retry := Some 1%Z |}))
        end
    | Failed circle circleHead =>
        if mayRetry (countRetry hints) then
          if (circle && negb circleHead)
          then outcome = Rejected Js.TypeError ∧ events = []
          else hd_error events = Some (Retry (countRetry hints))
        else outcome = ErrorRecord ∧ events = [SaveError]
    end ∧
    (outcome = ErrorRecord ↔ last events = Some SaveError) ∧
    (outcome = ResultRecord →
     (SaveError ∉ events) ∧
     (world 0 hints = Completed ∨
      ∃ hints', events = [Retry hints'] ∧ world 1 hints' = Completed)).
Proof.
  intros Hfresh Hfuel.
  destruct fuel as [|[|fuel]]; [lia|lia|].
  assert (∀ thrown, (0 ≤ retryCount thrown)%Z → mayRetry (countRetry thrown) = true →
            ∃ outcome events,
              match preprocess (S fuel) world 1 (countRetry thrown) with
              | Some (outcome, events) =>
                  Some (outcome, Retry (countRetry thrown) :: events)
              | None => None
              end = Some (outcome, events) ∧
              length (List.filter isRetry events) ≤ 1 ∧
              (∀ hints', Retry hints' ∈ events →
                 mayRetry hints' = true ∧ retryCount hints' = 1%Z ∧
                 (∀ h', hints' = Some h' → mayRetry (countRetry (Some h')) = false) ∧
                 (∀ knee, mayRetry (countRetry (groundCheckHints hints' knee)) = false) ∧
                 secondRun world hints' outcome events) ∧
              hd_error events = Some (Retry (countRetry thrown)) ∧
              (outcome = ErrorRecord ↔ last events = Some SaveError) ∧
              (outcome = ResultRecord →
               (SaveError ∉ events) ∧
               ∃ hints', events = [Retry hints'] ∧ world 1 hints' = Completed))
    as Hretried.
  { intros thrown Hthrown Hmay.
    destruct (counted_once thrown Hthrown Hmay) as (h1 & Hh1 & Hcount).
    rewrite Hh1 in *.
    destruct (retried_run fuel world h1 Hcount Hmay) as (outcome & events & -> & Hev & Hsecond).
    exists outcome, events. split; [done|].
    assert (∀ hints', Retry hints' ∈ events → hints' = Some h1) as Honly.
    { intros hints' Hin. rewrite Hev in Hin.
      apply elem_of_cons in Hin as [[= ->]|Hin]; [done|].
      destruct (world 1 (Some h1)); [by apply elem_of_nil in Hin| |];
        apply list_elem_of_singleton in Hin; discriminate Hin. }
    split_and!.
    - rewrite Hev. by destruct (world 1 (Some h1)).
    - intros hints' Hin. rewrite (Honly _ Hin). split_and!; try done.
      intros h' [= <-]. apply no_retry_after_one. lia.
    - by rewrite Hev.
    - unfold secondRun in Hsecond.
      destruct (world 1 (Some h1)); destruct Hsecond as [-> ->]; simpl; split; done.
    - intros ->. unfold secondRun in Hsecond.
      destruct (world 1 (Some h1)) eqn:Hworld; destruct Hsecond as [Ho ->]; try done.
      split; [|by exists (Some h1)].
      intros Hin. apply list_elem_of_singleton in Hin. discriminate Hin. }
  assert (∀ outcome events,
            (outcome, events) = (ErrorRecord, [SaveError]) →
            length (List.filter isRetry events) ≤ 1 ∧
            (∀ hints', Retry hints' ∈ events →
               mayRetry hints' = true ∧ retryCount hints' = 1%Z ∧
               (∀ h', hints' = Some h' → mayRetry (countRetry (Some h')) = false) ∧
               (∀ knee, mayRetry (countRetry (groundCheckHints hints' knee)) = false) ∧
               secondRun world hints' outcome events) ∧
            (outcome = ErrorRecord ↔ last events = Some SaveError)) as Hfinal.
  { intros outcome events [= -> ->]. split_and!; simpl; try done; try lia.
    intros hints' Hin. apply list_elem_of_singleton in Hin. discriminate Hin. }
  rewrite (preprocess_run (S fuel)). cbv zeta.
  destruct (world 0 hints) as [|knee|circle circleHead] eqn:Hworld.
  - (* the first run completes *)
    exists ResultRecord, []. split_and!; simpl; try done; try lia.
    + intros hints' Hin. by apply elem_of_nil in Hin.
    + intros _. split; [|by left]. intros Hin. by apply elem_of_nil in Hin.
  - (* the ground check fails *)
    destruct hints as [h|].
    + cbn [groundCheckHints countRetry mayRetry retry].
      exists ErrorRecord, [SaveError]. split; [done|].
      destruct (Hfinal ErrorRecord [SaveError] eq_refl) as (H1 & H2 & H3).
      split_and!; try done.
    + destruct (Hretried (groundCheckHints None knee)) as
        (outcome & events & Hrun & H1 & H2 & H3 & H4 & H5); [done|done|].
      replace (mayRetry (countRetry (groundCheckHints None knee))) with true
        by reflexivity.
      cbn [circlesAt disposeCircles andb negb fst snd]. rewrite Hrun.
      exists outcome, events. split_and!; try done.
      intros Hres. destruct (H5 Hres) as [H6 H7]. split; [done|by right].
  - (* another failure *)
    destruct (mayRetry (countRetry hints)) eqn:Hmay.
    + cbn [circlesAt fst snd]. unfold disposeCircles.
      destruct (circle && negb circleHead) eqn:Hcircles.
      * exists (Rejected Js.TypeError), []. split_and!; simpl; try done; try lia.
        intros hints' Hin. by apply elem_of_nil in Hin.
      * destruct (Hretried hints Hfresh Hmay) as
          (outcome & events & Hrun & H1 & H2 & H3 & H4 & H5).
        rewrite Hrun. exists outcome, events. split_and!; try done.
        intros Hres. destruct (H5 Hres) as [H6 H7]. split; [done|by right].
    + exists ErrorRecord, [SaveError]. split; [done|].
      destruct (Hfinal ErrorRecord [SaveError] eq_refl) as (H1 & H2 & H3).
      split_and!; try done.
Qed.

Lemma retry_at_most_once_witness :
  ∃ outcome events,
    preprocess 2 sinkingWorld 0 None = Some (outcome, events) ∧
    length (List.filter isRetry events) ≤ 1 ∧
    (∀ hints', Retry hints' ∈ events →
       mayRetry hints' = true ∧ retryCount hints' = 1%Z ∧
       (∀ h', hints' = Some h' → mayRetry (countRetry (Some h')) = false) ∧
       (∀ knee, mayRetry (countRetry (groundCheckHints hints' knee)) = false) ∧
       secondRun sinkingWorld hints' outcome events) ∧
    hd_error events =
      Some (Retry (Some {| kneeHeight := Some 0.4%float; retry := Some 1%Z |})) ∧
    (outcome = ErrorRecord ↔ last events = Some SaveError) ∧
    (outcome = ResultRecord →
     (SaveError ∉ events) ∧
     (sinkingWorld 0 None = Completed ∨
      ∃ hints', events = [Retry hints'] ∧ sinkingWorld 1 hints' = Completed)).
Proof.
  apply (retry_at_most_once sinkingWorld None 2).
  - unfold retryCount. simpl. lia.
  - lia.
Defined.

(** A run that ends with neither record: the facing direction is not found
    (ErrorID 2) in a call with hints, as the command line gives them.
    The [catch] clause throws at [circleHead.geometry]: no retry, no
    diagnostic record, no error record. *)
Lemma faceless_call_is_rejected :
  preprocess 2 facelessWorld 0 (Some {| kneeHeight := None; retry := None |})
  = Some (Rejected Js.TypeError, []).
Proof. reflexivity. Qed.

End PreprocessFacts.

Section ShaderFacts.
Import Shader.
Local Open Scope R_scope.

Ltac unfold_cofactors :=
  unfold cofactor00, cofactor01, cofactor02, cofactor03,
         cofactor10, cofactor11, cofactor12, cofactor13,
         cofactor20, cofactor21, cofactor22, cofactor23,
         cofactor30, cofactor31, cofactor32, cofactor33 in *.

(** [inverse] is the inverse of a matrix whose determinant is not zero. *)
Lemma mul_inverse m : determinant m ≠ 0 → mul m (inverse m) = identity.
Proof.
  intros Hdet.
  destruct m as [[a0 a1 a2 a3] [b0 b1 b2 b3] [d0 d1 d2 d3] [e0 e1 e2 e3]].
  unfold mul, mulv, inverse, identity. cbn [c0 c1 c2 c3 x4 y4 z4 w4].
  set (D := determinant _) in *.
  assert (D = determinant (M4 (V4 a0 a1 a2 a3) (V4 b0 b1 b2 b3)
                              (V4 d0 d1 d2 d3) (V4 e0 e1 e2 e3))) as HD
    by reflexivity.
  unfold determinant in HD. unfold_cofactors.
  cbn [c0 c1 c2 c3 x4 y4 z4 w4] in *.
  f_equal; f_equal; (apply (Rmult_eq_reg_r D); [|exact Hdet]);
    field_simplify; try exact Hdet; rewrite ?HD; ring.
Qed.

Lemma mulv_identity v : mulv identity v = v.
Proof. destruct v. unfold mulv, identity. simpl. f_equal; ring. Qed.

(** With the skin matrix of the binding pose, the deformer puts a splat
    whose offset is [center - transformed] back at [center] (in the local
    space of the mesh, then moved by the world matrix of the mesh). *)
Lemma identity_pose_reproduces_center
    meshMatrixWorld transformed skinMatrix0 center :
  determinant skinMatrix0 ≠ 0 →
  splatCenter meshMatrixWorld transformed skinMatrix0 skinMatrix0
    (sub3 center transformed)
  = xyz (mulv meshMatrixWorld (extend center 1)).
Proof.
  intros Hdet. unfold splatCenter, skinnedRelativePos.
  rewrite (mul_inverse _ Hdet), mulv_identity.
  do 2 f_equal. destruct center, transformed. unfold extend, add3, sub3, xyz.
  simpl. f_equal; ring.
Qed.

(** The offset is turned by the rotation part of the change of the skin
    matrix. *)
Lemma offset_turns_with_skin skinMatrix skinMatrix0 relativePos :
  skinnedRelativePos skinMatrix skinMatrix0 relativePos
  = mulv3 (mat3of (mul skinMatrix (inverse skinMatrix0))) relativePos.
Proof.
  unfold skinnedRelativePos, mulv3, mat3of, xyz, extend, mulv.
  cbn [x y z x4 y4 z4 w4 col0 col1 col2]. f_equal; ring.
Qed.

Lemma inverse_identity : inverse identity = identity.
Proof.
  unfold inverse, determinant, identity. unfold_cofactors.
  cbn [c0 c1 c2 c3 x4 y4 z4 w4]. f_equal; f_equal; field.
Qed.

Lemma mul_identity_r m : mul m identity = m.
Proof.
  destruct m as [[a0 a1 a2 a3] [b0 b1 b2 b3] [d0 d1 d2 d3] [e0 e1 e2 e3]].
  unfold mul, mulv, identity. cbn [c0 c1 c2 c3 x4 y4 z4 w4].
  f_equal; f_equal; ring.
Qed.

Lemma conjugate_identity3 m :
  mul3 (mul3 (transpose (mat3of identity)) m) (mat3of identity) = m.
Proof.
  destruct m as [[a0 a1 a2] [b0 b1 b2] [d0 d1 d2]].
  unfold mul3, mulv3, transpose, mat3of, identity, xyz.
  cbn [c0 c1 c2 c3 x4 y4 z4 w4 x y z col0 col1 col2].
  f_equal; f_equal; ring.
Qed.

Lemma gt_true a b : a > b → gt a b = true.
Proof. intros Hgt. unfold gt. by destruct (Rgt_dec a b). Qed.

(** The quaternion detour at a quarter turn about x gives back the
    matrix it was given... *)
Lemma covarianceRotation_quarterX :
  covarianceRotation identity quarterX identity = mat3of quarterX.
Proof.
  unfold covarianceRotation.
  rewrite inverse_identity, mul_identity_r, conjugate_identity3.
  unfold quatFromMat3, quarterX, mat3of, xyz.
  cbn [c0 c1 c2 c3 x4 y4 z4 w4 x y z col0 col1 col2].
  rewrite gt_true by lra.
  replace (1 + 0 + 0 + 1) with 2 by lra.
  assert (0 < sqrt 2) as Hpos by (apply sqrt_lt_R0; lra).
  assert (sqrt 2 * sqrt 2 = 2) as Hsq by (apply sqrt_sqrt; lra).
  set (r := sqrt 2) in *.
  assert (r ^ 2 = 2) as Hsq2 by nra.
  unfold mat3FromQuat. cbn [x4 y4 z4 w4].
  f_equal; f_equal; try lra; field_simplify; try lra; rewrite ?Hsq2; lra.
Qed.

(** ... and at a quarter turn about y its transpose. *)
Lemma covarianceRotation_quarterY :
  covarianceRotation identity quarterY identity = transpose (mat3of quarterY).
Proof.
  unfold covarianceRotation.
  rewrite inverse_identity, mul_identity_r, conjugate_identity3.
  unfold quatFromMat3, quarterY, mat3of, xyz, transpose.
  cbn [c0 c1 c2 c3 x4 y4 z4 w4 x y z col0 col1 col2].
  rewrite gt_true by lra.
  replace (0 + 1 + 0 + 1) with 2 by lra.
  assert (0 < sqrt 2) as Hpos by (apply sqrt_lt_R0; lra).
  assert (sqrt 2 * sqrt 2 = 2) as Hsq by (apply sqrt_sqrt; lra).
  set (r := sqrt 2) in *.
  assert (r ^ 2 = 2) as Hsq2 by nra.
  unfold mat3FromQuat. cbn [x4 y4 z4 w4].
  f_equal; f_equal; try lra; field_simplify; try lra; rewrite ?Hsq2; lra.
Qed.

(** About the y axis the covariance turns with the offset. *)
Lemma covariance_turns_about_y Vrk :
  rotatedVrk identity quarterY identity Vrk = rotated (mat3of quarterY) Vrk.
Proof.
  unfold rotatedVrk. rewrite covarianceRotation_quarterY.
  destruct Vrk as [[a0 a1 a2] [b0 b1 b2] [d0 d1 d2]].
  unfold rotated, mul3, mulv3, transpose, mat3of, quarterY, xyz.
  cbn [c0 c1 c2 c3 x4 y4 z4 w4 x y z col0 col1 col2].
  f_equal; f_equal; ring.
Qed.

(** C4, the shader at a quarter turn of the skin about the x axis (the
    binding pose and the splat cloud at the identity).  The offset is
    turned by that quarter turn.  The covariance is turned by the
    opposite quarter turn: for the covariance [slanted] the result is
    not the covariance turned with the offset. *)
Theorem covariance_turns_backwards_about_x :
  (∀ relativePos,
     skinnedRelativePos quarterX identity relativePos
     = mulv3 (mat3of quarterX) relativePos) ∧
  (∀ Vrk,
     rotatedVrk identity quarterX identity Vrk
     = rotated (transpose (mat3of quarterX)) Vrk) ∧
  rotatedVrk identity quarterX identity slanted
  = M3 (V3 2 0 (-1)) (V3 0 1 0) (V3 (-1) 0 2) ∧
  rotated (mat3of quarterX) slanted = M3 (V3 2 0 1) (V3 0 1 0) (V3 1 0 2) ∧
  rotatedVrk identity quarterX identity slanted ≠ rotated (mat3of quarterX) slanted.
Proof.
  assert (∀ Vrk, rotatedVrk identity quarterX identity Vrk
                 = rotated (transpose (mat3of quarterX)) Vrk) as Hback.
  { intros Vrk. unfold rotatedVrk. rewrite covarianceRotation_quarterX.
    destruct Vrk as [[a0 a1 a2] [b0 b1 b2] [d0 d1 d2]].
    unfold rotated, mul3, mulv3, transpose, mat3of, quarterX, xyz.
    cbn [c0 c1 c2 c3 x4 y4 z4 w4 x y z col0 col1 col2].
    f_equal; f_equal; ring. }
  assert (rotated (transpose (mat3of quarterX)) slanted
          = M3 (V3 2 0 (-1)) (V3 0 1 0) (V3 (-1) 0 2)) as Hcode.
  { unfold rotated, mul3, mulv3, transpose, mat3of, quarterX, slanted, xyz.
    cbn [c0 c1 c2 c3 x4 y4 z4 w4 x y z col0 col1 col2].
    f_equal; f_equal; ring. }
  assert (rotated (mat3of quarterX) slanted
          = M3 (V3 2 0 1) (V3 0 1 0) (V3 1 0 2)) as Hclaim.
  { unfold rotated, mul3, mulv3, transpose, mat3of, quarterX, slanted, xyz.
    cbn [c0 c1 c2 c3 x4 y4 z4 w4 x y z col0 col1 col2].
    f_equal; f_equal; ring. }
  split_and!.
  - intros relativePos. rewrite offset_turns_with_skin.
    by rewrite inverse_identity, mul_identity_r.
  - exact Hback.
  - by rewrite Hback.
  - exact Hclaim.
  - rewrite Hback, Hcode, Hclaim. intros Heq.
    injection Heq as Hz Hx. lra.
Qed.

End ShaderFacts.

(** ** Part III: further properties of the code *)

Section CentroidFacts.
Import Calibration Centroids.

Lemma ltb_trans a b c :
  (a <? b)%float = true → (b <? c)%float = true → (a <? c)%float = true.
Proof.
  rewrite !FloatAxioms.ltb_spec. unfold SFltb, SFcompare.
  destruct (Prim2SF a) as [sa|sa| |sa ma ea], (Prim2SF b) as [sb|sb| |sb mb eb],
           (Prim2SF c) as [sc|sc| |sc mc ec];
    try destruct sa; try destruct sb; try destruct sc; simpl;
    try reflexivity; try discriminate; sf_cases.
Qed.

Lemma ltb_irrefl a : (a <? a)%float = false.
Proof.
  rewrite FloatAxioms.ltb_spec. unfold SFltb, SFcompare.
  destruct (Prim2SF a) as [sa|sa| |sa ma ea]; try destruct sa; try reflexivity.
  - rewrite Z.compare_refl.
    change (PosDef.Pos.compare_cont Eq ma ma) with (Pos.compare ma ma).
    by rewrite Pos.compare_refl.
  - rewrite Z.compare_refl.
    change (PosDef.Pos.compare_cont Eq ma ma) with (Pos.compare ma ma).
    by rewrite Pos.compare_refl.
Qed.

(** The difference of two equal numbers is a zero, or [NaN] for the
    infinities. *)
Lemma sub_equal a b :
  (a =? b)%float = true →
  (∃ s, Prim2SF (a - b) = S754_zero s) ∨ Prim2SF (a - b) = S754_nan.
Proof.
  rewrite FloatAxioms.eqb_spec, FloatAxioms.sub_spec.
  unfold SFeqb, SFcompare, SF64sub, SFsub.
  destruct (Prim2SF a) as [sa|sa| |sa ma ea], (Prim2SF b) as [sb|sb| |sb mb eb];
    try destruct sa; try destruct sb; simpl; try discriminate; intros Heq;
    try (left; eexists; reflexivity); try (right; reflexivity).
  all: destruct (Z.compare_spec ea eb) as [->| |]; try discriminate Heq.
  all: change (PosDef.Pos.compare_cont Eq ma mb) with (Pos.compare ma mb) in Heq.
  all: destruct (Pos.compare_spec ma mb) as [->| |]; try discriminate Heq.
  all: rewrite Z.min_id; unfold shl_align; rewrite Z.sub_diag; simpl.
  all: rewrite ?Z.sub_diag, ?Z.add_opp_diag_r, ?Z.pos_sub_diag; left; eexists; reflexivity.
Qed.

(** A flat body has a flat band: the two bounds computed from equal
    [max] and [min] are the same number, whatever the two fractions. *)
Lemma flat_band lo hi a b :
  (∃ m e, Prim2SF lo = S754_finite false m e) →
  (∃ m e, Prim2SF hi = S754_finite false m e) →
  (a =? b)%float = true →
  ((a - b) * lo + b = (a - b) * hi + b)%float.
Proof.
  intros (ml & el & Hlo) (mh & eh & Hhi) Heq.
  assert (Prim2SF ((a - b) * lo) = Prim2SF ((a - b) * hi)) as Hmul.
  { rewrite !FloatAxioms.mul_spec, Hlo, Hhi.
    destruct (sub_equal a b Heq) as [[s ->]| ->]; reflexivity. }
  apply Prim2SF_inj. rewrite !FloatAxioms.add_spec. by rewrite Hmul.
Qed.

(** X5. Without heights, or with a body of no height ([max == min]),
    neither centroid can be computed: the band between the two
    fractions of the height is empty whatever the cloud, and both
    functions throw ErrorID 5. *)
Theorem centroid_of_flat_body vertices heights centroid distXZ :
  (max (default {| min := 0; max := 0 |} heights)
   =? min (default {| min := 0; max := 0 |} heights))%float = true →
  calculateCentroidFeet vertices heights centroid distXZ = Js.Throw Js.ErrorID5 ∧
  calculateCentroidHead vertices heights centroid distXZ = Js.Throw Js.ErrorID5.
Proof.
  intros Hflat.
  assert (∀ lo hi, (∃ m e, Prim2SF lo = S754_finite false m e) →
            (∃ m e, Prim2SF hi = S754_finite false m e) →
            List.filter
              (λ vertex,
                 (distanceXZ (default {| cx := 0; cz := 0 |} centroid) vertex <? distXZ)%float &&
                 ((max (default {| min := 0; max := 0 |} heights)
                   - min (default {| min := 0; max := 0 |} heights)) * lo
                  + min (default {| min := 0; max := 0 |} heights) <? - y vertex)%float &&
                 (- y vertex <?
                  (max (default {| min := 0; max := 0 |} heights)
                   - min (default {| min := 0; max := 0 |} heights)) * hi
                  + min (default {| min := 0; max := 0 |} heights))%float)
              vertices = []) as Hempty.
  { intros lo hi Hlo Hhi. rewrite (flat_band lo hi _ _ Hlo Hhi Hflat).
    induction vertices as [|vertex vertices IH]; [done|]. simpl. rewrite IH.
    destruct (_ <? - y vertex)%float eqn:Hbelow; [|by rewrite andb_false_r].
    destruct (- y vertex <? _)%float eqn:Habove; [|by rewrite andb_false_r].
    pose proof (ltb_trans _ _ _ Hbelow Habove) as Hlt.
    by rewrite ltb_irrefl in Hlt. }
  split.
  - unfold calculateCentroidFeet. cbv zeta. rewrite Hempty by (do 2 eexists; vm_compute; reflexivity). done.
  - unfold calculateCentroidHead. cbv zeta. rewrite Hempty by (do 2 eexists; vm_compute; reflexivity). done.
Qed.

Lemma centroid_of_flat_body_witness :
  calculateCentroidFeet lonePoint None None 0.3 = Js.Throw Js.ErrorID5 ∧
  calculateCentroidHead lonePoint None None 0.3 = Js.Throw Js.ErrorID5.
Proof. apply (centroid_of_flat_body lonePoint None None 0.3). reflexivity. Defined.
End CentroidFacts.

Section CalibrationAccepts.
Import Calibration.

(** X4. When [calculateHeights], entered at the [k]-th radius, returns,
    the radius it returns is the first of the radii from there on at
    which the measurement passes the three thresholds: every radius
    before it was measured, rejected and below 3.0; the returned heights
    are the measurement at the returned radius; at least 10,000 vertices
    lie inside it between 5% of the height and the top, and the height
    is not 0.3 or less. *)
Theorem calculateHeights_returns_first_accepted
    hints vertices heights centroid thresh k fuel accepted distXZ :
  k ≤ 27 →
  calculateHeights fuel hints vertices heights centroid (radiusAfter k) thresh
  = Some (Js.Ok (accepted, distXZ)) →
  let centre := default {| cx := 0; cz := 0 |} centroid in
  ∃ j, k ≤ j ≤ 27 ∧ distXZ = radiusAfter j ∧
    measureHeights hints vertices centre (radiusAfter j) thresh = Js.Ok accepted ∧
    rejected vertices centre (radiusAfter j) accepted = false ∧
    (10000 ≤ Z.of_nat (length (testFilteredVertices vertices centre distXZ accepted)))%Z ∧
    (max accepted - min accepted <=? 0.3)%float = false ∧
    ∀ i, k ≤ i < j →
      (radiusAfter i <? 3.0)%float = true ∧
      ∃ measured,
        measureHeights hints vertices centre (radiusAfter i) thresh = Js.Ok measured ∧
        rejected vertices centre (radiusAfter i) measured = true.
Proof.
  intros Hk Hrun centre. revert k heights centroid centre Hk Hrun.
  induction fuel as [|fuel IH]; intros k heights centroid centre Hk Hrun; [done|].
  simpl in Hrun. fold centre in Hrun.
  destruct (measureHeights hints vertices centre (radiusAfter k) thresh)
    as [measured|e] eqn:Hm; [|done].
  destruct (rejected vertices centre (radiusAfter k) measured) eqn:Hr.
  - destruct (radiusAfter k <? 3.0)%float eqn:Hcap; [|done].
    assert (k < 27) as Hlt.
    { destruct (decide (k = 27)) as [->|]; [|lia].
      by rewrite radius_at_cap in Hcap. }
    change (radiusAfter k + 0.1)%float with (radiusAfter (S k)) in Hrun.
    destruct (IH (S k) (Some measured) (Some centre) ltac:(lia) Hrun)
      as (j & Hj & -> & Hmj & Hrj & Hcount & Hheight & Hbefore).
    simpl in Hmj, Hrj, Hcount, Hbefore.
    exists j. split; [lia|]. split; [done|]. split; [done|]. split; [done|].
    split; [done|]. split; [done|].
    intros i Hi. destruct (decide (i = k)) as [->|Hne].
    + split; [done|]. by exists measured.
    + apply Hbefore. lia.
  - injection Hrun as -> <-. exists k. split; [lia|]. split; [done|].
    split; [done|]. split; [done|].
    unfold rejected in Hr. apply orb_false_iff in Hr as [Hr _].
    apply orb_false_iff in Hr as [Hcount Hheight].
    split; [by apply Z.ltb_ge in Hcount|]. split; [done|].
    intros i Hi. lia.
Qed.
End CalibrationAccepts.

Section ForegroundFacts.
Import Calibration.

Lemma filterM_sublist {A} (p : A → Js.result bool) (l l1 : list A) :
  Js.filterM p l = Js.Ok l1 → sublist l1 l.
Proof.
  revert l1. induction l as [|a l IH]; intros l1 Hrun; simpl in Hrun.
  - by injection Hrun as <-.
  - destruct (p a) as [keep|e]; [|done]. simpl in Hrun.
    destruct (Js.filterM p l) as [kept|e]; [|done]. simpl in Hrun.
    injection Hrun as <-. destruct keep.
    + by apply sublist_skip, IH.
    + by apply sublist_cons, IH.
Qed.

Lemma filterM_kept {A} (p : A → Js.result bool) (l l1 : list A) a :
  Js.filterM p l = Js.Ok l1 → a ∈ l1 → p a = Js.Ok true.
Proof.
  revert l1. induction l as [|a0 l IH]; intros l1 Hrun Ha; simpl in Hrun.
  - injection Hrun as <-. by apply elem_of_nil in Ha.
  - destruct (p a0) as [keep|e] eqn:Hp; [|done]. simpl in Hrun.
    destruct (Js.filterM p l) as [kept|e]; [|done]. simpl in Hrun.
    injection Hrun as <-. destruct keep.
    + apply elem_of_cons in Ha as [->|Ha]; [done|]. by eapply IH.
    + by eapply IH.
Qed.

Lemma List_filter_sublist {A} (p : A → bool) (l : list A) : sublist (List.filter p l) l.
Proof.
  induction l as [|a l IH]; simpl; [constructor|].
  destruct (p a); by constructor.
Qed.

(** X6. The foreground cloud of [cleanSplats] is a subsequence of the
    input cloud: vertices are neither made up nor reordered.  Each of its
    vertices is inside the radius of the second calibration pass, no more
    than half a metre below its floor or above its top, and, against the
    heights of the third pass, either at or above the 5% level or at or
    above the floor and less than half a metre from the vertical axis. *)
Theorem foreground_inside_band
    vertices centroid distXZ heights centroid3 heights3 foreground background :
  splitCloud vertices centroid distXZ heights centroid3 heights3
  = Js.Ok (foreground, background) →
  sublist foreground vertices ∧
  ∀ vertex, vertex ∈ foreground →
    (distanceXZ centroid vertex <=? distXZ)%float = true ∧
    (min heights - 0.5 <=? - y vertex)%float = true ∧
    (- y vertex <=? max heights + 0.5)%float = true ∧
    (((max heights3 - min heights3) * 0.05 + min heights3 <=? - y vertex)%float = true ∨
     (min heights3 <=? - y vertex)%float = true ∧
     (axisDistance vertex <? 0.5)%float = true).
Proof.
  intros Hrun. unfold splitCloud, detectShoes in Hrun.
  js_bind Hrun. js_bind E. injection E as <-. injection Hrun as <- Hbackground. simpl.
  split.
  - etrans; [by eapply filterM_sublist|]. apply List_filter_sublist.
  - intros vertex Hv.
    pose proof (filterM_kept _ _ _ _ E1 Hv) as Hkept.
    apply (filterM_elem _ _ _ _ E1) in Hv.
    unfold filteredVertices6 in Hv.
    apply list_elem_of_In, filter_In in Hv as [_ Hband].
    unfold inBand in Hband.
    apply andb_prop in Hband as [Hband Htop].
    apply andb_prop in Hband as [Hradius Hfloor].
    split; [done|]. split; [done|]. split; [done|].
    unfold keptByShoes in Hkept.
    destruct ((max heights3 - min heights3) * 0.05 + min heights3 <=? - y vertex)%float
      eqn:Hlevel; [by left|].
    destruct (_ && _) eqn:Hlow in Hkept; [|done].
    apply andb_prop in Hlow as [Hlow Haxis].
    apply andb_prop in Hlow as [Hlow _]. by right.
Qed.
End ForegroundFacts.

Section RetryFacts.
Import Calibration Preprocess.

(** X11. What a call of [preprocess] returns, for hints that carry no
    retry count yet, from what its first two runs do.  A failure of the
    ground check is retried when the call had no hints (the retry
    carries the knee height measured) and is final when it had, since
    the check clears them.  Any other failure is final when the call had
    no hints; when it had, it is retried with them, counted once, unless
    [circle] is set and [circleHead] is not: then the [catch] clause
    throws a TypeError at [circleHead.geometry] and the call is rejected
    with no retry and no record.  A final failure writes the diagnostic
    record and returns the error record; after a retry the second run
    decides, and its failure is final. *)
Theorem retry_depends_on_hints world hints fuel :
  retryCount hints = 0%Z → 2 ≤ fuel →
  let retried counted :=
    match world 1 counted with
    | Completed => (ResultRecord, [Retry counted])
    | _ => (ErrorRecord, [Retry counted; SaveError])
    end in
  preprocess fuel world 0 hints =
  Some match world 0 hints, hints with
       | Completed, _ => (ResultRecord, [])
       | GroundCheckFailed knee, None =>
           retried (Some {| kneeHeight := Some knee; retry := Some 1%Z |})
       | GroundCheckFailed _, Some _ => (ErrorRecord, [SaveError])
       | Failed _ _, None => (ErrorRecord, [SaveError])
       | Failed circle circleHead, Some h =>
           if (circle && negb circleHead) then (Rejected Js.TypeError, [])
           else retried (Some {| kneeHeight := kneeHeight h; retry := Some 1%Z |})
       end.
Proof.
  intros Hcount Hfuel retried. destruct fuel as [|[|fuel]]; [lia|lia|].
  assert (∀ knee,
            match preprocess (S fuel) world 1
                    (Some {| kneeHeight := knee; retry := Some 1%Z |}) with
            | Some (outcome, events) =>
                Some (outcome,
                      Retry (Some {| kneeHeight := knee; retry := Some 1%Z |}) :: events)
            | None => None
            end = Some (retried (Some {| kneeHeight := knee; retry := Some 1%Z |})))
    as Hretried.
  { intros knee. rewrite preprocess_second by done. unfold retried.
    by destruct (world 1 _). }
  rewrite (preprocess_run (S fuel)). cbv zeta.
  destruct (world 0 hints) as [|knee|circle circleHead] eqn:Hfirst; [done| |].
  - destruct hints as [h|]; [done|].
    change (countRetry (groundCheckHints None knee))
      with (Some {| kneeHeight := Some knee; retry := Some 1%Z |}).
    cbn [mayRetry retry Z.leb Z.compare Pos.compare Pos.compare_cont
         circlesAt disposeCircles andb negb fst snd].
    apply Hretried.
  - destruct hints as [h|]; [|done].
    assert (countRetry (Some h) = Some {| kneeHeight := kneeHeight h; retry := Some 1%Z |})
      as ->.
    { unfold retryCount in Hcount. unfold countRetry. simpl in Hcount.
      destruct (retry h) as [n|]; simpl in Hcount; [by subst n|done]. }
    cbn [mayRetry retry Z.leb Z.compare Pos.compare Pos.compare_cont
         circlesAt fst snd].
    unfold disposeCircles. destruct (circle && negb circleHead); [done|].
    apply Hretried.
Qed.

Lemma retry_depends_on_hints_witness :
  preprocess 2 sinkingWorld 0 None =
  Some (ErrorRecord,
        [Retry (Some {| kneeHeight := Some 0.4%float; retry := Some 1%Z |}); SaveError]).
Proof.
  apply (retry_depends_on_hints sinkingWorld None 2).
  - reflexivity.
  - lia.
Defined.

(** With hints and no retry count, as the command line gives them, a
    run that fails between the two circles is rejected; one that fails
    after both are set is run again. *)
Lemma retry_between_the_circles :
  preprocess 2 facelessWorld 0 (Some {| kneeHeight := None; retry := None |})
  = Some (Rejected Js.TypeError, []) ∧
  preprocess 2 (λ _ _, Failed true true) 0 (Some {| kneeHeight := None; retry := None |})
  = Some (ErrorRecord, [Retry (Some {| kneeHeight := None; retry := Some 1%Z |});
                        SaveError]).
Proof. split; reflexivity. Qed.
End RetryFacts.


(** A running minimum: what is not below the old minimum is not below a
    smaller one. *)
Lemma ltb_below_minimum d d2 m :
  (d2 <? m)%float = true → (d <? m)%float = false → (d <? d2)%float = false.
Proof.
  rewrite !FloatAxioms.ltb_spec. unfold SFltb, SFcompare.
  destruct (Prim2SF d) as [sa|sa| |sa ma ea], (Prim2SF d2) as [sb|sb| |sb mb eb],
           (Prim2SF m) as [sc|sc| |sc mc ec];
    try destruct sa; try destruct sb; try destruct sc; simpl;
    try reflexivity; try discriminate; sf_cases.
Qed.

Lemma ltb_nothing_below_infinity d d2 :
  (d2 <? infinity)%float = false → (d <? infinity)%float = false →
  (d <? d2)%float = false.
Proof.
  rewrite !FloatAxioms.ltb_spec. change (Prim2SF infinity) with (S754_infinity false).
  unfold SFltb, SFcompare.
  destruct (Prim2SF d) as [sa|sa| |sa ma ea], (Prim2SF d2) as [sb|sb| |sb mb eb];
    try destruct sa; try destruct sb; simpl;
    try reflexivity; try discriminate.
Qed.

Lemma foldl_snoc_inv {A B} (f : A → B → A) (I : list B → A → Prop) (l : list B) a :
  I [] a →
  (∀ pre x a', I pre a' → I (pre ++ [x]) (f a' x)) →
  I l (foldl f a l).
Proof.
  intros H0 Hstep. induction l as [|x l IH] using rev_ind; [done|].
  rewrite foldl_app. simpl. by apply Hstep.
Qed.

Section NearestFacts.
Import THREE Binding Nearest.
Context {Matrix4 Capsule : Type} `{!Services Matrix4 Capsule}.

Lemma scanTriangle_inv target initial seen capsule ci scan ii :
  scanInv target initial seen scan →
  scanInv target initial
    (λ cj c jj, seen cj c jj ∨ (cj = ci ∧ c = capsule ∧ jj = ii))
    (scanTriangle capsule ci target scan ii).
Proof.
  intros [Hmin Hbest]. unfold scanTriangle.
  destruct (triangleDistance capsule ii target <? minDistance scan)%float eqn:Hlt; simpl.
  - split.
    + intros cj c jj [Hseen|(-> & -> & ->)].
      * eapply ltb_below_minimum; [exact Hlt|]. exact (Hmin cj c jj Hseen).
      * apply ltb_irrefl.
    + right. exists ci, capsule, ii. split; [by right|done].
  - split.
    + intros cj c jj [Hseen|(-> & -> & ->)]; [exact (Hmin cj c jj Hseen)|done].
    + destruct Hbest as [?|(cj & c & jj & Hseen & ? & ?)]; [by left|].
      right. exists cj, c, jj. split; [by left|done].
Qed.

Lemma scanInv_ext target initial (seen seen' : nat → Capsule → nat → Prop) scan :
  (∀ ci capsule ii, seen ci capsule ii ↔ seen' ci capsule ii) →
  scanInv target initial seen scan → scanInv target initial seen' scan.
Proof.
  intros Hext [Hmin Hbest]. split.
  - intros ci capsule ii Hseen. apply (Hmin ci). by apply Hext.
  - destruct Hbest as [?|(ci & c & ii & Hseen & ? & ?)]; [by left|].
    right. exists ci, c, ii. split; [by apply Hext|done].
Qed.

Lemma scanCapsule_inv target initial seen ci capsule scan :
  scanInv target initial seen scan →
  scanInv target initial
    (λ cj c jj, seen cj c jj ∨
                (cj = ci ∧ c = capsule ∧
                 ∃ count, indexCount capsule = Some count ∧ jj ∈ triangleStarts count))
    (scanCapsule target scan (ci, capsule)).
Proof.
  intros Hinv. unfold scanCapsule. simpl.
  destruct (indexCount capsule) as [count|] eqn:Hcount.
  - apply (scanInv_ext _ _
             (λ cj c jj, seen cj c jj ∨ (cj = ci ∧ c = capsule ∧ jj ∈ triangleStarts count))).
    { intros cj c jj. split; intros [?|(-> & -> & Hjj)]; try by left.
      - right. split; [done|]. split; [done|]. by exists count.
      - right. destruct Hjj as (count' & [= <-] & Hjj). done. }
    apply (foldl_snoc_inv _
             (λ pre scan, scanInv target initial
                (λ cj c jj, seen cj c jj ∨ (cj = ci ∧ c = capsule ∧ jj ∈ pre)) scan)).
    + eapply scanInv_ext; [|exact Hinv].
      intros cj c jj. split; [by left|]. intros [?|(_ & _ & Hjj)]; [done|].
      by apply elem_of_nil in Hjj.
    + intros pre ii scan' Hscan'.
      eapply scanInv_ext; [|by apply scanTriangle_inv].
      intros cj c jj. simpl. rewrite elem_of_app, list_elem_of_singleton. tauto.
  - eapply scanInv_ext; [|exact Hinv].
    intros cj c jj. split; [by left|]. intros [?|(_ & _ & count & ? & _)]; done.
Qed.

Lemma scanCapsules_inv capsules target initial calls :
  scanInv target initial (scanned capsules)
    (scanCapsules capsules target initial calls).
Proof.
  unfold scanCapsules.
  assert (∀ pre, scanInv target initial (scanned pre)
            (foldl (scanCapsule target)
               {| minDistance := infinity; bestCi := initial; distanceCalls := calls |}
               (imap pair pre))) as Hall; [|apply Hall].
  intros pre. induction pre as [|capsule pre IH] using rev_ind.
  - split; [|by left]. intros ci c ii [Hc _]. done.
  - rewrite imap_app, foldl_app. simpl. rewrite Nat.add_0_r.
    eapply scanInv_ext; [|apply scanCapsule_inv, IH].
    intros cj c jj. unfold scanned. split.
    + intros [[Hc Hjj]|(-> & -> & Hjj)].
      * split; [|done]. by apply lookup_app_l_Some.
      * split; [|done]. by apply list_lookup_middle.
    + intros [Hc Hjj]. apply lookup_snoc_Some in Hc as [[_ Hc]|[-> ->]].
      * left. done.
      * right. done.
Qed.

Lemma paint_palette buffer i ci buffer' :
  paint buffer i ci = Js.Ok buffer' → ∃ c, ci = Some c ∧ c < 14.
Proof.
  unfold paint. destruct ci as [c|]; simpl; [|done].
  destruct (GVRMUtils.colors !! c) as [[[r g] b]|] eqn:Hc; [|done].
  intros _. exists c. split; [done|]. by apply lookup_lt_Some in Hc.
Qed.

Lemma scan_nearest capsules capsuleBoneIndex target calls c :
  bestCi (scanCapsules capsules target (Some 0) calls) = Some c → c < 14 →
  nearestCapsule capsules capsuleBoneIndex target
    (bestCi (scanCapsules capsules target (Some 0) calls) ≫= λ ci, capsuleBoneIndex !! ci).
Proof.
  intros Hc H14. destruct (scanCapsules_inv capsules target (Some 0) calls) as [Hmin Hbest].
  exists c, (minDistance (scanCapsules capsules target (Some 0) calls)).
  split; [done|]. split; [by rewrite Hc|]. split; [done|].
  destruct Hbest as [[Hinf Hzero]|(ci & capsule & ii & Hseen & Hci & Hd)].
  - left. split; [done|]. congruence.
  - right. exists capsule, ii. split; [congruence|done].
Qed.

Lemma index_snoc_last {A} (arr : list (option A)) cell :
  Js.index (arr ++ [cell]) (length arr) = cell.
Proof.
  pose proof (index_snoc_new arr [cell] 0) as Hnew.
  by rewrite Nat.add_0_r in Hnew.
Qed.

Lemma block_start k : k mod 10 ≠ 0 → k - k mod 10 = (k - 1) - (k - 1) mod 10.
Proof.
  intros Hk. pose proof (Nat.div_mod_eq k 10). pose proof (Nat.mod_upper_bound k 10).
  assert ((k - 1) mod 10 = k mod 10 - 1) as ->; [|lia].
  symmetry. apply (Nat.mod_unique _ _ (k / 10)); lia.
Qed.

(** X1. Away from the skeleton-only branch, every splat gets the bone of
    a nearest capsule: no triangle of any indexed capsule is nearer to
    the splat centre than the triangle that made the choice, and capsule
    0 is taken when no triangle is at a finite distance.  In fast mode
    the scan runs for every tenth splat only and the nine splats after
    it share its result.  The capsule chosen has one of the 14 palette
    colours. *)
Theorem splat_takes_nearest_capsule gs capsules capsuleBoneIndex fast gs' calls :
  capsules ≠ [] →
  assignSplatsToBones gs capsules capsuleBoneIndex fast = Js.Ok (gs', calls) →
  ∀ i, i < splatCount gs →
    nearestCapsule capsules capsuleBoneIndex
      (applyMatrix4 (sceneMatrixWorld gs)
         (center0 gs (if fast then i - i mod 10 else i)))
      (Js.index (splatBoneIndices gs') i).
Proof.
  intros Hne Hrun. unfold assignSplatsToBones in Hrun.
  rewrite bool_decide_eq_false_2 in Hrun by (by destruct capsules).
  js_bind Hrun. injection Hrun as <- _. simpl.
  set (target k := applyMatrix4 (sceneMatrixWorld gs)
                     (center0 gs (if fast then k - k mod 10 else k))).
  apply (foldM_seq_inv _
           (λ k st,
              length (boneIndices st) = k ∧
              (∀ i, i < k → nearestCapsule capsules capsuleBoneIndex (target i)
                              (Js.index (boneIndices st) i)) ∧
              (0 < k → fast = true →
               ∃ c, boneBestCi st = Some c ∧
                 nearestCapsule capsules capsuleBoneIndex (target (k - 1))
                   (Some c ≫= λ ci, capsuleBoneIndex !! ci)))) in E.
  - by destruct E as (_ & Hcells & _).
  - split; [done|]. split; intros; lia.
  - intros k st st' Hk (Hlen & Hcells & Hlast) Hstep. unfold boneStep in Hstep.
    destruct (fast && negb (k mod 10 =? 0)) eqn:Hfast.
    + apply andb_prop in Hfast as [-> Hmod].
      apply negb_true_iff, Nat.eqb_neq in Hmod.
      js_bind Hstep. injection Hstep as <-.
      cbn [boneIndices boneColors boneBestCi boneCalls].
      assert (0 < k) as Hpos by (destruct k; [done|lia]).
      destruct (Hlast Hpos eq_refl) as (c & Hc & Hnear).
      assert (target k = target (k - 1)) as Htarget.
      { unfold target. by rewrite (block_start k Hmod). }
      split; [rewrite length_app; simpl; lia|]. split.
      * intros i Hi. destruct (decide (i = k)) as [->|Hik].
        -- rewrite Htarget. subst k. rewrite index_snoc_last.
           rewrite Hc. exact Hnear.
        -- rewrite index_snoc_old by lia. apply Hcells. lia.
      * intros _ _. exists c. split; [done|].
        replace (S k - 1) with k by lia. by rewrite Htarget.
    + js_bind Hstep. injection Hstep as <-.
      cbn [boneIndices boneColors boneBestCi boneCalls].
      assert (target k = applyMatrix4 (sceneMatrixWorld gs) (center0 gs k)) as Htarget.
      { unfold target. destruct fast; [|done]. rewrite andb_true_l in Hfast.
        apply negb_false_iff, Nat.eqb_eq in Hfast. rewrite Hfast. by rewrite Nat.sub_0_r. }
      apply paint_palette in E0 as (c & Hc & H14).
      pose proof (scan_nearest capsules capsuleBoneIndex _ _ c Hc H14) as Hnear.
      rewrite <- Htarget in Hnear.
      split; [rewrite length_app; simpl; lia|]. split.
      * intros i Hi. destruct (decide (i = k)) as [->|Hik].
        -- subst k. rewrite index_snoc_last. rewrite <- Htarget. exact Hnear.
        -- rewrite index_snoc_old by lia. apply Hcells. lia.
      * intros _ _. exists c. split; [done|].
        replace (S k - 1) with k by lia. rewrite <- Htarget in Hc.
        rewrite Hc in Hnear. exact Hnear.
Qed.

Lemma pools_init (capsuleBoneIndex : list Z) :
  ∀ bone,
    foldl (λ pools value, <[value := []]> pools) (∅ : gmap Z (list nat)) capsuleBoneIndex
      !! bone
    = if decide (bone ∈ capsuleBoneIndex) then Some [] else None.
Proof.
  induction capsuleBoneIndex as [|value l IH] using rev_ind; intros bone.
  - by rewrite decide_False by set_solver.
  - rewrite foldl_app. simpl. destruct (decide (bone = value)) as [->|Hne].
    + rewrite lookup_insert_eq. by rewrite decide_True by set_solver.
    + rewrite lookup_insert_ne by done. rewrite IH.
      destruct (decide (bone ∈ l)).
      * by rewrite decide_True by set_solver.
      * by rewrite decide_False by set_solver.
Qed.

Lemma filter_seq_snoc (P : nat → Prop) `{!∀ i, Decision (P i)} k :
  filter P (seq 0 (S k)) = filter P (seq 0 k) ++ (if decide (P k) then [k] else []).
Proof.
  rewrite seq_S, filter_app. f_equal.
Qed.

(** X2. The first loop of the binder sorts the mesh vertices into the
    pools of the bones: when it completes, there is a pool for each bone
    of the capsule list and for no other, the pool of a bone lists in
    increasing order the vertices whose nearest capsule has that bone,
    so every vertex is in one pool and in one only, and for every vertex
    a capsule triangle was found to which it is at least as near as to
    any other triangle of the scan. *)
Theorem vertex_pools_partition character capsules capsuleBoneIndex pools :
  classifyVertices character capsules capsuleBoneIndex = Js.Ok pools →
  (∀ bone, is_Some (pools !! bone) ↔ bone ∈ capsuleBoneIndex) ∧
  (∀ bone pool, pools !! bone = Some pool →
     pool = filter (λ i, vertexBone character capsules capsuleBoneIndex i = Some bone)
                   (seq 0 (length (position character)))) ∧
  (∀ i, i < length (position character) →
     ∃ bone pool vertex ci,
       pools !! bone = Some pool ∧ i ∈ pool ∧
       (∀ bone' pool', pools !! bone' = Some pool' → i ∈ pool' → bone' = bone) ∧
       skinnedVertex character (Some i) = Js.Ok vertex ∧
       capsuleBoneIndex !! ci = Some bone ∧
       nearestTriangle capsules vertex ci).
Proof.
  intros Hrun. unfold classifyVertices in Hrun.
  set (owner := vertexBone character capsules capsuleBoneIndex).
  apply (foldM_seq_inv _
           (λ k pools,
              (∀ bone, is_Some (pools !! bone) ↔ bone ∈ capsuleBoneIndex) ∧
              (∀ bone pool, pools !! bone = Some pool →
                 pool = filter (λ i, owner i = Some bone) (seq 0 k)) ∧
              (∀ i, i < k →
                 ∃ bone vertex ci,
                   owner i = Some bone ∧ is_Some (pools !! bone) ∧
                   skinnedVertex character (Some i) = Js.Ok vertex ∧
                   capsuleBoneIndex !! ci = Some bone ∧
                   nearestTriangle capsules vertex ci))) in Hrun.
  - destruct Hrun as (Hdom & Hpools & Hall). split; [done|]. split; [done|].
    intros i Hi. destruct (Hall i Hi) as (bone & vertex & ci & Howner & [pool Hpool] & ?).
    exists bone, pool, vertex, ci. split; [done|]. split.
    { rewrite (Hpools _ _ Hpool). apply list_elem_of_filter. split; [done|].
      apply elem_of_seq. lia. }
    split; [|done]. intros bone' pool' Hpool' Hin.
    rewrite (Hpools _ _ Hpool') in Hin. apply list_elem_of_filter in Hin as [Hin _].
    congruence.
  - split; [|split].
    + intros bone. rewrite pools_init. destruct (decide (bone ∈ capsuleBoneIndex)).
      * split; [done|]. by eexists.
      * split; [by intros [? ?]|done].
    + intros bone pool. rewrite pools_init. by destruct (decide _); intros [= <-].
    + intros i Hi. lia.
  - intros k pools1 pools2 Hk (Hdom & Hpools & Hall) Hstep. unfold vertexStep in Hstep.
    js_bind Hstep. rename a into vertex.
    destruct (bestCi (scanCapsules capsules vertex None 0)) as [ci|] eqn:Hci; [|done].
    simpl in Hstep.
    destruct (capsuleBoneIndex !! ci) as [bone|] eqn:Hbone; [|done].
    destruct (pools1 !! bone) as [pool|] eqn:Hpool; [|done].
    injection Hstep as <-.
    assert (owner k = Some bone) as Howner.
    { unfold owner, vertexBone. rewrite E, Hci. simpl. done. }
    split; [|split].
    + intros bone'. destruct (decide (bone' = bone)) as [->|Hne].
      * rewrite lookup_insert_eq. split; [intros _|by eexists].
        apply Hdom. by eexists.
      * by rewrite lookup_insert_ne.
    + intros bone' pool'. rewrite filter_seq_snoc.
      destruct (decide (bone' = bone)) as [->|Hne].
      * rewrite lookup_insert_eq. intros [= <-].
        rewrite decide_True by done. f_equal. by apply Hpools.
      * rewrite lookup_insert_ne by done. intros Hpool'.
        rewrite decide_False by congruence. rewrite app_nil_r. by apply Hpools.
    + intros i Hi. destruct (decide (i = k)) as [->|Hik].
      * exists bone, vertex, ci. split; [done|]. split.
        { rewrite lookup_insert_eq. by eexists. }
        split; [done|]. split; [done|].
        destruct (scanCapsules_inv capsules vertex None 0) as [Hmin Hbest].
        destruct Hbest as [[_ Hnone]|(cj & capsule & ii & Hseen & Hcj & Hd)];
          [congruence|].
        exists capsule, ii. split; [congruence|].
        intros cj' other jj Hother. rewrite <- Hd. exact (Hmin cj' other jj Hother).
      * destruct (Hall i ltac:(lia)) as (b & v & c & ? & Hsome & ?).
        exists b, v, c. split; [done|]. split; [|done].
        destruct (decide (b = bone)) as [->|Hne].
        -- rewrite lookup_insert_eq. by eexists.
        -- by rewrite lookup_insert_ne.
Qed.

Lemma foldM_app {A St} (body : St → A → Js.result St) (l1 l2 : list A) s0 :
  Js.foldM body s0 (l1 ++ l2) =
  Js.bind (Js.foldM body s0 l1) (λ s1, Js.foldM body s1 l2).
Proof.
  revert s0. induction l1 as [|a l1 IH]; intros s0; simpl; [done|].
  destruct (body s0 a) as [s1|e]; simpl; [apply IH|done].
Qed.

Lemma foldM_snoc_inv {A St} (body : St → A → Js.result St) (I : list A → St → Prop)
    (l : list A) s0 s :
  I [] s0 →
  (∀ pre x s1 s2, I pre s1 → body s1 x = Js.Ok s2 → I (pre ++ [x]) s2) →
  Js.foldM body s0 l = Js.Ok s → I l s.
Proof.
  intros H0 Hstep. revert s. induction l as [|x l IH] using rev_ind; intros s Hrun.
  - by injection Hrun as <-.
  - rewrite foldM_app in Hrun. destruct (Js.foldM body s0 l) as [s1|e]; [|done].
    simpl in Hrun. destruct (body s1 x) as [s2|e] eqn:Hx; [|done].
    simpl in Hrun. injection Hrun as <-. eapply Hstep; [by apply IH|done].
Qed.

Lemma candidates_all n : candidates n 1 = seq 0 n.
Proof.
  unfold candidates. rewrite Nat.add_sub, Nat.div_1_r.
  rewrite <- (map_id (seq 0 n)) at 2. apply map_ext. intros t. lia.
Qed.

Lemma candidates_first n skip vj : vj ∈ candidates n skip → 0 ∈ candidates n skip.
Proof.
  unfold candidates. intros Hvj. apply list_elem_of_fmap in Hvj as (t & _ & Ht).
  apply list_elem_of_fmap. exists 0. split; [lia|].
  apply elem_of_seq in Ht. apply elem_of_seq. lia.
Qed.

Lemma nearestStep_inv character target pool visited best :
  Js.foldM (nearestStep character target pool) (infinity, 0) visited = Js.Ok best →
  (0 ∈ visited ∨ visited = []) →
  nearestInPool character target pool visited best.2.
Proof.
  intros Hrun Hfirst.
  apply (foldM_snoc_inv _
           (λ pre st,
              (∀ vj, vj ∈ pre →
                 ∃ vertex, skinnedVertex character (pool !! vj) = Js.Ok vertex ∧
                           (distanceTo vertex target <? st.1)%float = false) ∧
              ((st.1 = infinity ∧ st.2 = 0) ∨
               ∃ vertex, skinnedVertex character (pool !! st.2) = Js.Ok vertex ∧
                         st.1 = distanceTo vertex target))) in Hrun.
  - destruct Hrun as [Hmin Hbest]. intros vj Hvj.
    destruct (Hmin vj Hvj) as (vertex & Hvertex & Hnot).
    destruct Hbest as [[Hinf Hzero]|(b & Hb & Hd)].
    + destruct Hfirst as [H0| ->]; [|by apply elem_of_nil in Hvj].
      destruct (Hmin 0 H0) as (first & Hfirst & Hnot0).
      exists vertex, first. rewrite Hzero. split; [done|]. split; [done|].
      rewrite Hinf in Hnot, Hnot0. by apply ltb_nothing_below_infinity.
    + exists vertex, b. split; [done|]. split; [done|]. by rewrite <- Hd.
  - split; [|by left]. intros vj Hvj. by apply elem_of_nil in Hvj.
  - intros pre vi [m v0] st2 [Hmin Hbest] Hstep. unfold nearestStep in Hstep.
    js_bind Hstep. rename a into vertex. injection Hstep as <-. simpl in *.
    destruct (distanceTo vertex target <? m)%float eqn:Hlt; simpl.
    + split.
      * intros vj Hvj. apply elem_of_app in Hvj as [Hvj|Hvj].
        -- destruct (Hmin vj Hvj) as (w & Hw & Hnot). exists w. split; [done|].
           by eapply ltb_below_minimum.
        -- apply list_elem_of_singleton in Hvj as ->. exists vertex. split; [done|].
           apply ltb_irrefl.
      * right. by exists vertex.
    + split; [|done].
      intros vj Hvj. apply elem_of_app in Hvj as [Hvj|Hvj]; [by apply Hmin|].
      apply list_elem_of_singleton in Hvj as ->. by exists vertex.
Qed.

(** X3. On a mesh of more than three vertices the second loop of the
    binder binds every splat to a nearest vertex of the pool of its
    bone: the vertex recorded for splat [i] is the pool entry at some
    position [vi], and no entry of the pool that the search looked at is
    nearer to the splat centre, in posed world space, than that one.  The
    search looks at every entry of the pool, and in fast mode at every
    third one. *)
Theorem splat_takes_nearest_vertex character gs capsules capsuleBoneIndex fast gs' :
  3 < length (position character) →
  assignSplatsToPoints character gs capsules capsuleBoneIndex fast = Js.Ok gs' →
  ∃ pools,
    classifyVertices character capsules capsuleBoneIndex = Js.Ok pools ∧
    ∀ i, i < splatCount gs →
      ∃ bone pool vi,
        Js.index (splatBoneIndices gs) i = Some bone ∧
        pools !! bone = Some pool ∧
        Js.index (splatVertexIndices gs') i = pool !! vi ∧
        nearestInPool character
          (applyMatrix4 (sceneMatrixWorld gs) (center0 gs i)) pool
          (if fast then candidates (length pool) 3 else seq 0 (length pool)) vi.
Proof.
  intros Hmesh Hrun. unfold assignSplatsToPoints in Hrun.
  rewrite bool_decide_eq_false_2 in Hrun by lia.
  js_bind Hrun. injection Hrun as <-. rename a into pools, a0 into bound.
  exists pools. split; [done|]. simpl.
  apply (foldM_seq_inv _
           (λ k bound,
              length bound = k ∧
              ∀ i, i < k →
                ∃ bone pool vi,
                  Js.index (splatBoneIndices gs) i = Some bone ∧
                  pools !! bone = Some pool ∧
                  Js.index bound i = pool !! vi ∧
                  nearestInPool character
                    (applyMatrix4 (sceneMatrixWorld gs) (center0 gs i)) pool
                    (if fast then candidates (length pool) 3 else seq 0 (length pool))
                    vi)) in E0.
  - by destruct E0 as [_ Hall].
  - split; [done|]. intros i Hi. lia.
  - intros k b1 b2 Hk [Hlen Hall] Hstep. unfold bindStep in Hstep.
    destruct (Js.index (splatBoneIndices gs) k) as [bone|] eqn:Hbone; [|done].
    simpl in Hstep. destruct (pools !! bone) as [pool|] eqn:Hpool; [|done].
    js_bind Hstep. injection Hstep as <-. rename a into best.
    split; [rewrite length_app; simpl; lia|].
    intros i Hi. destruct (decide (i = k)) as [->|Hik].
    + exists bone, pool, best.2. split; [done|]. split; [done|]. split.
      { subst k. by rewrite index_snoc_last. }
      assert ((if fast then candidates (length pool) 3 else seq 0 (length pool))
              = candidates (length pool) (if fast then 3 else 1)) as ->.
      { destruct fast; [done|]. by rewrite candidates_all. }
      apply nearestStep_inv; [done|].
      destruct (candidates (length pool) (if fast then 3 else 1)) as [|vj rest] eqn:Hc;
        [by right|left].
      rewrite <- Hc. apply (candidates_first _ _ vj). rewrite Hc. by left.
    + rewrite index_snoc_old by lia. apply Hall. lia.
Qed.
End NearestFacts.


Section PlyFacts.
Import Calibration Ply.

Lemma prefix_app (p s : string) : String.prefix p (p +:+ s) = true.
Proof.
  induction p as [|c p IH]; simpl; [by destruct s|].
  destruct (Ascii.ascii_dec c c); [exact IH|done].
Qed.

Lemma rewritten_line (line : string) (a b : nat) :
  (if String.prefix "element vertex"
        (if String.prefix "element vertex" line
         then "element vertex " +:+ pretty a else line)
   then "element vertex " +:+ pretty b
   else if String.prefix "element vertex" line
        then "element vertex " +:+ pretty a else line)%string
  = (if String.prefix "element vertex" line
     then "element vertex " +:+ pretty b else line)%string.
Proof.
  destruct (String.prefix "element vertex" line) eqn:Hline.
  - change ("element vertex " +:+ pretty a)%string
      with ("element vertex" +:+ (" " +:+ pretty a))%string.
    by rewrite prefix_app.
  - by rewrite Hline.
Qed.

(** X7. Rewriting the vertex count of a header rewrites it for good: the
    header has as many lines as before, every line that starts with
    'element vertex' is the line 'element vertex N' and every other line
    is as it was; a second rewriting, by [cleanSplats] again or by
    [splitPLY] when the file is loaded, overrides the first, so that
    only the last count is left. *)
Theorem header_count_is_overridden (header : list string) (a b : nat) :
  length (createNewHeader header a) = length header ∧
  (∀ k line, header !! k = Some line →
     createNewHeader header a !! k =
       Some (if String.prefix "element vertex" line
             then "element vertex " +:+ pretty a else line)%string) ∧
  createNewHeader (createNewHeader header a) b = createNewHeader header b ∧
  createModifiedHeader (createNewHeader header a) b = createModifiedHeader header b.
Proof.
  unfold createNewHeader, createModifiedHeader. split; [by rewrite length_map|].
  split.
  { intros k line Hk. by rewrite list_lookup_fmap, Hk. }
  split.
  - unfold fmap. rewrite map_map. apply map_ext. intros line. apply rewritten_line.
  - unfold fmap. rewrite map_map. apply map_ext. intros line. apply rewritten_line.
Qed.

Lemma set_length target source offset out :
  set target source offset = Written out → length out = length target.
Proof.
  unfold set. destruct (Nat.leb_spec (offset + length source) (length target)); [|done].
  intros [= <-]. rewrite !length_app, length_take, length_drop. lia.
Qed.

Lemma setVertices_fits vertices : ∀ verticesArray vertexSize index,
  (∀ k vertex, vertices !! k = Some vertex →
     (index + k) * vertexSize + length (rawData vertex) ≤ length verticesArray) →
  ∃ out, setVertices verticesArray vertexSize index vertices = Written out ∧
         length out = length verticesArray.
Proof.
  induction vertices as [|vertex rest IH]; intros verticesArray vertexSize index Hfit.
  - by exists verticesArray.
  - simpl. unfold set at 1.
    pose proof (Hfit 0 vertex eq_refl) as H0. rewrite Nat.add_0_r in H0.
    destruct (Nat.leb_spec (index * vertexSize + length (rawData vertex))
                (length verticesArray)); [|lia].
    set (next := take _ _ ++ _ ++ drop _ _).
    assert (length next = length verticesArray) as Hnext.
    { unfold next. rewrite !length_app, length_take, length_drop. lia. }
    destruct (IH next vertexSize (S index)) as (out & Hout & Hlen).
    { intros k v Hk. rewrite Hnext.
      replace (S index + k) with (index + S k) by lia. by apply Hfit. }
    exists out. split; [done|]. congruence.
Qed.

Lemma setVertices_overflow vertices : ∀ verticesArray vertexSize index k vertex,
  vertices !! k = Some vertex →
  length verticesArray < (index + k) * vertexSize + length (rawData vertex) →
  setVertices verticesArray vertexSize index vertices = RangeError.
Proof.
  induction vertices as [|first rest IH];
    intros verticesArray vertexSize index k vertex Hk Hover; [done|].
  simpl. destruct (set verticesArray (rawData first) (index * vertexSize))
    as [next|] eqn:Hset; [|done].
  destruct k as [|k].
  - injection Hk as ->. unfold set in Hset. rewrite Nat.add_0_r in Hover.
    destruct (Nat.leb_spec (index * vertexSize + length (rawData vertex))
                (length verticesArray)); [lia|done].
  - apply (IH next vertexSize (S index) k vertex); [done|].
    rewrite (set_length _ _ _ _ Hset).
    by replace (S index + k) with (index + S k) by lia.
Qed.

Lemma setVertices_exact vertices : ∀ written vertexSize index,
  Forall (λ vertex, length (rawData vertex) = vertexSize) vertices →
  length written = index * vertexSize →
  setVertices (written ++ replicate (length vertices * vertexSize) Byte.x00)
    vertexSize index vertices
  = Written (written ++ (vertices ≫= rawData)).
Proof.
  induction vertices as [|vertex rest IH]; intros written vertexSize index Hall Hlen.
  - simpl. by rewrite !app_nil_r.
  - apply Forall_cons in Hall as [Hsize Hall].
    change (length (vertex :: rest) * vertexSize)
      with (vertexSize + length rest * vertexSize).
    rewrite replicate_add. cbn [setVertices]. unfold set.
    rewrite !length_app, !length_replicate.
    destruct (Nat.leb_spec (index * vertexSize + length (rawData vertex))
                (length written + (vertexSize + length rest * vertexSize))); [|lia].
    assert (take (index * vertexSize)
              (written ++ replicate vertexSize Byte.x00
                       ++ replicate (length rest * vertexSize) Byte.x00) = written) as ->.
    { apply take_app_length'. lia. }
    assert (drop (index * vertexSize + length (rawData vertex))
              (written ++ replicate vertexSize Byte.x00
                       ++ replicate (length rest * vertexSize) Byte.x00)
            = replicate (length rest * vertexSize) Byte.x00) as ->.
    { rewrite app_assoc. apply drop_app_length'.
      rewrite length_app, length_replicate. lia. }
    rewrite (app_assoc written).
    rewrite (IH (written ++ rawData vertex) vertexSize (S index) Hall).
    + by rewrite <- app_assoc.
    + rewrite length_app. lia.
Qed.

(** X8. [createPLYFile] writes the header lines, each closed by a line
    feed, and after them [vertices.length * vertexSize] bytes.  When
    each vertex comes with [vertexSize] raw bytes, the file is the
    header followed by the raw bytes of the vertices in their order.
    Raw data is copied to its slot whatever its length: the call returns
    when the raw data of every vertex ends inside the vertex array, and
    throws a RangeError when the raw data of some vertex runs over its
    end. *)
Theorem createPLYFile_layout header vertices vertexSize :
  let headerArray := encode (String.concat newline header +:+ newline) in
  let room := length vertices * vertexSize in
  ((∀ k vertex, vertices !! k = Some vertex →
      k * vertexSize + length (rawData vertex) ≤ room) →
   ∃ body, createPLYFile header vertices vertexSize = Written (headerArray ++ body) ∧
           length body = room) ∧
  ((∃ k vertex, vertices !! k = Some vertex ∧
      room < k * vertexSize + length (rawData vertex)) →
   createPLYFile header vertices vertexSize = RangeError) ∧
  (Forall (λ vertex, length (rawData vertex) = vertexSize) vertices →
   createPLYFile header vertices vertexSize
   = Written (headerArray ++ (vertices ≫= rawData))).
Proof.
  intros headerArray room. unfold createPLYFile. fold headerArray. split; [|split].
  - intros Hfit.
    destruct (setVertices_fits vertices (replicate room Byte.x00) vertexSize 0)
      as (out & Hout & Hlen).
    { intros k vertex Hk. rewrite length_replicate. by apply Hfit. }
    fold room. rewrite Hout. exists out. split; [done|].
    by rewrite Hlen, length_replicate.
  - intros (k & vertex & Hk & Hover). fold room.
    rewrite (setVertices_overflow vertices _ vertexSize 0 k vertex Hk); [done|].
    by rewrite length_replicate.
  - intros Hall.
    pose proof (setVertices_exact vertices [] vertexSize 0 Hall eq_refl) as Hexact.
    simpl in Hexact. by rewrite Hexact.
Qed.
End PlyFacts.

Section TextureFacts.
Import Textures.
Variable store : float → float.

Lemma write_length toArray k value : length (write store toArray k value) = length toArray.
Proof. unfold write. by rewrite length_insert. Qed.

Lemma write_lookup toArray k value j :
  write store toArray k value !! j =
  if decide (j = k ∧ k < length toArray) then Some (store value) else toArray !! j.
Proof.
  unfold write. destruct (decide (j = k)) as [->|Hne].
  - destruct (decide (k < length toArray)).
    + rewrite decide_True by done. by apply list_lookup_insert_eq.
    + rewrite decide_False by tauto. rewrite list_insert_ge by lia. done.
  - rewrite decide_False by tauto. by apply list_lookup_insert_ne.
Qed.

(** X14. [addChannels] fills the first [count] texels of the target, four
    channels each, and nothing else: channel [c] of texel [i] is 1 when
    [N > 3 - c] and the source entry [i * (4 - N) + c] otherwise ([NaN]
    where the source has no such entry), every value as the target
    array stores it; the entries from [4 * count] on are left as they
    were, and a channel that lies past the end of the target is dropped.
    For [N = 1] texel [i] is the source triple [3 i, 3 i + 1, 3 i + 2]
    followed by 1. *)
Theorem addChannels_fills_texels fromArray toArray count N :
  let filled := addChannels store fromArray toArray count N in
  length filled = length toArray ∧
  (∀ i c, i < count → c < 4 → i * 4 + c < length toArray →
     filled !! (i * 4 + c) = Some (store (channel fromArray N i c))) ∧
  (∀ k, count * 4 ≤ k → filled !! k = toArray !! k) ∧
  (∀ i c, c < 3 →
     channel fromArray 1 i c = default nan (fromArray !! (i * 3 + c)) ∧
     channel fromArray 1 i 3 = 1%float).
Proof.
  intros filled. unfold filled, addChannels. clear filled.
  assert (∀ i c, c < 3 →
            channel fromArray 1 i c = default nan (fromArray !! (i * 3 + c)) ∧
            channel fromArray 1 i 3 = 1%float) as Hone.
  { intros i c Hc. unfold channel, read. split; [|done].
    destruct (Z.ltb_spec (3 - Z.of_nat c) 1); [lia|].
    destruct (Z.ltb_spec (Z.of_nat i * (4 - 1) + Z.of_nat c) 0); [lia|].
    do 2 f_equal. lia. }
  induction count as [|count IH].
  - simpl. split; [done|]. split; [intros; lia|]. split; [done|]. exact Hone.
  - rewrite seq_S, foldl_app. simpl.
    destruct IH as (Hlen & Hin & Hout & _).
    set (before := foldl _ toArray (seq 0 count)) in *.
    split; [by rewrite !write_length|]. split; [|split; [|exact Hone]].
    + intros i c Hi Hc Hroom. rewrite !write_lookup, !write_length.
      destruct (decide (i = count)) as [->|Hne].
      * destruct c as [|[|[|[|c]]]]; try lia.
        -- rewrite decide_False by lia. rewrite decide_False by lia.
           rewrite decide_False by lia. rewrite decide_True by lia. done.
        -- rewrite decide_False by lia. rewrite decide_False by lia.
           rewrite decide_True by lia. done.
        -- rewrite decide_False by lia. rewrite decide_True by lia. done.
        -- rewrite decide_True by lia. done.
      * rewrite !decide_False by lia. apply Hin; lia.
    + intros k Hk. rewrite !write_lookup, !write_length.
      rewrite !decide_False by lia. apply Hout. lia.
Qed.
End TextureFacts.


Section ReloadFacts.
Import Archive.

Lemma firstSeen_replicate l c b :
  0 < c →
  firstSeen (l ++ replicate c b) =
  if decide (b ∈ l) then firstSeen l else firstSeen l ++ [b].
Proof.
  intros Hc. destruct c as [|c]; [lia|]. clear Hc.
  induction c as [|c IH].
  - simpl. rewrite firstSeen_snoc.
    destruct (decide (b ∈ l)) as [Hin|Hin].
    + rewrite decide_True by (by apply firstSeen_elem). done.
    + rewrite decide_False by (by rewrite firstSeen_elem). done.
  - rewrite replicate_S_end, app_assoc, firstSeen_snoc, IH.
    rewrite decide_True; [done|].
    rewrite <- IH. apply firstSeen_elem.
    apply elem_of_app. right. by left.
Qed.

Lemma positions_replicate b' l c b :
  positions b' (l ++ replicate c b) =
  positions b' l ++ (if decide (b = b') then seq (length l) c else []).
Proof.
  induction c as [|c IH].
  - simpl. rewrite app_nil_r. by destruct (decide _); rewrite app_nil_r.
  - rewrite replicate_S_end, app_assoc, positions_snoc, IH.
    rewrite length_app, length_replicate, <- app_assoc. f_equal.
    destruct (decide (b = b')); [|done]. by rewrite seq_S.
Qed.

(** The regrouping of an array that is made of blocks, one block for
    each bone, leaves it as it is. *)
Lemma regroup_blocks (blocks : list (option Z * nat)) :
  NoDup blocks.*1 → Forall (λ block, 0 < block.2) blocks →
  let bones := blocks ≫= λ block, replicate block.2 block.1 in
  firstSeen bones = blocks.*1 ∧ regroup bones = seq 0 (length bones).
Proof.
  induction blocks as [|[b c] blocks IH] using rev_ind; intros Hnodup Hpos bones.
  - done.
  - rewrite fmap_app in Hnodup. apply NoDup_app in Hnodup as (Hnodup & Hnew & _).
    apply Forall_app in Hpos as [Hpos Hc]. apply Forall_inv in Hc. simpl in Hc.
    destruct (IH Hnodup Hpos) as [Hfirst Hgroup]. clear IH.
    unfold bones. rewrite bind_app. simpl. rewrite app_nil_r.
    set (before := blocks ≫= λ block, replicate block.2 block.1) in *.
    assert (b ∉ before) as Hb.
    { intros Hin. apply firstSeen_elem in Hin. rewrite Hfirst in Hin.
      apply (Hnew b Hin). set_solver. }
    rewrite firstSeen_replicate by done. rewrite decide_False by done.
    split; [by rewrite Hfirst, fmap_app|].
    unfold regroup. rewrite firstSeen_replicate by done. rewrite decide_False by done.
    rewrite bind_app. simpl. rewrite app_nil_r.
    rewrite positions_replicate, decide_True by done.
    rewrite (positions_absent b before Hb). simpl.
    rewrite length_app, length_replicate, seq_app. simpl. f_equal.
    rewrite <- Hgroup. unfold regroup. apply bind_ext_elem.
    intros b' Hb'. rewrite positions_replicate.
    destruct (decide (b = b')) as [->|]; [|by rewrite app_nil_r].
    exfalso. apply Hb. by apply firstSeen_elem.
Qed.

Lemma index_positions bones b :
  map (Js.index bones) (positions b bones) = replicate (length (positions b bones)) b.
Proof.
  assert (∀ l, Forall (λ i, bones !! i = Some b) l →
               map (Js.index bones) l = replicate (length l) b) as Hall.
  { induction l as [|i l IH]; intros Hl; [done|].
    apply Forall_cons in Hl as [Hi Hl]. simpl. rewrite IH by done.
    unfold Js.index. by rewrite Hi. }
  apply Hall, Forall_forall. intros i Hi. by apply positions_elem.
Qed.

(** The bone array after a regrouping is made of blocks. *)
Lemma regrouped_blocks bones :
  map (Js.index bones) (regroup bones) =
  (map (λ b, (b, length (positions b bones))) (firstSeen bones))
    ≫= λ block, replicate block.2 block.1.
Proof.
  unfold regroup.
  induction (firstSeen bones) as [|b l IH]; [done|].
  cbn [map]. rewrite !bind_cons, map_app, IH, index_positions. done.
Qed.

Lemma regroup_twice bones :
  let bones1 := map (Js.index bones) (regroup bones) in
  firstSeen bones1 = firstSeen bones ∧ regroup bones1 = seq 0 (length bones1).
Proof.
  intros bones1. unfold bones1. rewrite regrouped_blocks.
  destruct (regroup_blocks
              (map (λ b, (b, length (positions b bones))) (firstSeen bones)))
    as [Hfirst Hgroup].
  - rewrite <- list_fmap_compose. simpl.
    assert ((fst ∘ (λ b, (b, length (positions b bones)))) <$> firstSeen bones
            = firstSeen bones) as ->.
    { rewrite <- (list_fmap_id (firstSeen bones)) at 2. by apply list_fmap_ext. }
    apply firstSeen_NoDup.
  - apply Forall_fmap, Forall_forall. intros b Hb. simpl.
    apply (proj1 (firstSeen_elem _ _)), list_elem_of_lookup_1 in Hb as [i Hi].
    apply (proj2 (positions_elem _ _ _)) in Hi. destruct (positions b bones); [|simpl; lia].
    by apply elem_of_nil in Hi.
  - split; [|done]. rewrite Hfirst. rewrite <- list_fmap_compose.
    rewrite <- (list_fmap_id (firstSeen bones)) at 2. by apply list_fmap_ext.
Qed.

Lemma map_index_seq {A} (arr : list (option A)) :
  map (Js.index arr) (seq 0 (length arr)) = arr.
Proof.
  induction arr as [|cell arr IH] using rev_ind; [done|].
  rewrite length_app. simpl. rewrite Nat.add_1_r, seq_S, map_app. simpl.
  rewrite index_snoc_last. f_equal.
  etrans; [|exact IH]. apply map_ext_in. intros i Hi. apply in_seq in Hi.
  apply index_snoc_old. lia.
Qed.

Lemma triples_index_seq {A} (arr : list (option A)) n :
  length arr = n * 3 →
  (seq 0 n ≫= λ i, [Js.index arr (i * 3); Js.index arr (i * 3 + 1);
                    Js.index arr (i * 3 + 2)]) = arr.
Proof.
  revert arr. induction n as [|n IH]; intros arr Hlen.
  - by destruct arr.
  - rewrite seq_S, bind_app, bind_singleton. cbn [Nat.add].
    assert (∃ front c0 c1 c2, arr = front ++ [c0; c1; c2] ∧ length front = n * 3)
      as (front & c0 & c1 & c2 & -> & Hfront).
    { exists (take (n * 3) arr).
      destruct (drop (n * 3) arr) as [|c0 [|c1 [|c2 [|c3 rest]]]] eqn:Hdrop;
        pose proof (f_equal length Hdrop) as Hl; rewrite length_drop in Hl;
        simpl in Hl; try lia.
      exists c0, c1, c2. split; [|rewrite length_take; lia].
      by rewrite <- Hdrop, take_drop. }
    f_equal.
    + etrans; [|exact (IH front Hfront)]. apply bind_ext_elem. intros i Hi.
      apply elem_of_seq in Hi. by rewrite !index_snoc_old by lia.
    + rewrite <- Hfront.
      pose proof (index_snoc_new front [c0; c1; c2] 0) as H0.
      pose proof (index_snoc_new front [c0; c1; c2] 1) as H1.
      pose proof (index_snoc_new front [c0; c1; c2] 2) as H2.
      rewrite Nat.add_0_r in H0. by rewrite H0, H1, H2.
Qed.

Lemma jsonNumber_twice (cell : option float) :
  (cell ≫= jsonNumber) ≫= jsonNumber = cell ≫= jsonNumber.
Proof.
  destruct cell as [x|]; [|done]. simpl. unfold jsonNumber.
  destruct (is_nan x || is_infinity x) eqn:Hx; [done|].
  destruct (is_zero x) eqn:Hz; simpl.
  - reflexivity.
  - unfold jsonNumber. by rewrite Hx, Hz.
Qed.

Lemma Forall2_seq_lookup {A} (l l' : list A) :
  Forall2 (λ i v, l !! i = Some v) (seq 0 (length l)) l' → l' = l.
Proof.
  intros Hall. apply list_eq. intros i.
  pose proof (Forall2_length _ _ _ Hall) as Hlen. rewrite length_seq in Hlen.
  destruct (decide (i < length l)) as [Hi|Hi].
  - destruct (lookup_lt_is_Some_2 l' i ltac:(lia)) as [v Hv].
    pose proof (Forall2_lookup_lr _ _ _ i i v Hall) as Hlook.
    rewrite lookup_seq_lt in Hlook by done. specialize (Hlook eq_refl Hv).
    simpl in Hlook. congruence.
  - rewrite !lookup_ge_None_2 by lia. done.
Qed.

Lemma json_triples_stable (order : list nat) (poses : list (option float)) :
  let read := map (λ cell, cell ≫= jsonNumber) poses in
  map (λ cell, cell ≫= jsonNumber)
    (order ≫= λ i, [Js.index read (i * 3); Js.index read (i * 3 + 1);
                    Js.index read (i * 3 + 2)])
  = order ≫= λ i, [Js.index read (i * 3); Js.index read (i * 3 + 1);
                   Js.index read (i * 3 + 2)].
Proof.
  intros read. induction order as [|i l IH]; [done|].
  rewrite bind_cons, map_app, IH. f_equal. simpl. unfold read.
  by rewrite !index_stringify, !jsonNumber_twice.
Qed.

Lemma Forall2_seq_take {A} (l l' : list A) n :
  n ≤ length l →
  Forall2 (λ i v, l !! i = Some v) (seq 0 n) l' → l' = take n l.
Proof.
  intros Hn Hall. apply Forall2_seq_lookup. rewrite length_take_le by done.
  pose proof (Forall2_length _ _ _ Hall) as Hlen. rewrite length_seq in Hlen.
  apply Forall2_same_length_lookup. split; [by rewrite length_seq|].
  intros i j v Hj Hv. apply lookup_seq in Hj as [-> Hi]. simpl.
  rewrite lookup_take_lt by done.
  pose proof (Forall2_lookup_lr _ _ _ i i v Hall) as Hlook.
  rewrite lookup_seq_lt in Hlook by done. by apply Hlook.
Qed.

(** X12. Saving a loaded avatar again.  [GVRM.save] writes the arrays of
    the avatar and, for the cloud, a copy of the file at [gsPath].  An
    archive written from the arrays of a loaded avatar and a cloud file
    loads without error exactly when the file has a vertex for every
    splat of the arrays.  It loads to the same three arrays and the same
    bone-to-scene map: regrouping by bone and the passage through JSON
    change the arrays once, at the first load, and never again.  Its
    cloud is the first vertices of the file in the order of the file:
    the second load does not regroup, so the cloud agrees with the
    arrays only if the file was already in their order. *)
Theorem reload_keeps_file_order {PlyVertex Vrm} (vrm vrm' : Vrm)
    (ply ply' : list PlyVertex) (binding : ExtraData) (loaded : Gvrm PlyVertex) :
  load (save vrm ply binding) = Js.Ok loaded →
  load (save vrm' ply' (gsBinding loaded)) =
  if decide (gsSplatCount loaded ≤ length ply')
  then Js.Ok {| gsSplatCount := gsSplatCount loaded;
                gsCloud := take (gsSplatCount loaded) ply';
                gsBinding := gsBinding loaded;
                gvrmBoneSceneMap := gvrmBoneSceneMap loaded |}
  else Js.Throw Js.TypeError.
Proof.
  intros Hload.
  apply load_inv in Hload as (Hbinding & Hmap & Hcount & Hcloud).
  simpl in Hbinding, Hmap, Hcloud.
  set (bones := splatBoneIndices binding) in *.
  pose proof (Forall2_length _ _ _ Hcloud) as Hn.
  rewrite (Permutation_length (regroup_Permutation bones)), length_seq in Hn.
  unfold updateExtraData in Hbinding. rewrite sortLoop_order in Hbinding.
  simpl in Hbinding. fold bones in Hbinding.
  destruct (regroup_twice bones) as [Hfirst Hgroup]. simpl in Hfirst, Hgroup.
  set (bones1 := map (Js.index bones) (regroup bones)) in *.
  assert (length (regroup bones) = length bones) as Hregroup.
  { by rewrite (Permutation_length (regroup_Permutation bones)), length_seq. }
  assert (length bones1 = length bones) as Hbones1.
  { unfold bones1. by rewrite length_map. }
  destruct loaded as [count cloud bind1 boneMap]. simpl in *. subst bind1 boneMap count.
  clear Hcloud. rewrite <- Hn. clear Hn cloud.
  unfold load, sortSplatsByBones, splitPLY. simpl. fold bones1.
  set (groups1 := sceneSplatIndices (sortLoop 0 bones1 sortInit)).
  assert (sceneOrder groups1 = seq 0 (length bones)) as Horder.
  { unfold groups1. by rewrite sortLoop_order, Hgroup, Hbones1. }
  set (verts1 := map (Js.index (splatVertexIndices binding)) (regroup bones)).
  set (poses1 := regroup bones ≫= _).
  assert (map (λ cell, cell ≫= jsonNumber) poses1 = poses1) as Hjson.
  { apply json_triples_stable. }
  assert (updateExtraData
            (stringify {| splatVertexIndices := verts1; splatBoneIndices := bones1;
                          splatRelativePoses := poses1 |}) groups1
          = {| splatVertexIndices := verts1; splatBoneIndices := bones1;
               splatRelativePoses := poses1 |}) as Hupdate.
  { unfold updateExtraData, stringify. simpl. rewrite Horder, Hjson. f_equal.
    - rewrite <- Hregroup.
      rewrite <- (length_map (Js.index (splatVertexIndices binding)) (regroup bones)).
      apply map_index_seq.
    - rewrite <- Hbones1. apply map_index_seq.
    - apply triples_index_seq. unfold poses1. rewrite length_bind3. lia. }
  rewrite Hupdate.
  assert (boneSceneMap (sortLoop 0 bones1 sortInit)
          = boneSceneMap (sortLoop 0 bones sortInit)) as ->.
  { apply map_eq. intros b. apply option_eq. intros k.
    destruct (sortLoop_spec bones1) as (_ & Hmap1 & _).
    destruct (sortLoop_spec bones) as (_ & Hmap0 & _).
    by rewrite Hmap1, Hmap0, Hfirst. }
  destruct (mapM _ (Js.keys groups1)) as [scenes|] eqn:Hscenes.
  - change (Js.Ok scenes ≫= ?k) with (k scenes). cbv beta.
    assert (Forall2 (λ i v, ply' !! i = Some v) (seq 0 (length bones)) (mjoin scenes))
      as Hall.
    { rewrite <- Horder. unfold sceneOrder.
      rewrite list_join_bind. apply Forall2_bind.
      apply mapM_Some in Hscenes.
      eapply Forall2_impl; [exact Hscenes|].
      intros k scene Hscene. by apply mapM_Some in Hscene. }
    assert (length bones ≤ length ply') as Hlong.
    { destruct (decide (length bones = 0)) as [->|Hpos]; [lia|].
      pose proof (Forall2_length _ _ _ Hall) as Hlen. rewrite length_seq in Hlen.
      destruct (lookup_lt_is_Some_2 (mjoin scenes) (length bones - 1) ltac:(lia))
        as [v Hv].
      pose proof (Forall2_lookup_lr _ _ _ (length bones - 1) (length bones - 1) v Hall)
        as Hlook.
      rewrite lookup_seq_lt in Hlook by lia. specialize (Hlook eq_refl Hv).
      simpl in Hlook. apply lookup_lt_Some in Hlook. lia. }
    rewrite decide_True by done.
    rewrite (Forall2_seq_take ply' (mjoin scenes) (length bones) Hlong Hall).
    by rewrite length_take_le.
  - rewrite decide_False; [done|]. intros Hlong.
    apply eq_None_not_Some in Hscenes. apply Hscenes.
    apply mapM_is_Some, Forall_forall. intros sceneIndex Hscene.
    apply mapM_is_Some, Forall_forall. intros index Hindex.
    apply lookup_lt_is_Some.
    assert (index ∈ sceneOrder groups1) as Hin.
    { unfold sceneOrder. apply list_elem_of_bind. by exists sceneIndex. }
    rewrite Horder in Hin. apply elem_of_seq in Hin. lia.
Qed.

(** The archive of the example, saved again with the file it came from:
    the arrays are those of the first load, regrouped by bone, and the
    cloud is in the order of the file, so the second and the third splat
    have each other's binding. *)
Lemma reload_keeps_file_order_witness :
  load (save tt exampleCloud (gsBinding exampleLoaded)) =
  (if decide (gsSplatCount exampleLoaded ≤ length exampleCloud)
   then Js.Ok {| gsSplatCount := gsSplatCount exampleLoaded;
                 gsCloud := take (gsSplatCount exampleLoaded) exampleCloud;
                 gsBinding := gsBinding exampleLoaded;
                 gvrmBoneSceneMap := gvrmBoneSceneMap exampleLoaded |}
   else Js.Throw Js.TypeError) ∧
  take (gsSplatCount exampleLoaded) exampleCloud = [100; 200; 300] ∧
  gsCloud exampleLoaded = [100; 300; 200].
Proof.
  split; [|done].
  apply (reload_keeps_file_order tt tt exampleCloud exampleCloud exampleBinding
           exampleLoaded).
  vm_compute. reflexivity.
Defined.
End ReloadFacts.


Section CleanupFacts.
Import Cleanup.

Lemma cleanupStep_reach bones poses colors i :
  cleanupStep bones poses colors i =
  if (reach (Js.index bones i) <? distance poses i)%float then hide colors i else colors.
Proof.
  unfold cleanupStep, reach.
  destruct (0.2 <? distance poses i)%float eqn:Hfar.
  - assert ((0.1 <? distance poses i)%float = true) as Hnear.
    { eapply ltb_trans; [|exact Hfar]. reflexivity. }
    repeat case_bool_decide; simplify_eq; simpl;
      rewrite ?Hnear, ?Hfar; simpl; try done; by destruct (_ <? _)%float.
  - repeat case_bool_decide; simplify_eq; simpl;
      rewrite ?Hfar; simpl; try done; by destruct (_ <? _)%float.
Qed.

(** X13. The clean-up at the end of [load] hides a splat, by setting its
    alpha to 0, exactly when the length of its stored offset is beyond
    the reach of its bone: 0.3 for bone 57 (the head), 0.1 for the bones
    21 and 19 (the feet) and 0.2 for every other bone, a missing bone
    index included.  A splat whose offset has a [NaN] length is never
    hidden.  Nothing else changes: the three colour channels of every
    splat, the alpha of the splats within reach and the entries of the
    splats from [splatCount] on are as they were. *)
Theorem cleanup_hides_beyond_reach splatCount bones poses colors :
  let cleaned := cleanup splatCount bones poses colors in
  length cleaned = length colors ∧
  (∀ i, i < splatCount → i * 4 + 3 < length colors →
     cleaned !! (i * 4 + 3) =
       if (reach (Js.index bones i) <? distance poses i)%float
       then Some 0%float else colors !! (i * 4 + 3)) ∧
  (∀ k, (k mod 4 ≠ 3 ∨ splatCount * 4 ≤ k) → cleaned !! k = colors !! k) ∧
  (∀ i, is_nan (distance poses i) = true →
     cleaned !! (i * 4 + 3) = colors !! (i * 4 + 3)).
Proof.
  intros cleaned. unfold cleaned, cleanup. clear cleaned.
  assert (∀ n : nat,
            let cleaned := foldl (cleanupStep bones poses) colors (seq 0 n) in
            length cleaned = length colors ∧
            (∀ i, i < n → i * 4 + 3 < length colors →
               cleaned !! (i * 4 + 3) =
                 if (reach (Js.index bones i) <? distance poses i)%float
                 then Some 0%float else colors !! (i * 4 + 3)) ∧
            (∀ k, (k mod 4 ≠ 3 ∨ n * 4 ≤ k) → cleaned !! k = colors !! k)) as Hall.
  { induction n as [|n IH].
    - cbn [seq foldl]. split; [done|]. split; [intros; lia|done].
    - rewrite seq_S, foldl_app. cbn [foldl Nat.add]. destruct IH as (Hlen & Hin & Hout).
      set (before := foldl _ colors (seq 0 n)) in *.
      rewrite cleanupStep_reach. unfold hide.
      split; [by destruct (_ <? _)%float; rewrite ?length_insert|]. split.
      + intros i Hi Hroom. destruct (decide (i = n)) as [->|Hne].
        * destruct (_ <? _)%float.
          -- apply list_lookup_insert_eq. lia.
          -- apply Hout. right. lia.
        * destruct (reach (Js.index bones n) <? distance poses n)%float.
          -- rewrite list_lookup_insert_ne by lia. apply Hin; lia.
          -- apply Hin; lia.
      + intros k Hk. destruct (reach (Js.index bones n) <? distance poses n)%float.
        * rewrite list_lookup_insert_ne.
          -- apply Hout. destruct Hk; [by left|right; lia].
          -- intros <-. destruct Hk as [Hk|Hk]; [|lia].
             apply Hk. symmetry. apply (Nat.mod_unique _ _ n); lia.
        * apply Hout. destruct Hk; [by left|right; lia]. }
  destruct (Hall splatCount) as (Hlen & Hin & Hout).
  split; [done|]. split; [done|]. split; [done|].
  intros i Hnan.
  assert ((reach (Js.index bones i) <? distance poses i)%float = false) as Hnot.
  { rewrite FloatAxioms.ltb_spec. unfold is_nan in Hnan.
    rewrite FloatAxioms.eqb_spec in Hnan. unfold SFltb, SFcompare.
    destruct (Prim2SF (distance poses i)) as [s|s| |s m e];
      [| | by destruct (Prim2SF (reach _)) as [[]|[]| |[]]|].
    - by destruct s.
    - by destruct s.
    - rewrite SFeqb_refl in Hnan; done. }
  destruct (decide (i < splatCount)) as [Hi|Hi].
  - destruct (decide (i * 4 + 3 < length colors)) as [Hroom|Hroom].
    + by rewrite Hin, Hnot.
    + rewrite !lookup_ge_None_2 by lia. done.
  - apply Hout. right. lia.
Qed.
End CleanupFacts.


(** A running maximum: what is not above the old maximum is not above a
    greater one. *)
Lemma ltb_above_maximum d d2 m :
  (m <? d2)%float = true → (m <? d)%float = false → (d2 <? d)%float = false.
Proof.
  rewrite !FloatAxioms.ltb_spec. unfold SFltb, SFcompare.
  destruct (Prim2SF d) as [sa|sa| |sa ma ea], (Prim2SF d2) as [sb|sb| |sb mb eb],
           (Prim2SF m) as [sc|sc| |sc mc ec];
    try destruct sa; try destruct sb; try destruct sc; simpl;
    try reflexivity; try discriminate; sf_cases.
Qed.

Lemma foldM_seq_total {St} (body : St → nat → Js.result St) (I : nat → St → Prop) n s0 :
  I 0 s0 →
  (∀ k s1, k < n → I k s1 → ∃ s2, body s1 k = Js.Ok s2 ∧ I (S k) s2) →
  ∃ s, Js.foldM body s0 (seq 0 n) = Js.Ok s ∧ I n s.
Proof.
  intros H0 Hstep. induction n as [|n IH].
  - by exists s0.
  - destruct IH as (s1 & Hrun & Hs1); [intros k s Hk; apply Hstep; lia|].
    destruct (Hstep n s1 ltac:(lia) Hs1) as (s2 & Hbody & Hs2).
    exists s2. split; [|done].
    rewrite seq_S, foldM_app, Hrun. simpl. by rewrite Hbody.
Qed.

Section AngleFacts.
Import Angles.

Lemma windowIndex_range steps i j :
  0 < steps → (0 ≤ windowIndex steps i j < Z.of_nat steps)%Z.
Proof.
  intros Hsteps. unfold windowIndex.
  pose proof (Z.rem_bound_abs (Z.of_nat i + j) (Z.of_nat steps) ltac:(lia)) as Hrem.
  destruct (Z.ltb_spec (Z.rem (Z.of_nat i + j) (Z.of_nat steps)) 0); lia.
Qed.

Lemma measure_length detect startAngle endAngle steps :
  length (measure detect startAngle endAngle steps) = steps.
Proof. unfold measure. by rewrite length_map, length_seq. Qed.

Lemma measure_lookup detect startAngle endAngle steps i :
  i < steps →
  measure detect startAngle endAngle steps !! i =
  Some {| angle := (startAngle + (endAngle - startAngle) / Js.number (Z.of_nat steps)
                                 * Js.number (Z.of_nat i))%float;
          score := scoreOf (detect i); index := i |}.
Proof.
  intros Hi. unfold measure. rewrite list_lookup_fmap, lookup_seq_lt by done. done.
Qed.

(** X9. [findBestAngleInRange] never throws: over the full circle every
    window of five steps wraps around inside the measurements, whatever
    the number of steps.  It returns the angle of one of its steps, or
    no angle ([null], with the score [-Infinity]); and it returns no
    angle when the detector found the two wrists at none of the steps,
    which is what makes the caller fail with ErrorID 2. *)
Theorem findBestAngleInRange_returns detect startAngle endAngle steps :
  ∃ best,
    findBestAngleInRange detect startAngle endAngle steps = Js.Ok best ∧
    oneOfTheSteps startAngle endAngle steps best ∧
    ((∀ i, i < steps → scoreOf (detect i) = neg_infinity) →
     bestAngle best = None ∧ bestScore best = neg_infinity).
Proof.
  unfold findBestAngleInRange.
  set (measurements := measure detect startAngle endAngle steps).
  set (initial := {| bestAngle := None; bestScore := neg_infinity |}).
  destruct (abs _ <? 0.01)%float.
  - destruct (foldM_seq_total (circleStep measurements steps)
                (λ k best,
                   oneOfTheSteps startAngle endAngle steps best ∧
                   ((∀ i, i < steps → scoreOf (detect i) = neg_infinity) →
                    best = initial)) steps initial) as (best & Hrun & Hone & Hnone).
    + split; [by left|done].
    + intros k best Hk [Hone Hnone]. unfold circleStep.
      assert (∀ j, ∃ m, measurementAt measurements (windowIndex steps k j) = Some m ∧
                        ∃ i, i < steps ∧ score m = scoreOf (detect i)) as Hwindow.
      { intros j. pose proof (windowIndex_range steps k j ltac:(lia)) as Hrange.
        unfold measurementAt. destruct (Z.ltb_spec (windowIndex steps k j) 0); [lia|].
        unfold measurements. rewrite measure_lookup by lia. eexists. split; [done|].
        simpl. exists (Z.to_nat (windowIndex steps k j)). split; [lia|done]. }
      cbn [map].
      destruct (Hwindow (-2)%Z) as (m0 & -> & i0 & Hi0 & Hs0).
      destruct (Hwindow (-1)%Z) as (m1 & -> & i1 & Hi1 & Hs1).
      destruct (Hwindow 0%Z) as (m2 & -> & i2 & Hi2 & Hs2).
      destruct (Hwindow 1%Z) as (m3 & -> & i3 & Hi3 & Hs3).
      destruct (Hwindow 2%Z) as (m4 & -> & i4 & Hi4 & Hs4).
      cbn [mapM fmap option_fmap option_map mbind option_bind mret option_ret].
      set (validScores := List.filter _ _).
      case_bool_decide as Hvalid.
      { exists best. done. }
      destruct (bestScore best <? _)%float.
      * unfold measurements. rewrite measure_lookup by done.
        eexists. split; [done|]. simpl. split.
        -- right. by exists k.
        -- intros Hall. exfalso. apply Hvalid. unfold validScores.
           rewrite Hs0, Hs1, Hs2, Hs3, Hs4, !Hall by done. reflexivity.
      * exists best. done.
    + exists best. split; [done|]. split; [done|].
      intros Hall. by rewrite (Hnone Hall).
  - eexists. split; [done|].
    assert (∀ n, n ≤ steps →
              let best := foldl rangeStep initial (take n measurements) in
              oneOfTheSteps startAngle endAngle steps best ∧
              ((∀ i, i < steps → scoreOf (detect i) = neg_infinity) → best = initial))
      as Hall.
    { induction n as [|n IH]; intros Hn.
      - simpl. split; [by left|done].
      - destruct (IH ltac:(lia)) as [Hone Hnone].
        rewrite (take_S_r measurements n _ (measure_lookup detect startAngle endAngle steps n
                                   ltac:(lia))).
        rewrite foldl_app. cbn [foldl]. set (before := foldl _ _ (take n _)) in *.
        unfold rangeStep. cbn [score angle].
        destruct (bestScore before <? scoreOf (detect n))%float eqn:Hlt.
        + split; [right; exists n; split; [lia|done]|].
          intros Hinvalid. rewrite (Hnone Hinvalid), Hinvalid in Hlt by lia. done.
        + done. }
    specialize (Hall steps ltac:(lia)).
    rewrite firstn_all2 in Hall by (unfold measurements; rewrite measure_length; lia).
    destruct Hall as [Hone Hnone]. split; [done|].
    intros Hinvalid. by rewrite (Hnone Hinvalid).
Qed.

(** X10. Over a range that is not the full circle, [findBestAngleInRange]
    returns a score that no step exceeds, and that score is [-Infinity]
    with no angle or the score of the step whose angle is returned. *)
Theorem findBestAngleInRange_range_maximum detect startAngle endAngle steps :
  (abs (endAngle - startAngle - 2 * Math_PI) <? 0.01)%float = false →
  ∃ best,
    findBestAngleInRange detect startAngle endAngle steps = Js.Ok best ∧
    (∀ i, i < steps → (bestScore best <? scoreOf (detect i))%float = false) ∧
    ((bestAngle best = None ∧ bestScore best = neg_infinity) ∨
     ∃ i, i < steps ∧
       bestAngle best =
         Some (startAngle + (endAngle - startAngle) / Js.number (Z.of_nat steps)
                            * Js.number (Z.of_nat i))%float ∧
       bestScore best = scoreOf (detect i)).
Proof.
  intros Hrange. unfold findBestAngleInRange. rewrite Hrange.
  set (measurements := measure detect startAngle endAngle steps).
  set (initial := {| bestAngle := None; bestScore := neg_infinity |}).
  eexists. split; [done|].
  assert (∀ n, n ≤ steps →
            let best := foldl rangeStep initial (take n measurements) in
            (∀ i, i < n → (bestScore best <? scoreOf (detect i))%float = false) ∧
            ((bestAngle best = None ∧ bestScore best = neg_infinity) ∨
             ∃ i, i < n ∧
               bestAngle best =
                 Some (startAngle + (endAngle - startAngle) / Js.number (Z.of_nat steps)
                                    * Js.number (Z.of_nat i))%float ∧
               bestScore best = scoreOf (detect i))) as Hall.
  { induction n as [|n IH]; intros Hn.
    - simpl. split; [lia|by left].
    - destruct (IH ltac:(lia)) as [Hmax Hfrom].
      rewrite (take_S_r measurements n _ (measure_lookup detect startAngle endAngle steps n
                                            ltac:(lia))).
      rewrite foldl_app. cbn [foldl]. set (before := foldl _ _ (take n _)) in *.
      unfold rangeStep. cbn [score angle].
      destruct (bestScore before <? scoreOf (detect n))%float eqn:Hlt; cbn [bestScore bestAngle].
      + split.
        * intros i Hi. destruct (decide (i = n)) as [->|Hne]; [apply ltb_irrefl|].
          apply (ltb_above_maximum _ _ (bestScore before)); [done|]. apply Hmax. lia.
        * right. exists n. split; [lia|done].
      + split.
        * intros i Hi. destruct (decide (i = n)) as [->|Hne]; [done|]. apply Hmax. lia.
        * destruct Hfrom as [Hnone|(i & Hi & Hangle & Hscore)]; [by left|].
          right. exists i. split; [lia|done]. }
  specialize (Hall steps ltac:(lia)).
  rewrite firstn_all2 in Hall by (unfold measurements; rewrite measure_length; lia).
  exact Hall.
Qed.

Lemma findBestAngleInRange_range_maximum_witness :
  ∃ best,
    findBestAngleInRange wristsApart 0 1 3 = Js.Ok best ∧
    (∀ i, i < 3 → (bestScore best <? scoreOf (wristsApart i))%float = false) ∧
    ((bestAngle best = None ∧ bestScore best = neg_infinity) ∨
     ∃ i, i < 3 ∧
       bestAngle best = Some (0 + (1 - 0) / Js.number (Z.of_nat 3)
                                  * Js.number (Z.of_nat i))%float ∧
       bestScore best = scoreOf (wristsApart i)).
Proof. apply (findBestAngleInRange_range_maximum wristsApart 0 1 3). reflexivity. Defined.
End AngleFacts.


Section CalibrationAcceptsExample.
Import Calibration CalibrationExample.

Lemma calculateHeights_returns_first_accepted_witness :
  let centre := default {| cx := 0; cz := 0 |} None in
  ∃ j, 0 ≤ j ≤ 27 ∧ 0.3%float = radiusAfter j ∧
    measureHeights None standingCloud centre (radiusAfter j) 1
    = Js.Ok {| min := 0.01; max := 1.71 |} ∧
    rejected standingCloud centre (radiusAfter j) {| min := 0.01; max := 1.71 |} = false ∧
    (10000 ≤ Z.of_nat (length (testFilteredVertices standingCloud centre 0.3
                                  {| min := 0.01; max := 1.71 |})))%Z ∧
    (max {| min := 0.01; max := 1.71 |} - min {| min := 0.01; max := 1.71 |} <=? 0.3)%float
    = false ∧
    ∀ i, 0 ≤ i < j →
      (radiusAfter i <? 3.0)%float = true ∧
      ∃ measured,
        measureHeights None standingCloud centre (radiusAfter i) 1 = Js.Ok measured ∧
        rejected standingCloud centre (radiusAfter i) measured = true.
Proof.
  apply (calculateHeights_returns_first_accepted None standingCloud None None 1 0 1
           {| min := 0.01; max := 1.71 |} 0.3).
  - lia.
  - vm_compute. reflexivity.
Defined.

Lemma foreground_inside_band_witness :
  sublist [ {| x := 0; y := (-1)%float; z := 0; rawData := [] |} ] exampleCloud ∧
  ∀ vertex, vertex ∈ [ {| x := 0; y := (-1)%float; z := 0; rawData := [] |} ] →
    (distanceXZ {| cx := 0; cz := 0 |} vertex <=? 1)%float = true ∧
    (min exampleHeights - 0.5 <=? - y vertex)%float = true ∧
    (- y vertex <=? max exampleHeights + 0.5)%float = true ∧
    (((max exampleHeights - min exampleHeights) * 0.05 + min exampleHeights
      <=? - y vertex)%float = true ∨
     (min exampleHeights <=? - y vertex)%float = true ∧
     (axisDistance vertex <? 0.5)%float = true).
Proof.
  apply (foreground_inside_band exampleCloud {| cx := 0; cz := 0 |} 1 exampleHeights
           {| cx := 0; cz := 0 |} exampleHeights
           [ {| x := 0; y := (-1)%float; z := 0; rawData := [] |} ]
           [ {| x := 0.1; y := (-0.02)%float; z := 0; rawData := [] |} ]).
  vm_compute. reflexivity.
Defined.
End CalibrationAcceptsExample.

Section NearestExampleFacts.
Import THREE Binding Nearest NearestExample.
#[local] Existing Instance exampleServices.

Lemma splat_takes_nearest_capsule_witness :
  exampleCapsules ≠ [] ∧
  ∀ i, i < splatCount exampleSplats →
    nearestCapsule exampleCapsules exampleCapsuleBoneIndex
      (applyMatrix4 (sceneMatrixWorld exampleSplats) (center0 exampleSplats i))
      (Js.index (splatBoneIndices exampleClassified) i).
Proof.
  split; [discriminate|].
  apply (splat_takes_nearest_capsule exampleSplats exampleCapsules
           exampleCapsuleBoneIndex false exampleClassified 4).
  - discriminate.
  - exact example_bones.
Defined.

Lemma vertex_pools_partition_witness :
  (∀ bone, is_Some (examplePools !! bone) ↔ bone ∈ exampleCapsuleBoneIndex) ∧
  (∀ bone pool, examplePools !! bone = Some pool →
     pool = filter (λ i, vertexBone exampleCharacter exampleCapsules
                           exampleCapsuleBoneIndex i = Some bone)
                   (seq 0 (length (position exampleCharacter)))) ∧
  (∀ i, i < length (position exampleCharacter) →
     ∃ bone pool vertex ci,
       examplePools !! bone = Some pool ∧ i ∈ pool ∧
       (∀ bone' pool', examplePools !! bone' = Some pool' → i ∈ pool' → bone' = bone) ∧
       skinnedVertex exampleCharacter (Some i) = Js.Ok vertex ∧
       exampleCapsuleBoneIndex !! ci = Some bone ∧
       nearestTriangle exampleCapsules vertex ci).
Proof.
  apply (vertex_pools_partition exampleCharacter exampleCapsules exampleCapsuleBoneIndex
           examplePools).
  vm_compute. reflexivity.
Defined.

Lemma splat_takes_nearest_vertex_witness :
  ∃ pools,
    classifyVertices exampleCharacter exampleCapsules exampleCapsuleBoneIndex
    = Js.Ok pools ∧
    ∀ i, i < splatCount exampleClassified →
      ∃ bone pool vi,
        Js.index (splatBoneIndices exampleClassified) i = Some bone ∧
        pools !! bone = Some pool ∧
        Js.index (splatVertexIndices exampleBound) i = pool !! vi ∧
        nearestInPool exampleCharacter
          (applyMatrix4 (sceneMatrixWorld exampleClassified) (center0 exampleClassified i))
          pool (seq 0 (length pool)) vi.
Proof.
  apply (splat_takes_nearest_vertex exampleCharacter exampleClassified exampleCapsules
           exampleCapsuleBoneIndex false exampleBound).
  - simpl. lia.
  - exact example_points.
Defined.
End NearestExampleFacts.


Section CapsuleFacts.
Import THREE Capsules.

(** Induction on a node with the property at hand for its children. *)
Lemma Node_children_ind (P : Node → Prop) :
  (∀ name isBone id position children,
     Forall P children → P (MkNode name isBone id position children)) →
  ∀ node, P node.
Proof.
  intros Hnode.
  fix IH 1. intros [name isBone id position children]. apply Hnode.
  induction children as [|childNode rest IHrest]; constructor; [apply IH|apply IHrest].
Qed.

Lemma configured_app edges1 edges2 :
  configured (edges1 ++ edges2) = configured edges1 ++ configured edges2.
Proof. unfold configured. apply omap_app. Qed.

(** The traversal is one loop over the configured pairs. *)
Lemma traverseNodes_loop bones node :
  ∀ built,
    _traverseNodes bones node built
    = Js.foldM (pushCapsule bones) built (configured (boneEdges node)).
Proof.
  induction node as [name isBone id position children IH] using Node_children_ind.
  intros built. cbn [_traverseNodes boneEdges].
  set (node := MkNode name isBone id position children) in *. clearbody node.
  revert built. induction children as [|childNode rest IHrest]; intros built; [done|].
  apply Forall_cons in IH as [IHchild IH]. specialize (IHrest IH).
  cbn [flat_map]. rewrite configured_app, foldM_app.
  destruct (Capsules.isBone childNode) eqn:Hbone.
  - change ((node, childNode) :: boneEdges childNode)
      with ([(node, childNode)] ++ boneEdges childNode).
    rewrite configured_app, foldM_app. unfold addCapsule.
    unfold configured at 1. cbn [omap list_omap snd].
    destruct (boneConfigOf (Capsules.name childNode)) as [boneConfig|];
      cbn [fmap option_fmap option_map Js.foldM].
    + destruct (pushCapsule bones built _) as [built1|e]; [|done].
      cbn [Js.bind]. rewrite IHchild.
      destruct (Js.foldM _ built1 _) as [built2|e]; [|done].
      cbn [Js.bind]. apply IHrest.
    + cbn [Js.bind]. rewrite IHchild.
      destruct (Js.foldM _ built _) as [built2|e]; [|done].
      cbn [Js.bind]. apply IHrest.
  - cbn [configured omap list_omap Js.foldM Js.bind]. apply IHrest.
Qed.

Lemma pushCapsule_all bones entries :
  ∀ built,
    length (capsules built) + length entries ≤ 14 →
    ∃ added,
      Js.foldM (pushCapsule bones) built entries
      = Js.Ok {| capsules := capsules built ++ added;
                 capsuleBoneIndex :=
                   capsuleBoneIndex built ++ map (λ entry, indexOf bones entry.2.2) entries |} ∧
      length added = length entries ∧
      ∀ k boneConfig node childNode,
        entries !! k = Some (boneConfig, (node, childNode)) →
        ∃ rgb, GVRMUtils.colors !! (length (capsules built) + k) = Some rgb ∧
               added !! k = Some (capsuleFor boneConfig rgb node childNode).
Proof.
  induction entries as [|[boneConfig [node childNode]] entries IH]; intros built Hroom.
  - exists []. destruct built. simpl. by rewrite !app_nil_r.
  - simpl in Hroom. cbn [Js.foldM pushCapsule].
    destruct (GVRMUtils.colors !! length (capsules built)) as [rgb|] eqn:Hrgb.
    2: { apply lookup_ge_None in Hrgb. simpl in Hrgb. lia. }
    cbn [Js.bind].
    set (built1 := {| capsules := _ |}).
    destruct (IH built1) as (added & Hrun & Hlen & Hall).
    { unfold built1. cbn [capsules]. rewrite length_app. simpl. lia. }
    exists (capsuleFor boneConfig rgb node childNode :: added).
    rewrite Hrun. unfold built1. cbn [capsules capsuleBoneIndex map].
    rewrite <- !app_assoc. split; [done|]. split; [simpl; lia|].
    intros [|k] boneConfig' node' childNode' Hk.
    + injection Hk as <- <- <-. exists rgb. by rewrite Nat.add_0_r.
    + destruct (Hall k boneConfig' node' childNode' Hk) as (rgb' & Hrgb' & Hadded).
      exists rgb'. split; [|done].
      unfold built1 in Hrgb'. cbn [capsules] in Hrgb'. rewrite length_app in Hrgb'.
      simpl in Hrgb'. by replace (length (capsules built) + S k)
        with (length (capsules built) + 1 + k) by lia.
Qed.

Lemma pushCapsule_overflow bones entries :
  ∀ built,
    14 < length (capsules built) + length entries → entries ≠ [] →
    Js.foldM (pushCapsule bones) built entries = Js.Throw Js.TypeError.
Proof.
  induction entries as [|[boneConfig [node childNode]] entries IH]; intros built Hover Hne;
    [done|].
  cbn [Js.foldM pushCapsule].
  destruct (GVRMUtils.colors !! length (capsules built)) as [rgb|] eqn:Hrgb; [|done].
  cbn [Js.bind]. apply lookup_lt_Some in Hrgb. simpl in Hrgb.
  apply IH.
  - cbn [capsules]. rewrite length_app. simpl in *. lia.
  - intros ->. simpl in Hover. lia.
Qed.

(** X15. [getPointsMeshCapsules] makes one capsule for every bone with a
    configured name that is reached from the root node through bones, in
    the order of the traversal, and [capsuleBoneIndex] lists the
    skeleton indices of these bones in the same order (-1 for a node that
    is not in the skeleton), so the two arrays are aligned.  The capsule
    at position [k] gets the [k]-th palette colour, the radius and the
    scale of its bone type, and lies halfway between the parent and the
    bone.  With more than 14 such bones the palette runs out and the call
    throws a TypeError instead of returning. *)
Theorem traverseNodes_palette bones rootNode :
  let entries := configuredFrom rootNode in
  (length entries ≤ 14 →
   ∃ built,
     traverseFrom bones rootNode = Js.Ok built ∧
     length (capsules built) = length entries ∧
     capsuleBoneIndex built = map (λ entry, indexOf bones entry.2.2) entries ∧
     ∀ k boneConfig node childNode,
       entries !! k = Some (boneConfig, (node, childNode)) →
       ∃ rgb, GVRMUtils.colors !! k = Some rgb ∧
         capsules built !! k = Some (capsuleFor boneConfig rgb node childNode)) ∧
  (14 < length entries → traverseFrom bones rootNode = Js.Throw Js.TypeError).
Proof.
  intros entries. unfold traverseFrom.
  set (built0 := {| capsules := []; capsuleBoneIndex := [] |}).
  assert (Js.foldM (pushCapsule bones) built0 entries
          = match rootNode with
            | Some rootNode => _traverseNodes bones rootNode built0
            | None => Js.Ok built0
            end) as <-.
  { unfold entries, configuredFrom. destruct rootNode as [rootNode|]; [|done].
    by rewrite traverseNodes_loop. }
  split.
  - intros Hroom.
    destruct (pushCapsule_all bones entries built0 Hroom) as (added & Hrun & Hlen & Hall).
    eexists. split; [exact Hrun|]. cbn [capsules capsuleBoneIndex app].
    split; [done|]. split; [done|]. exact Hall.
  - intros Hover. apply pushCapsule_overflow; [simpl; lia|].
    intros Hnil. rewrite Hnil in Hover. simpl in Hover. lia.
Qed.

(** Fifteen bones with a configured name, one below the other, are one
    too many. *)
Lemma chain_exhausts_palette :
  traverseFrom [] (Some (MkNode "Root" false 15 (V3 0 0 0) (chain "J_Bip_C_Head" 15)))
  = Js.Throw Js.TypeError.
Proof. vm_compute. reflexivity. Qed.
End CapsuleFacts.


Section QuaternionFacts.
Import Shader ShaderExample.
Local Open Scope R_scope.

Lemma sqrt_four_squares t : sqrt (4 * t * t) = 2 * Rabs t.
Proof.
  replace (4 * t * t) with (Rsqr (2 * t)) by (unfold Rsqr; ring).
  rewrite sqrt_Rsqr_abs, Rabs_mult, (Rabs_right 2) by lra. done.
Qed.

Lemma half_quarter : 0.5 = 1 / 2 ∧ 0.25 = 1 / 4.
Proof. split; lra. Qed.

Lemma gt_cases a b : (gt a b = true ∧ a > b) ∨ (gt a b = false ∧ a <= b).
Proof. unfold gt. destruct (Rgt_dec a b); [left|right]; split; try done; lra. Qed.

(** The matrix of a quaternion is that of its negative. *)
Lemma mat3FromQuat_negated q :
  mat3FromQuat (V4 (- x4 q) (- y4 q) (- z4 q) (- w4 q)) = mat3FromQuat q.
Proof. destruct q. unfold mat3FromQuat. cbn [x4 y4 z4 w4]. f_equal; f_equal; ring. Qed.

(** In each of its four branches [quatFromMat3] recovers a unit
    quaternion from its matrix up to the sign, and divides by a number
    that is not zero. *)
Lemma quatFromMat3_recovers q :
  x4 q * x4 q + y4 q * y4 q + z4 q * z4 q + w4 q * w4 q = 1 →
  quatFromMat3 (mat3FromQuat q) = q ∨
  quatFromMat3 (mat3FromQuat q) = V4 (- x4 q) (- y4 q) (- z4 q) (- w4 q).
Proof.
  intros Hunit.
  destruct q as [a b c d]. cbn [x4 y4 z4 w4] in *.
  unfold quatFromMat3, mat3FromQuat. cbn [x4 y4 z4 w4 x y z col0 col1 col2].
  rewrite ?(proj1 half_quarter), ?(proj2 half_quarter).
  destruct (gt_cases (1 - (b * (b + b) + c * (c + c)) + (1 - (a * (a + a) + c * (c + c)))
                      + (1 - (a * (a + a) + b * (b + b)))) 0) as [[-> Htrace]|[-> Htrace]].
  - replace (1 - (b * (b + b) + c * (c + c)) + (1 - (a * (a + a) + c * (c + c)))
             + (1 - (a * (a + a) + b * (b + b))) + 1) with (4 * d * d) by nra.
    rewrite sqrt_four_squares.
    destruct (Rle_dec 0 d) as [Hd|Hd].
    + left. rewrite Rabs_right by lra. assert (d ≠ 0) by nra.
      f_equal; field; lra.
    + right. rewrite Rabs_left by lra. f_equal; field; lra.
  - destruct (gt_cases (1 - (b * (b + b) + c * (c + c))) (1 - (a * (a + a) + c * (c + c))))
      as [[-> H01]|[-> H01]];
    [destruct (gt_cases (1 - (b * (b + b) + c * (c + c))) (1 - (a * (a + a) + b * (b + b))))
      as [[-> H02]|[-> H02]]|]; cbn [andb].
    + replace (1 + (1 - (b * (b + b) + c * (c + c))) - (1 - (a * (a + a) + c * (c + c)))
               - (1 - (a * (a + a) + b * (b + b)))) with (4 * a * a) by nra.
      rewrite sqrt_four_squares. assert (a ≠ 0) by nra.
      destruct (Rle_dec 0 a) as [Ha|Ha].
      * left. rewrite Rabs_right by lra. f_equal; field; lra.
      * right. rewrite Rabs_left by lra. f_equal; field; lra.
    + destruct (gt_cases (1 - (a * (a + a) + c * (c + c))) (1 - (a * (a + a) + b * (b + b))))
        as [[-> H12]|[-> H12]].
      * replace (1 + (1 - (a * (a + a) + c * (c + c))) - (1 - (b * (b + b) + c * (c + c)))
                 - (1 - (a * (a + a) + b * (b + b)))) with (4 * b * b) by nra.
        rewrite sqrt_four_squares. assert (b ≠ 0) by nra.
        destruct (Rle_dec 0 b) as [Hb|Hb].
        -- left. rewrite Rabs_right by lra. f_equal; field; lra.
        -- right. rewrite Rabs_left by lra. f_equal; field; lra.
      * replace (1 + (1 - (a * (a + a) + b * (b + b))) - (1 - (b * (b + b) + c * (c + c)))
                 - (1 - (a * (a + a) + c * (c + c)))) with (4 * c * c) by nra.
        rewrite sqrt_four_squares. assert (c ≠ 0) by nra.
        destruct (Rle_dec 0 c) as [Hc|Hc].
        -- left. rewrite Rabs_right by lra. f_equal; field; lra.
        -- right. rewrite Rabs_left by lra. f_equal; field; lra.
    + destruct (gt_cases (1 - (a * (a + a) + c * (c + c))) (1 - (a * (a + a) + b * (b + b))))
        as [[-> H12]|[-> H12]].
      * replace (1 + (1 - (a * (a + a) + c * (c + c))) - (1 - (b * (b + b) + c * (c + c)))
                 - (1 - (a * (a + a) + b * (b + b)))) with (4 * b * b) by nra.
        rewrite sqrt_four_squares. assert (b ≠ 0) by nra.
        destruct (Rle_dec 0 b) as [Hb|Hb].
        -- left. rewrite Rabs_right by lra. f_equal; field; lra.
        -- right. rewrite Rabs_left by lra. f_equal; field; lra.
      * replace (1 + (1 - (a * (a + a) + b * (b + b))) - (1 - (b * (b + b) + c * (c + c)))
                 - (1 - (a * (a + a) + c * (c + c)))) with (4 * c * c) by nra.
        rewrite sqrt_four_squares. assert (c ≠ 0) by nra.
        destruct (Rle_dec 0 c) as [Hc|Hc].
        -- left. rewrite Rabs_right by lra. f_equal; field; lra.
        -- right. rewrite Rabs_left by lra. f_equal; field; lra.
Qed.

(** X16. [quatFromMat3] undoes [mat3FromQuat] on unit quaternions up to
    the sign of the quaternion, in each of its four branches, none of
    which divides by zero there; [mat3FromQuat] then gives the same
    matrix again. *)
Theorem quaternion_round_trip q :
  x4 q * x4 q + y4 q * y4 q + z4 q * z4 q + w4 q * w4 q = 1 →
  (quatFromMat3 (mat3FromQuat q) = q ∨
   quatFromMat3 (mat3FromQuat q) = V4 (- x4 q) (- y4 q) (- z4 q) (- w4 q)) ∧
  mat3FromQuat (quatFromMat3 (mat3FromQuat q)) = mat3FromQuat q.
Proof.
  intros Hunit. pose proof (quatFromMat3_recovers q Hunit) as Hsign.
  split; [done|].
  destruct Hsign as [->| ->]; [done|apply mat3FromQuat_negated].
Qed.

Lemma quaternion_round_trip_witness :
  (quatFromMat3 (mat3FromQuat (V4 1 0 0 0)) = V4 1 0 0 0 ∨
   quatFromMat3 (mat3FromQuat (V4 1 0 0 0)) = V4 (- 1) (- 0) (- 0) (- 0)) ∧
  mat3FromQuat (quatFromMat3 (mat3FromQuat (V4 1 0 0 0))) = mat3FromQuat (V4 1 0 0 0).
Proof. apply (quaternion_round_trip (V4 1 0 0 0)). simpl. lra. Defined.

Lemma mul3_identity_r m : mul3 m identity3 = m.
Proof.
  destruct m as [[a0 a1 a2] [b0 b1 b2] [d0 d1 d2]].
  unfold mul3, mulv3, identity3. cbn [x y z col0 col1 col2]. f_equal; f_equal; ring.
Qed.

Lemma mul3_identity_l m : mul3 identity3 m = m.
Proof.
  destruct m as [[a0 a1 a2] [b0 b1 b2] [d0 d1 d2]].
  unfold mul3, mulv3, identity3. cbn [x y z col0 col1 col2]. f_equal; f_equal; ring.
Qed.

Lemma mat3FromQuat_one : mat3FromQuat (V4 0 0 0 1) = identity3.
Proof. unfold mat3FromQuat, identity3. cbn [x4 y4 z4 w4]. f_equal; f_equal; ring. Qed.

(** X17. In the binding pose the deformer changes nothing: with the skin
    matrix of the binding pose (invertible) and a splat frame whose
    rotation is orthogonal, a splat whose stored offset is
    [center - transformed] is drawn at [center], moved by the world
    matrix of the mesh, and its covariance is the stored one. *)
Theorem binding_pose_is_reproduced
    meshMatrixWorld gsMatrix0 skinMatrix0 transformed center Vrk :
  determinant skinMatrix0 ≠ 0 →
  mul3 (transpose (mat3of gsMatrix0)) (mat3of gsMatrix0) = identity3 →
  splatCenter meshMatrixWorld transformed skinMatrix0 skinMatrix0 (sub3 center transformed)
  = xyz (mulv meshMatrixWorld (extend center 1)) ∧
  rotatedVrk gsMatrix0 skinMatrix0 skinMatrix0 Vrk = Vrk.
Proof.
  intros Hdet Horth. split; [by apply identity_pose_reproduces_center|].
  unfold rotatedVrk, covarianceRotation. rewrite (mul_inverse _ Hdet).
  change (mat3of identity) with identity3. rewrite mul3_identity_r, Horth.
  assert (quatFromMat3 identity3 = V4 0 0 0 1) as ->.
  { unfold quatFromMat3, identity3. cbn [x y z col0 col1 col2].
    rewrite gt_true by lra. rewrite ?(proj1 half_quarter), ?(proj2 half_quarter).
    replace (1 + 1 + 1 + 1) with (4 * 1 * 1) by ring.
    rewrite sqrt_four_squares, Rabs_R1. f_equal; field. }
  cbn [x4 y4 z4 w4]. rewrite Ropp_0, mat3FromQuat_one.
  change (transpose identity3) with identity3.
  by rewrite mul3_identity_l, mul3_identity_r.
Qed.

Lemma binding_pose_is_reproduced_witness :
  splatCenter identity (V3 0 1 0) identity identity (sub3 (V3 1 1 0) (V3 0 1 0))
  = xyz (mulv identity (extend (V3 1 1 0) 1)) ∧
  rotatedVrk identity identity identity slanted = slanted.
Proof.
  apply (binding_pose_is_reproduced identity identity identity (V3 0 1 0) (V3 1 1 0) slanted).
  - unfold determinant, identity, cofactor00, cofactor01, cofactor02, cofactor03.
    cbn [c0 c1 c2 c3 x4 y4 z4 w4]. lra.
  - unfold mul3, mulv3, transpose, mat3of, identity, identity3, xyz.
    cbn [c0 c1 c2 c3 x4 y4 z4 w4 x y z col0 col1 col2]. f_equal; f_equal; ring.
Defined.

(** X18. When the rotation of the skin since binding, seen in the frame of
    the splats, is the rotation of a unit quaternion [(x, y, z, w)], the
    covariance is turned by the rotation of the quaternion
    [(-x, y, -z, w)]: by the same angle about the axis mirrored in the
    y axis.  The stored offset is turned by the rotation of the skin
    itself; the two agree for turns about the y axis. *)
Theorem covariance_turns_about_mirrored_axis gsMatrix0 skinMatrix skinMatrix0 q Vrk :
  x4 q * x4 q + y4 q * y4 q + z4 q * z4 q + w4 q * w4 q = 1 →
  mul3 (mul3 (transpose (mat3of gsMatrix0)) (mat3of (mul skinMatrix (inverse skinMatrix0))))
       (mat3of gsMatrix0)
  = mat3FromQuat q →
  rotatedVrk gsMatrix0 skinMatrix skinMatrix0 Vrk
  = rotated (mat3FromQuat (V4 (- x4 q) (y4 q) (- z4 q) (w4 q))) Vrk ∧
  (x4 q = 0 → z4 q = 0 →
   rotatedVrk gsMatrix0 skinMatrix skinMatrix0 Vrk = rotated (mat3FromQuat q) Vrk).
Proof.
  intros Hunit Hrel.
  assert (rotatedVrk gsMatrix0 skinMatrix skinMatrix0 Vrk
          = rotated (mat3FromQuat (V4 (- x4 q) (y4 q) (- z4 q) (w4 q))) Vrk) as Hturn.
  { unfold rotatedVrk, covarianceRotation. rewrite Hrel.
    assert (∀ p, transpose (mat3FromQuat (V4 (x4 p) (- y4 p) (z4 p) (w4 p)))
                 = mat3FromQuat (V4 (- x4 p) (y4 p) (- z4 p) (w4 p))) as Hflip.
    { intros [a b c d]. unfold transpose, mat3FromQuat.
      cbn [x4 y4 z4 w4 x y z col0 col1 col2]. f_equal; f_equal; ring. }
    assert (∀ m, transpose (transpose m) = m) as Htwice by (by intros [[] [] []]).
    unfold rotated.
    destruct (quatFromMat3_recovers q Hunit) as [-> | ->].
    - by rewrite <- (Hflip q), Htwice.
    - cbn [x4 y4 z4 w4]. rewrite <- (Hflip q), Htwice.
      destruct q as [a b c d]. unfold mat3FromQuat, transpose, mul3, mulv3.
      cbn [x4 y4 z4 w4 x y z col0 col1 col2]. f_equal; f_equal; ring. }
  split; [done|]. intros Hx Hz. rewrite Hturn. destruct q as [a b c d].
  cbn [x4 y4 z4 w4] in *. subst a c. by rewrite Ropp_0.
Qed.

Lemma covariance_turns_about_mirrored_axis_witness :
  rotatedVrk identity halfTurnY identity slanted
  = rotated (mat3FromQuat (V4 (- 0) 1 (- 0) 0)) slanted ∧
  (0 = 0 → 0 = 0 →
   rotatedVrk identity halfTurnY identity slanted = rotated (mat3FromQuat (V4 0 1 0 0)) slanted).
Proof.
  apply (covariance_turns_about_mirrored_axis identity halfTurnY identity (V4 0 1 0 0) slanted).
  - simpl. lra.
  - rewrite inverse_identity, mul_identity_r, conjugate_identity3.
    unfold mat3of, halfTurnY, mat3FromQuat, xyz.
    cbn [c0 c1 c2 c3 x4 y4 z4 w4]. f_equal; f_equal; ring.
Defined.
End QuaternionFacts.


Section PoseFacts.
Import THREE Pose.

Lemma applyBoneOperation_fields vrm op vrm1 :
  applyBoneOperation vrm op = Js.Ok vrm1 →
  getRawBoneNode vrm1 = getRawBoneNode vrm ∧
  getNormalizedBoneNode vrm1 = getNormalizedBoneNode vrm ∧
  ∀ i, node vrm1 i = posed vrm [op] i (node vrm i).
Proof.
  unfold applyBoneOperation, movePosition, setRotation, setScale.
  unfold posed, finalPosition, finalRotation, finalScale. cbn [foldl].
  intros Hrun.
  destruct (opPosition op) as [p|], (opRotation op) as [r|], (opScale op) as [s|],
    (getRawBoneNode vrm (boneName op)) as [rawBone|] eqn:Hraw,
    (getNormalizedBoneNode vrm (boneName op)) as [normBone|] eqn:Hnorm;
    do 3 (cbn [Js.bind setNode getRawBoneNode getNormalizedBoneNode] in Hrun;
          rewrite ?Hraw, ?Hnorm in Hrun);
    try discriminate Hrun; injection Hrun as <-;
    (split; [done|]); (split; [done|]); intros i;
    cbn [setNode node position rotation scale];
    repeat case_decide; simplify_eq; try done; by destruct (node vrm i).
Qed.

Lemma posed_cons vrm op ops i bone :
  posed vrm (op :: ops) i bone = posed vrm ops i (posed vrm [op] i bone).
Proof. done. Qed.

Lemma posed_getters vrm vrm1 ops i bone :
  getRawBoneNode vrm1 = getRawBoneNode vrm →
  getNormalizedBoneNode vrm1 = getNormalizedBoneNode vrm →
  posed vrm1 ops i bone = posed vrm ops i bone.
Proof. unfold posed. by intros -> ->. Qed.

Lemma applyBoneOperations_fields ops :
  ∀ vrm vrm1,
    applyBoneOperations vrm ops = Js.Ok vrm1 →
    getRawBoneNode vrm1 = getRawBoneNode vrm ∧
    getNormalizedBoneNode vrm1 = getNormalizedBoneNode vrm ∧
    ∀ i, node vrm1 i = posed vrm ops i (node vrm i).
Proof.
  unfold applyBoneOperations.
  induction ops as [|op ops IH]; intros vrm vrm1 Hrun.
  - injection Hrun as <-. split; [done|]. split; [done|].
    intros i. by destruct (node vrm i).
  - cbn [Js.foldM] in Hrun.
    destruct (applyBoneOperation vrm op) as [vrm0|e] eqn:Hstep; [|done].
    cbn [Js.bind] in Hrun.
    destruct (applyBoneOperation_fields _ _ _ Hstep) as (Hraw0 & Hnorm0 & Hnode0).
    destruct (IH _ _ Hrun) as (Hraw & Hnorm & Hnode).
    split; [congruence|]. split; [congruence|]. intros i.
    by rewrite Hnode, Hnode0, posed_cons, (posed_getters vrm vrm0).
Qed.

Lemma applyBoneOperation_nodes vrm op :
  (∃ vrm1, applyBoneOperation vrm op = Js.Ok vrm1) ↔ nodesOf vrm op.
Proof.
  unfold applyBoneOperation, movePosition, setRotation, setScale, nodesOf. split.
  - intros [vrm1 Hrun].
    destruct (opPosition op) as [p|], (opRotation op) as [r|], (opScale op) as [s|],
      (getRawBoneNode vrm (boneName op)) as [rawBone|] eqn:Hraw,
      (getNormalizedBoneNode vrm (boneName op)) as [normBone|] eqn:Hnorm;
      do 3 (cbn [Js.bind setNode getRawBoneNode getNormalizedBoneNode] in Hrun;
            rewrite ?Hraw, ?Hnorm in Hrun);
      try discriminate Hrun;
      split; intros H; try done;
      try (destruct H as [H|H]; by inversion H); by inversion H.
  - intros [Hraw Hnorm].
    assert (∀ v : Vector3, is_Some (Some v)) as Hsome by (intros v; by eexists).
    destruct (opPosition op) as [p|], (opRotation op) as [r|], (opScale op) as [s|];
      try (destruct Hraw as [rawBone Hr]; [first [left; apply Hsome|right; apply Hsome]|]);
      try (destruct Hnorm as [normBone Hn]; [apply Hsome|]);
      repeat (cbn [Js.bind setNode getRawBoneNode getNormalizedBoneNode node];
              try match goal with H : _ = Some _ |- _ => rewrite H end);
      by eexists.
Qed.

Lemma nodesOf_same vrm vrm1 op :
  getRawBoneNode vrm1 = getRawBoneNode vrm →
  getNormalizedBoneNode vrm1 = getNormalizedBoneNode vrm →
  nodesOf vrm op → nodesOf vrm1 op.
Proof. unfold nodesOf. by intros -> ->. Qed.

Lemma applyBoneOperations_nodes ops :
  ∀ vrm, (∃ vrm1, applyBoneOperations vrm ops = Js.Ok vrm1) ↔ Forall (nodesOf vrm) ops.
Proof.
  unfold applyBoneOperations.
  induction ops as [|op ops IH]; intros vrm.
  - split; [constructor|by eexists].
  - cbn [Js.foldM]. split.
    + intros [vrm1 Hrun].
      destruct (applyBoneOperation vrm op) as [vrm0|e] eqn:Hstep; [|done].
      cbn [Js.bind] in Hrun.
      destruct (applyBoneOperation_fields _ _ _ Hstep) as (Hraw0 & Hnorm0 & _).
      constructor; [apply applyBoneOperation_nodes; by eexists|].
      assert (Forall (nodesOf vrm0) ops) as Hrest by (apply IH; by eexists).
      eapply Forall_impl; [exact Hrest|]. intros op'. by apply nodesOf_same.
    + intros Hall. apply Forall_cons in Hall as [Hop Hrest].
      apply applyBoneOperation_nodes in Hop as [vrm0 Hstep]. rewrite Hstep.
      cbn [Js.bind]. apply IH.
      destruct (applyBoneOperation_fields _ _ _ Hstep) as (Hraw0 & Hnorm0 & _).
      eapply Forall_impl; [exact Hrest|]. intros op'. by apply nodesOf_same.
Qed.

(** A list of operations leaves the rotation of a node alone or sets it
    to a value that does not depend on what it was; the same for the
    scale. *)
Lemma finalRotation_absolute getter ops i :
  (∀ r, finalRotation getter ops i r = r) ∨ (∃ v, ∀ r, finalRotation getter ops i r = v).
Proof.
  induction ops as [|op ops IH]; [by left|].
  destruct IH as [Hid|[v Hv]].
  - unfold finalRotation in *. cbn [foldl].
    destruct (decide (getter (boneName op) = Some i)); [|by left].
    destruct (opRotation op) as [d|]; [|by left].
    right. eexists. intros r. by rewrite Hid.
  - right. exists v. intros r. unfold finalRotation in *. cbn [foldl]. apply Hv.
Qed.

Lemma finalScale_absolute getter ops i :
  (∀ s, finalScale getter ops i s = s) ∨ (∃ v, ∀ s, finalScale getter ops i s = v).
Proof.
  induction ops as [|op ops IH]; [by left|].
  destruct IH as [Hid|[v Hv]].
  - unfold finalScale in *. cbn [foldl].
    destruct (decide (getter (boneName op) = Some i)); [|by left].
    destruct (opScale op) as [d|]; [|by left].
    right. eexists. intros s. by rewrite Hid.
  - right. exists v. intros s. unfold finalScale in *. cbn [foldl]. apply Hv.
Qed.

Lemma finalPosition_unmoved getter ops i p :
  Forall (λ op, opPosition op = None) ops → finalPosition getter ops i p = p.
Proof.
  intros Hall. revert p. induction Hall as [|op ops Hop _ IH]; intros p; [done|].
  unfold finalPosition in *. cbn [foldl]. rewrite Hop.
  destruct (decide _); apply IH.
Qed.

(** X19. [applyBoneOperations] returns when every operation finds the
    nodes it writes to: the node of the raw getter for a position or
    a scale, that of the normalized getter for a rotation.  It then
    composes its operations node by node: the positions of the
    operations whose raw node it is add up, while a rotation (in
    degrees, stored in radians) of an operation whose normalized node it
    is and a scale of an operation whose raw node it is replace what was
    there.  This holds whether the two getters return different nodes
    or, as in [VRMLoaderNode], the same one, which then takes all three.
    A second call with the same operations returns as well; it leaves
    the rotation and the scale of every node as they are and moves the
    nodes of the position operations once more, so it changes nothing
    when no operation has a position. *)
Theorem applyBoneOperations_composes vrm boneOperations :
  Forall (nodesOf vrm) boneOperations →
  ∃ vrm1 vrm2,
    applyBoneOperations vrm boneOperations = Js.Ok vrm1 ∧
    applyBoneOperations vrm1 boneOperations = Js.Ok vrm2 ∧
    (getRawBoneNode vrm1 = getRawBoneNode vrm ∧
     getNormalizedBoneNode vrm1 = getNormalizedBoneNode vrm ∧
     getRawBoneNode vrm2 = getRawBoneNode vrm ∧
     getNormalizedBoneNode vrm2 = getNormalizedBoneNode vrm) ∧
    (∀ i, node vrm1 i =
          {| position :=
               finalPosition (getRawBoneNode vrm) boneOperations i (position (node vrm i));
             rotation :=
               finalRotation (getNormalizedBoneNode vrm) boneOperations i
                             (rotation (node vrm i));
             scale :=
               finalScale (getRawBoneNode vrm) boneOperations i (scale (node vrm i)) |}) ∧
    (∀ i, node vrm2 i =
          {| position :=
               finalPosition (getRawBoneNode vrm) boneOperations i (position (node vrm1 i));
             rotation := rotation (node vrm1 i);
             scale := scale (node vrm1 i) |}) ∧
    (Forall (λ op, opPosition op = None) boneOperations →
     ∀ i, node vrm2 i = node vrm1 i).
Proof.
  intros Hall.
  destruct (proj2 (applyBoneOperations_nodes boneOperations vrm) Hall) as [vrm1 Hrun].
  destruct (applyBoneOperations_fields _ _ _ Hrun) as (Hraw & Hnorm & Hnode).
  assert (∃ vrm2, applyBoneOperations vrm1 boneOperations = Js.Ok vrm2) as [vrm2 Hagain].
  { apply applyBoneOperations_nodes.
    eapply Forall_impl; [exact Hall|]. intros op. by apply nodesOf_same. }
  destruct (applyBoneOperations_fields _ _ _ Hagain) as (Hraw2 & Hnorm2 & Hnode2).
  assert (∀ i, node vrm2 i =
               {| position :=
                    finalPosition (getRawBoneNode vrm) boneOperations i
                                  (position (node vrm1 i));
                  rotation := rotation (node vrm1 i);
                  scale := scale (node vrm1 i) |}) as Hmoved.
  { intros i. rewrite Hnode2, (posed_getters vrm vrm1) by done.
    unfold posed. f_equal.
    - rewrite Hnode. cbn [posed rotation].
      destruct (finalRotation_absolute (getNormalizedBoneNode vrm) boneOperations i)
        as [Hid|[v Hv]].
      + by rewrite !Hid.
      + by rewrite !Hv.
    - rewrite Hnode. cbn [posed scale].
      destruct (finalScale_absolute (getRawBoneNode vrm) boneOperations i)
        as [Hid|[v Hv]].
      + by rewrite !Hid.
      + by rewrite !Hv. }
  exists vrm1, vrm2. split_and!; try done; try congruence.
  intros Hnone i. rewrite Hmoved, finalPosition_unmoved by done.
  by destruct (node vrm1 i).
Qed.

(** On the humanoid of [VRMLoaderNode], where both getters return the
    same node, lowering the arm writes the rotation to that node. *)
Lemma applyBoneOperations_composes_witness :
  ∃ vrm1 vrm2,
    applyBoneOperations exampleHumanoid [lowerArm] = Js.Ok vrm1 ∧
    applyBoneOperations vrm1 [lowerArm] = Js.Ok vrm2 ∧
    (getRawBoneNode vrm1 = getRawBoneNode exampleHumanoid ∧
     getNormalizedBoneNode vrm1 = getNormalizedBoneNode exampleHumanoid ∧
     getRawBoneNode vrm2 = getRawBoneNode exampleHumanoid ∧
     getNormalizedBoneNode vrm2 = getNormalizedBoneNode exampleHumanoid) ∧
    (∀ i, node vrm1 i =
          {| position :=
               finalPosition (getRawBoneNode exampleHumanoid) [lowerArm] i
                             (position (node exampleHumanoid i));
             rotation :=
               finalRotation (getNormalizedBoneNode exampleHumanoid) [lowerArm] i
                             (rotation (node exampleHumanoid i));
             scale :=
               finalScale (getRawBoneNode exampleHumanoid) [lowerArm] i
                          (scale (node exampleHumanoid i)) |}) ∧
    (∀ i, node vrm2 i =
          {| position :=
               finalPosition (getRawBoneNode exampleHumanoid) [lowerArm] i
                             (position (node vrm1 i));
             rotation := rotation (node vrm1 i);
             scale := scale (node vrm1 i) |}) ∧
    (Forall (λ op, opPosition op = None) [lowerArm] →
     ∀ i, node vrm2 i = node vrm1 i).
Proof.
  apply (applyBoneOperations_composes exampleHumanoid [lowerArm]).
  repeat constructor; intros H; try (by eexists);
    try (destruct H as [H|H]; by inversion H).
Defined.

(** The same node seen through both getters: after [lowerArm] and
    [moveArm] on the humanoid of [VRMLoaderNode] the raw node carries
    the rotation, and the normalized node the position; on a rig with
    two nodes each carries its own.  A position operation applied twice
    moves the node twice. *)
Lemma moveArm_twice :
  ∃ vrm1 vrm2 rig1,
    applyBoneOperations exampleHumanoid [lowerArm; moveArm] = Js.Ok vrm1 ∧
    applyBoneOperations vrm1 [lowerArm; moveArm] = Js.Ok vrm2 ∧
    applyBoneOperations rigHumanoid [lowerArm; moveArm] = Js.Ok rig1 ∧
    node vrm1 0 = {| position := V3 0.125 0 0; rotation := V3 0 0 (radians 45);
                     scale := V3 1 1 1 |} ∧
    node vrm2 0 = {| position := V3 0.25 0 0; rotation := V3 0 0 (radians 45);
                     scale := V3 1 1 1 |} ∧
    node rig1 0 = {| position := V3 0.125 0 0; rotation := V3 0 0 0;
                     scale := V3 1 1 1 |} ∧
    node rig1 1 = {| position := V3 0 0 0; rotation := V3 0 0 (radians 45);
                     scale := V3 1 1 1 |}.
Proof. do 3 eexists. split_and!; reflexivity. Qed.
End PoseFacts.


Section GsFacts.
Import Gs.
Variable store : float → float.

Lemma write_four (before after : list float) i o0 o1 o2 o3 a b c d :
  length before = i * 4 →
  Textures.write store
    (Textures.write store
       (Textures.write store
          (Textures.write store (before ++ o0 :: o1 :: o2 :: o3 :: after) (i * 4 + 0) a)
          (i * 4 + 1) b)
       (i * 4 + 2) c)
    (i * 4 + 3) d
  = before ++ store a :: store b :: store c :: store d :: after.
Proof.
  intros Hlen. unfold Textures.write.
  rewrite !insert_app_r_alt by lia.
  replace (i * 4 + 0 - length before) with 0 by lia.
  replace (i * 4 + 1 - length before) with 1 by lia.
  replace (i * 4 + 2 - length before) with 2 by lia.
  replace (i * 4 + 3 - length before) with 3 by lia.
  done.
Qed.

Lemma write_three (before after : list float) i o0 o1 o2 a b c :
  length before = i * 3 →
  Textures.write store
    (Textures.write store
       (Textures.write store (before ++ o0 :: o1 :: o2 :: after) (i * 3 + 0) a)
       (i * 3 + 1) b)
    (i * 3 + 2) c
  = before ++ store a :: store b :: store c :: after.
Proof.
  intros Hlen. unfold Textures.write.
  rewrite !insert_app_r_alt by lia.
  replace (i * 3 + 0 - length before) with 0 by lia.
  replace (i * 3 + 1 - length before) with 1 by lia.
  replace (i * 3 + 2 - length before) with 2 by lia.
  done.
Qed.

Lemma length_bind_blocks {A} (f : A → list float) w (l : list A) :
  (∀ a, length (f a) = w) → length (l ≫= f) = length l * w.
Proof.
  intros Hw. induction l as [|a l IH]; [done|].
  cbn [mbind list_bind]. change (length (f a ++ l ≫= f) = length (a :: l) * w).
  rewrite length_app, IH, Hw. simpl. lia.
Qed.

Lemma loadGS_from (loaded rest : list PlyVertex) :
  foldl (loadVertex store)
        {| colors := (loaded ≫= colorOf store) ++ replicate (length rest * 4) 0%float;
           positions := (loaded ≫= positionOf store) ++ replicate (length rest * 3) 0%float;
           scales := (loaded ≫= scaleOf store) ++ replicate (length rest * 3) 0%float;
           rotations := (loaded ≫= rotationOf store) ++ replicate (length rest * 4) 0%float |}
        (imap (λ i vertex, (length loaded + i, vertex)) rest)
  = {| colors := (loaded ++ rest) ≫= colorOf store;
       positions := (loaded ++ rest) ≫= positionOf store;
       scales := (loaded ++ rest) ≫= scaleOf store;
       rotations := (loaded ++ rest) ≫= rotationOf store |}.
Proof.
  revert loaded. induction rest as [|vertex rest IH]; intros loaded.
  - cbn [imap foldl length Nat.mul replicate]. by rewrite !app_nil_r.
  - cbn [imap foldl]. rewrite Nat.add_0_r.
    rewrite (imap_ext _ (λ i v, (length (loaded ++ [vertex]) + i, v)) rest).
    2: { intros i v _. rewrite length_app. simpl. f_equal. lia. }
    replace (loaded ++ vertex :: rest) with ((loaded ++ [vertex]) ++ rest)
      by (by rewrite <- app_assoc).
    rewrite <- IH. f_equal.
    unfold loadVertex. cbn [colors positions scales rotations length Nat.mul Nat.add replicate].
    rewrite !bind_app. cbn [mbind list_bind]. rewrite !app_nil_r.
    rewrite <- !app_assoc.
    f_equal.
    + apply write_four. by apply length_bind_blocks.
    + apply write_three. by apply length_bind_blocks.
    + apply write_three. by apply length_bind_blocks.
    + apply write_four. by apply length_bind_blocks.
Qed.

(** X20. On the command line path [loadGS] fills the four arrays vertex
    by vertex: the colours are the three channels over 255 followed by
    the alpha 1, the positions, the scales and the rotations are the
    properties of the vertex, every value as a [Float32Array] stores it.
    A property that is missing, 0 or [NaN] is replaced by its default,
    so a colour channel of 0 is stored as 255 / 255 (white, not black),
    a scale of 0 as 0.01 and a fourth rotation component of 0 as 1. *)
Theorem loadGS_fills_arrays (vertices : list PlyVertex) :
  colors (loadGS store vertices) = vertices ≫= colorOf store ∧
  positions (loadGS store vertices) = vertices ≫= positionOf store ∧
  scales (loadGS store vertices) = vertices ≫= scaleOf store ∧
  rotations (loadGS store vertices) = vertices ≫= rotationOf store ∧
  (∀ i vertex, vertices !! i = Some vertex →
     (red vertex = None ∨ red vertex = Some 0%float ∨ red vertex = Some nan →
      colors (loadGS store vertices) !! (i * 4) = Some (store (255 / 255.0)%float)) ∧
     colors (loadGS store vertices) !! (i * 4 + 3) = Some (store 1.0%float) ∧
     (scale_0 vertex = None ∨ scale_0 vertex = Some 0%float ∨ scale_0 vertex = Some nan →
      scales (loadGS store vertices) !! (i * 3) = Some (store 0.01%float)) ∧
     (rot_3 vertex = None ∨ rot_3 vertex = Some 0%float ∨ rot_3 vertex = Some nan →
      rotations (loadGS store vertices) !! (i * 4 + 3) = Some (store 1%float))).
Proof.
  assert (loadGS store vertices
          = {| colors := vertices ≫= colorOf store;
               positions := vertices ≫= positionOf store;
               scales := vertices ≫= scaleOf store;
               rotations := vertices ≫= rotationOf store |}) as ->.
  { unfold loadGS. exact (loadGS_from [] vertices). }
  cbn [colors positions scales rotations]. split_and!; try done.
  intros i vertex Hi.
  apply list_elem_of_split_length in Hi as (before & after & -> & ->).
  rewrite !bind_app. cbn [mbind list_bind].
  assert (∀ w (f : PlyVertex → list float), (∀ a, length (f a) = w) →
            ∀ c (rest : list float),
              ((before ≫= f) ++ rest) !! (length before * w + c) = rest !! c)
    as Hblock.
  { intros w f Hw c rest. rewrite lookup_app_r; rewrite (length_bind_blocks f w) by done;
      [f_equal|]; lia. }
  assert (∀ w (f : PlyVertex → list float), (∀ a, length (f a) = w) →
            ∀ (rest : list float),
              ((before ≫= f) ++ rest) !! (length before * w) = rest !! 0)
    as Hfirst.
  { intros w f Hw rest. rewrite <- (Hblock w f Hw 0 rest). f_equal. lia. }
  unfold colorOf, scaleOf, rotationOf. split_and!.
  - intros Hred. rewrite (Hfirst 4) by done. cbn [app lookup list_lookup].
    destruct Hred as [-> | [-> | ->]]; reflexivity.
  - by rewrite (Hblock 4) by done.
  - intros Hscale. rewrite (Hfirst 3) by done. cbn [app lookup list_lookup].
    destruct Hscale as [-> | [-> | ->]]; reflexivity.
  - intros Hrot. rewrite (Hblock 4) by done. cbn [app lookup list_lookup].
    destruct Hrot as [-> | [-> | ->]]; reflexivity.
Qed.
End GsFacts.
